(** * JSON value model, recursive-descent parser, path accessor and serializer

    A shallow embedding of [src/include/parsers/json_parser.h] and
    [src/src/parsers/json_parser.cpp] (namespace [parser]), followed by the
    properties of the specification that were checked against it and by
    further properties of the code.

    Conventions of the embedding:
    - [std::string] is [string]; a [char] is an [ascii] byte.
    - [int] is a [Z] in the range [INT_MIN .. INT_MAX] (32 bits).
    - [double] is an IEEE-754 binary64 value, [spec_float] with
      [prec = 53] and [emax = 1024]; a NaN carries no sign or payload.
    - [std::map<std::string, JSONValue>] is an association list kept sorted
      by key (the iteration order of [std::map]), without duplicate keys.
    - a C++ exception is the [Throw] outcome of [result], carrying the
      message it was constructed with; [what()] is that message as a C
      string, up to its first NUL byte ([c_str]).
    - the C library is glibc on x86-64: [strtod] rounds to nearest and
      detects underflow after rounding ([is_tiny]).
    - the call stack is unbounded: recursion depth is limited only by the
      fuel of the mutually recursive parsing functions, and [parse] is
      shown to supply enough of it for every input. *)

From Stdlib Require Import ZArith List Bool Lia Arith Ascii String.
From Stdlib Require Import Floats.SpecFloat.
Import ListNotations.

Open Scope string_scope.
Open Scope nat_scope.

(* ================================================================= *)
(** ** Characters and strings of the C++ standard library *)

(** [std::isdigit] in the "C" locale. *)
Definition isdigit (c : ascii) : bool :=
  match c with
  | "0" | "1" | "2" | "3" | "4" | "5" | "6" | "7" | "8" | "9" => true
  | _ => false
  end%char.

(** [std::isspace] in the "C" locale: space, \t, \n, \v, \f, \r. *)
Definition isspace (c : ascii) : bool :=
  match c with
  | " " | "009" | "010" | "011" | "012" | "013" => true
  | _ => false
  end%char.

(** [content[pos]]: for [pos == content.length()] the operator yields the
    terminating NUL character. *)
Definition char_at (content : string) (pos : nat) : ascii :=
  match String.get pos content with
  | Some c => c
  | None => Ascii.zero
  end.

(** [content.substr(pos, n)], for [pos <= content.length()]. *)
Definition substr (content : string) (pos n : nat) : string :=
  String.substring pos n content.

(** [s.find(c) != std::string::npos]. *)
Fixpoint contains_char (c : ascii) (s : string) : bool :=
  match s with
  | EmptyString => false
  | String c' s' => (c' =? c)%char || contains_char c s'
  end.

(** [std::string(n, c)]. *)
Fixpoint string_repeat (n : nat) (c : ascii) : string :=
  match n with
  | O => EmptyString
  | S n' => String c (string_repeat n' c)
  end.

Definition string_of_char (c : ascii) : string := String c EmptyString.

(** [std::string(s.c_str())]: a C string ends at its first NUL byte. *)
Fixpoint c_str (s : string) : string :=
  match s with
  | EmptyString => EmptyString
  | String c s' =>
      if (c =? Ascii.zero)%char then EmptyString else String c (c_str s')
  end.

(* ================================================================= *)
(** ** [int]: [std::stoi] and [std::to_string(int)] *)

Definition INT_MIN : Z := (-2147483648)%Z.
Definition INT_MAX : Z := 2147483647%Z.

Definition in_int_range (z : Z) : bool :=
  ((INT_MIN <=? z) && (z <=? INT_MAX))%Z.

Definition digit_value (c : ascii) : Z :=
  (Z.of_N (N_of_ascii c) - 48)%Z.

Definition digit_char (d : Z) : ascii :=
  ascii_of_N (Z.to_N (48 + d)).

(** The run of decimal digits at the front of [s], accumulated as strtol and
    strtod do: returns the value, the number of digits read and the rest. *)
Fixpoint scan_digits (s : string) (acc : Z) (n : nat) : Z * nat * string :=
  match s with
  | String c s' =>
      if isdigit c then scan_digits s' (10 * acc + digit_value c)%Z (S n)
      else (acc, n, s)
  | EmptyString => (acc, n, s)
  end.

Fixpoint skip_spaces (s : string) : string :=
  match s with
  | String c s' => if isspace c then skip_spaces s' else s
  | EmptyString => s
  end.

(** An optional sign: [(negative, rest)]. *)
Definition scan_sign (s : string) : bool * string :=
  match s with
  | String "-" s' => (true, s')
  | String "+" s' => (false, s')
  | _ => (false, s)
  end.

(** [std::stoi(s)]: [None] when it throws ([std::invalid_argument] when no
    digit can be converted, [std::out_of_range] when the value does not fit
    an [int]). Characters after the digits are ignored. *)
Definition stoi (s : string) : option Z :=
  let '(neg, s1) := scan_sign (skip_spaces s) in
  let '(v, n, _) := scan_digits s1 0%Z 0 in
  match n with
  | O => None
  | S _ =>
      let v' := if neg then (- v)%Z else v in
      if in_int_range v' then Some v' else None
  end.

(** Decimal digits of a non-negative number, most significant first, in
    front of [acc]. [fuel] bounds the number of digits. *)
Fixpoint dec_digits (fuel : nat) (n : Z) (acc : string) : string :=
  match fuel with
  | O => acc
  | S fuel' =>
      let acc' := String (digit_char (n mod 10)) acc in
      if (n <? 10)%Z then acc' else dec_digits fuel' (n / 10) acc'
  end.

Definition dec_string (n : Z) : string :=
  dec_digits (S (Z.to_nat (Z.log2 n))) n EmptyString.

(** [std::to_string(int)]. *)
Definition to_string_int (z : Z) : string :=
  if (z <? 0)%Z then String "-" (dec_string (- z)) else dec_string z.

(* ================================================================= *)
(** ** [double]: [std::stod], [std::to_string(double)], conversions *)

Definition double : Type := spec_float.

Definition dprec : Z := 53%Z.
Definition demax : Z := 1024%Z.

(** The binary64 value nearest to [m * 10^e] (ties to even), as strtod
    computes it; an overflow gives an infinity. *)
Definition decimal_to_double (neg : bool) (m e : Z) : double :=
  match m with
  | Zpos p =>
      if (0 <=? e)%Z then
        binary_normalize dprec demax
          (if neg then Z.opp (m * 10 ^ e) else (m * 10 ^ e))%Z 0%Z neg
      else
        SFdiv dprec demax (S754_finite neg p 0%Z)
          (S754_finite false (Z.to_pos (10 ^ (- e))) 0%Z)
  | _ => S754_zero neg
  end.

(** Whether [d] is exactly [m * 10^e] in absolute value. *)
Definition double_is_exactly (d : double) (m e : Z) : bool :=
  match d with
  | S754_finite _ md ed =>
      (Zpos md * 2 ^ (Z.max ed 0) * 10 ^ (Z.max (- e) 0)
       =? m * 10 ^ (Z.max e 0) * 2 ^ (Z.max (- ed) 0))%Z
  | S754_zero _ => (m =? 0)%Z
  | _ => false
  end.

(** Whether strtod counts [m * 10^e] as tiny. The C library (glibc on
    x86-64) detects tininess after rounding: the value is tiny when, rounded
    to 53 bits with an unbounded exponent, it is still below the smallest
    normal number [2^-1022], that is when
    [m * 10^e < (2^54 - 1) * 2^-1076]. *)
Definition is_tiny (m e : Z) : bool :=
  (e <? 0)%Z && (m * 2 ^ 1076 <? (2 ^ 54 - 1) * 10 ^ (- e))%Z.

(** The exponent part of a decimal floating literal: [e] or [E], an optional
    sign and at least one digit; without a digit nothing is consumed. *)
Definition scan_exponent (s : string) : Z :=
  match s with
  | String c s' =>
      if ((c =? "e") || (c =? "E"))%char then
        let '(neg, s1) := scan_sign s' in
        let '(v, n, _) := scan_digits s1 0%Z 0 in
        match n with
        | O => 0%Z
        | S _ => if neg then (- v)%Z else v
        end
      else 0%Z
  | EmptyString => 0%Z
  end.

(** The result of strtod for the decimal [m * 10^e], [0 <= m], with the
    sign [neg]: the nearest binary64 value, or [None] when strtod reports
    [ERANGE], on an overflow and on a result that is tiny and inexact. *)
Definition strtod_result (neg : bool) (m e : Z) : option double :=
  let d := decimal_to_double neg m e in
  match d with
  | S754_infinity _ => None
  | _ =>
      if is_tiny m e && negb (double_is_exactly d m e)
      then None else Some d
  end.

(** [std::stod(s)] for the decimal form of the subject sequence (optional
    white space and sign, digits with an optional point, optional exponent):
    [None] when it throws, that is [std::invalid_argument] when there is no
    digit and [std::out_of_range] when strtod reports [ERANGE]. The forms
    [inf], [nan] and hexadecimal are not covered: the one caller here,
    [parse_number], passes lexemes made of digits and of the characters
    [- + . e E] only. *)
Definition stod (s : string) : option double :=
  let '(neg, s1) := scan_sign (skip_spaces s) in
  let '(ip, n1, s2) := scan_digits s1 0%Z 0 in
  let '(m, n2, s3) :=
    match s2 with
    | String "." s2' => scan_digits s2' ip 0
    | _ => (ip, 0, s2)
    end in
  match n1 + n2 with
  | O => None
  | S _ => strtod_result neg m (scan_exponent s3 - Z.of_nat n2)
  end.

(** Six digits after the decimal point. *)
Definition frac6 (n : Z) : string :=
  String (digit_char (n / 100000 mod 10))
 (String (digit_char (n / 10000 mod 10))
 (String (digit_char (n / 1000 mod 10))
 (String (digit_char (n / 100 mod 10))
 (String (digit_char (n / 10 mod 10))
 (String (digit_char (n mod 10)) EmptyString))))).

(** [p / q] rounded to the nearest integer, ties to even, for [0 < q]. *)
Definition div_round_even (p q : Z) : Z :=
  let quo := (p / q)%Z in
  let r := (p mod q)%Z in
  match (2 * r ?= q)%Z with
  | Lt => quo
  | Gt => (quo + 1)%Z
  | Eq => if Z.even quo then quo else (quo + 1)%Z
  end.

(** [std::to_string(double)], that is [printf("%f")]: six digits after the
    point, the exact binary value rounded to nearest. *)
Definition to_string_double (d : double) : string :=
  match d with
  | S754_nan => "nan"
  | S754_infinity s => if s then "-inf" else "inf"
  | S754_zero s => if s then "-0.000000" else "0.000000"
  | S754_finite s m e =>
      let n :=
        if (0 <=? e)%Z then (Zpos m * 2 ^ e * 1000000)%Z
        else div_round_even (Zpos m * 1000000) (2 ^ (- e)) in
      (if s then "-" else "") ++
      dec_string (n / 1000000) ++ "." ++ frac6 (n mod 1000000)
  end.

(** [static_cast<int>(d)]: truncation toward zero. Outside the range of
    [int] (and for NaN) the conversion is undefined in C++; the model gives
    [INT_MIN] there, as the x86 conversion does. *)
Definition double_to_int (d : double) : Z :=
  match d with
  | S754_finite s m e =>
      let t := if (0 <=? e)%Z then (Zpos m * 2 ^ e)%Z
               else (Zpos m / 2 ^ (- e))%Z in
      let t' := if s then (- t)%Z else t in
      if in_int_range t' then t' else INT_MIN
  | S754_zero _ => 0%Z
  | _ => INT_MIN
  end.

(** [d != 0.0]: false for both zeros, true for everything else (NaN too). *)
Definition double_nonzero (d : double) : bool :=
  match d with
  | S754_zero _ => false
  | _ => true
  end.

Definition double_zero : double := S754_zero false.

(* ================================================================= *)
(** ** [std::map<std::string, V>] as a sorted association list *)

Section StdMap.
Context {V : Type}.

(** [m.find(key)], [None] for [m.end()]. *)
Fixpoint map_find (key : string) (m : list (string * V)) : option V :=
  match m with
  | [] => None
  | (k, v) :: m' => if (k =? key)%string then Some v else map_find key m'
  end.

(** [m[key] = value]: the entry is replaced when the key is present and
    inserted at its place in key order otherwise. *)
Fixpoint map_assign (key : string) (value : V) (m : list (string * V))
  : list (string * V) :=
  match m with
  | [] => [(key, value)]
  | (k, v) :: m' =>
      match String.compare key k with
      | Eq => (key, value) :: m'
      | Lt => (key, value) :: (k, v) :: m'
      | Gt => (k, v) :: map_assign key value m'
      end
  end.
End StdMap.

(* ================================================================= *)
(** ** [class JSONValue] *)

(** [enum class JSONValue::Type]. *)
Inductive JSONType : Type :=
  | TString | TNumber | TInteger | TBoolean | TNull | TObject | TArray.

Definition JSONType_eqb (a b : JSONType) : bool :=
  match a, b with
  | TString, TString | TNumber, TNumber | TInteger, TInteger
  | TBoolean, TBoolean | TNull, TNull | TObject, TObject
  | TArray, TArray => true
  | _, _ => false
  end.

(** The private members of [JSONValue]: a tag and one field per payload. *)
#[warnings="-register-all"]
Inductive JSONValue : Type :=
  mkJSONValue {
    type_ : JSONType;
    string_value_ : string;
    int_value_ : Z;
    double_value_ : double;
    bool_value_ : bool;
    object_values_ : list (string * JSONValue);
    array_values_ : list JSONValue
  }.

(** [JSONValue()]. *)
Definition JSONValue_null : JSONValue :=
  mkJSONValue TNull "" 0%Z double_zero false [] [].

(** [JSONValue(const std::string&)]. *)
Definition JSONValue_string (value : string) : JSONValue :=
  mkJSONValue TString value 0%Z double_zero false [] [].

(** [JSONValue(int)]. *)
Definition JSONValue_int (value : Z) : JSONValue :=
  mkJSONValue TInteger "" value double_zero false [] [].

(** [JSONValue(double)]. *)
Definition JSONValue_double (value : double) : JSONValue :=
  mkJSONValue TNumber "" 0%Z value false [] [].

(** [JSONValue(bool)]. *)
Definition JSONValue_bool (value : bool) : JSONValue :=
  mkJSONValue TBoolean "" 0%Z double_zero value [] [].

Definition get_type (v : JSONValue) : JSONType := type_ v.

Definition as_string (v : JSONValue) : string :=
  match type_ v with
  | TString => string_value_ v
  | TInteger => to_string_int (int_value_ v)
  | TNumber => to_string_double (double_value_ v)
  | TBoolean => if bool_value_ v then "true" else "false"
  | TNull => "null"
  | _ => ""
  end.

Definition as_int (v : JSONValue) : Z :=
  match type_ v with
  | TString =>
      match stoi (string_value_ v) with
      | Some z => z
      | None => 0%Z
      end
  | TInteger => int_value_ v
  | TNumber => double_to_int (double_value_ v)
  | TBoolean => if bool_value_ v then 1%Z else 0%Z
  | _ => 0%Z
  end.

Definition as_bool (v : JSONValue) : bool :=
  match type_ v with
  | TString =>
      negb (string_value_ v =? "")%string
      && negb (string_value_ v =? "false")%string
      && negb (string_value_ v =? "0")%string
  | TInteger => negb (int_value_ v =? 0)%Z
  | TNumber => double_nonzero (double_value_ v)
  | TBoolean => bool_value_ v
  | _ => false
  end.

Definition set (v : JSONValue) (key : string) (value : JSONValue)
  : JSONValue :=
  let v' :=
    if negb (JSONType_eqb (type_ v) TObject)
    then mkJSONValue TObject "" 0%Z double_zero false (object_values_ v) []
    else v in
  mkJSONValue (type_ v') (string_value_ v') (int_value_ v')
    (double_value_ v') (bool_value_ v')
    (map_assign key value (object_values_ v')) (array_values_ v').

Definition get (v : JSONValue) (key : string) : JSONValue :=
  if negb (JSONType_eqb (type_ v) TObject) then JSONValue_null
  else
    match map_find key (object_values_ v) with
    | Some it => it
    | None => JSONValue_null
    end.

Definition has_key (v : JSONValue) (key : string) : bool :=
  if negb (JSONType_eqb (type_ v) TObject) then false
  else
    match map_find key (object_values_ v) with
    | Some _ => true
    | None => false
    end.

Definition get_keys (v : JSONValue) : list string :=
  if JSONType_eqb (type_ v) TObject then map fst (object_values_ v)
  else [].

Definition push_back (v : JSONValue) (value : JSONValue) : JSONValue :=
  let v' :=
    if negb (JSONType_eqb (type_ v) TArray)
    then mkJSONValue TArray "" 0%Z double_zero false [] (array_values_ v)
    else v in
  mkJSONValue (type_ v') (string_value_ v') (int_value_ v')
    (double_value_ v') (bool_value_ v')
    (object_values_ v') (array_values_ v' ++ [value]).

Definition at_ (v : JSONValue) (index : nat) : JSONValue :=
  if negb (JSONType_eqb (type_ v) TArray)
     || (List.length (array_values_ v) <=? index)
  then JSONValue_null
  else nth index (array_values_ v) JSONValue_null.

Definition size (v : JSONValue) : nat :=
  if JSONType_eqb (type_ v) TArray then List.length (array_values_ v)
  else if JSONType_eqb (type_ v) TObject then List.length (object_values_ v)
  else 0.

(* ================================================================= *)
(** ** [struct JSONResult] and the path accessor *)

Record JSONResult : Type :=
  mkJSONResult {
    success : bool;
    error_message : string;
    root : JSONValue
  }.

(** [std::getline(stream, component, '.')] on the unread characters of a
    stream that is not exhausted: the characters before the first ['.'] (or
    all of them) and the characters left after the delimiter. *)
Fixpoint getline (stream : string) : string * string :=
  match stream with
  | EmptyString => (EmptyString, EmptyString)
  | String c rest =>
      if (c =? ".")%char then (EmptyString, rest)
      else let '(component, rest') := getline rest in
           (String c component, rest')
  end.

(** The components read by [while (std::getline(path_stream, component,
    '.'))]: the extraction fails, and the loop ends, once no character is
    left in the stream. [fuel] bounds the number of components. *)
Fixpoint getlines (fuel : nat) (stream : string) : list string :=
  match fuel with
  | O => []
  | S fuel' =>
      match stream with
      | EmptyString => []
      | _ => let '(component, rest) := getline stream in
             component :: getlines fuel' rest
      end
  end.

(** The body of the loop of [get_value], over the components still to be
    read. *)
Fixpoint get_value_loop (components : list string) (current : JSONValue)
  : JSONValue :=
  match components with
  | [] => current
  | component :: components' =>
      if negb (JSONType_eqb (get_type current) TObject) then JSONValue_null
      else
        let current := get current component in
        if JSONType_eqb (get_type current) TNull then JSONValue_null
        else get_value_loop components' current
  end.

Definition get_value (r : JSONResult) (path : string) : JSONValue :=
  if (path =? "")%string then root r
  else get_value_loop (getlines (String.length path) path) (root r).

Definition get_string (r : JSONResult) (path : string)
  (default_value : string) : string :=
  let value := get_value r path in
  if JSONType_eqb (get_type value) TNull then default_value
  else as_string value.

Definition get_int (r : JSONResult) (path : string) (default_value : Z)
  : Z :=
  let value := get_value r path in
  if JSONType_eqb (get_type value) TNull then default_value
  else as_int value.

Definition get_bool (r : JSONResult) (path : string) (default_value : bool)
  : bool :=
  let value := get_value r path in
  if JSONType_eqb (get_type value) TNull then default_value
  else as_bool value.

Definition has_path (r : JSONResult) (path : string) : bool :=
  let value := get_value r path in
  negb (JSONType_eqb (get_type value) TNull).

(** [JSONResult::get_keys(path)]. *)
Definition get_keys_at (r : JSONResult) (path : string) : list string :=
  let value := get_value r path in
  if JSONType_eqb (get_type value) TObject then get_keys value
  else [].

(* ================================================================= *)
(** ** [class JSONParser]: parsing *)

(** The outcome of a parsing function: a value together with the new
    position of the cursor, a thrown [std::runtime_error], or a recursion
    cut short by the fuel. *)
Inductive result (A : Type) : Type :=
  | Ok (a : A) (pos : nat)
  | Throw (what : string)
  | OutOfFuel.
Arguments Ok {A} a pos.
Arguments Throw {A} what.
Arguments OutOfFuel {A}.

Definition bind {A B : Type} (r : result A) (k : A -> nat -> result B)
  : result B :=
  match r with
  | Ok a pos => k a pos
  | Throw what => Throw what
  | OutOfFuel => OutOfFuel
  end.

Notation "'let*' ( a , pos ) := r 'in' k" :=
  (bind r (fun a pos => k))
  (at level 10, a name, pos name, r at level 100, k at level 200).

Definition dquote : ascii := "034"%char.
Definition backslash : ascii := "092"%char.
Definition newline_char : ascii := "010"%char.

Fixpoint skip_whitespace_loop (n : nat) (content : string) (pos : nat)
  : nat :=
  match n with
  | O => pos
  | S n' =>
      if (pos <? String.length content) && isspace (char_at content pos)
      then skip_whitespace_loop n' content (S pos)
      else pos
  end.

Definition skip_whitespace (content : string) (pos : nat) : nat :=
  skip_whitespace_loop (String.length content - pos) content pos.

(** [while (pos < content.length() && std::isdigit(content[pos])) pos++]. *)
Fixpoint skip_digits_loop (n : nat) (content : string) (pos : nat) : nat :=
  match n with
  | O => pos
  | S n' =>
      if (pos <? String.length content) && isdigit (char_at content pos)
      then skip_digits_loop n' content (S pos)
      else pos
  end.

Definition skip_digits (content : string) (pos : nat) : nat :=
  skip_digits_loop (String.length content - pos) content pos.

(** The [switch (escape)] of [parse_string]. *)
Definition unescape (escape : ascii) : option ascii :=
  if (escape =? dquote)%char then Some dquote
  else if (escape =? backslash)%char then Some backslash
  else if (escape =? "/")%char then Some "/"%char
  else if (escape =? "b")%char then Some "008"%char
  else if (escape =? "f")%char then Some "012"%char
  else if (escape =? "n")%char then Some "010"%char
  else if (escape =? "r")%char then Some "013"%char
  else if (escape =? "t")%char then Some "009"%char
  else None.

(** The [while (pos < content.length())] loop of [parse_string]; [n] is the
    number of characters left to read. *)
Fixpoint parse_string_loop (n : nat) (content : string) (pos : nat)
  (res : string) : result string :=
  match n with
  | O => Throw "Unterminated string"
  | S n' =>
      if pos <? String.length content then
        let c := char_at content pos in
        let pos := S pos in
        if (c =? dquote)%char then Ok res pos
        else if (c =? backslash)%char then
          if String.length content <=? pos
          then Throw "Unexpected end of input in string"
          else
            let escape := char_at content pos in
            let pos := S pos in
            match unescape escape with
            | Some c' =>
                parse_string_loop n' content pos (res ++ string_of_char c')
            | None =>
                Throw ("Invalid escape sequence: "
                       ++ String backslash (string_of_char escape))
            end
        else parse_string_loop n' content pos (res ++ string_of_char c)
      else Throw "Unterminated string"
  end.

Definition parse_string (content : string) (pos : nat) : result string :=
  if negb (char_at content pos =? dquote)%char
  then Throw ("Expected '" ++ String dquote "' at start of string")
  else
    let pos := S pos in
    parse_string_loop (String.length content - pos) content pos "".

(** The cursor of [parse_number] after its scanning part: an optional
    ['-'], digits, an optional ['.'] with digits, an optional exponent. *)
Definition scan_number (content : string) (pos : nat) : nat :=
  let len := String.length content in
  let pos := if (char_at content pos =? "-")%char then S pos else pos in
  let pos := skip_digits content pos in
  let pos :=
    if (pos <? len) && (char_at content pos =? ".")%char
    then skip_digits content (S pos)
    else pos in
  if (pos <? len)
     && ((char_at content pos =? "e") || (char_at content pos =? "E"))%char
  then
    let pos := S pos in
    let pos :=
      if (pos <? len)
         && ((char_at content pos =? "+")
             || (char_at content pos =? "-"))%char
      then S pos else pos in
    skip_digits content pos
  else pos.

(** [num_str.find('.') != npos || num_str.find('e') != npos
    || num_str.find('E') != npos]. *)
Definition is_floating_lexeme (num_str : string) : bool :=
  contains_char "." num_str || contains_char "e" num_str
  || contains_char "E" num_str.

Definition parse_number (content : string) (pos : nat) : result JSONValue :=
  let start := pos in
  let pos := scan_number content pos in
  let num_str := substr content start (pos - start) in
  if is_floating_lexeme num_str
  then
    match stod num_str with
    | Some d => Ok (JSONValue_double d) pos
    | None => Throw ("Invalid number: " ++ num_str)
    end
  else
    match stoi num_str with
    | Some z => Ok (JSONValue_int z) pos
    | None => Throw ("Invalid number: " ++ num_str)
    end.

(** [parse_value], [parse_object] and [parse_array] call each other; each
    call and each turn of the two [while] loops takes one unit of [fuel]. *)
Fixpoint parse_value (fuel : nat) (content : string) (pos : nat)
  {struct fuel} : result JSONValue :=
  match fuel with
  | O => OutOfFuel
  | S fuel' =>
      let pos := skip_whitespace content pos in
      if String.length content <=? pos
      then Throw "Unexpected end of input"
      else
        let c := char_at content pos in
        if (c =? "{")%char then parse_object fuel' content pos
        else if (c =? "[")%char then parse_array fuel' content pos
        else if (c =? dquote)%char then
          let* (s, pos) := parse_string content pos in
          Ok (JSONValue_string s) pos
        else if ((c =? "t") || (c =? "f"))%char then
          if (substr content pos 4 =? "true")%string
          then Ok (JSONValue_bool true) (pos + 4)
          else if (substr content pos 5 =? "false")%string
          then Ok (JSONValue_bool false) (pos + 5)
          else Throw "Invalid boolean value"
        else if (c =? "n")%char then
          if (substr content pos 4 =? "null")%string
          then Ok JSONValue_null (pos + 4)
          else Throw "Invalid null value"
        else if isdigit c || (c =? "-")%char then parse_number content pos
        else Throw ("Unexpected character: " ++ string_of_char c)
  end

with parse_object (fuel : nat) (content : string) (pos : nat)
  {struct fuel} : result JSONValue :=
  match fuel with
  | O => OutOfFuel
  | S fuel' =>
      let obj := set JSONValue_null "" JSONValue_null in
      let pos := S pos in
      let pos := skip_whitespace content pos in
      if (pos <? String.length content) && (char_at content pos =? "}")%char
      then Ok obj (S pos)
      else parse_object_loop fuel' content pos obj
  end

with parse_object_loop (fuel : nat) (content : string) (pos : nat)
  (obj : JSONValue) {struct fuel} : result JSONValue :=
  match fuel with
  | O => OutOfFuel
  | S fuel' =>
      if pos <? String.length content then
        let pos := skip_whitespace content pos in
        if negb (char_at content pos =? dquote)%char
        then Throw "Expected string key in object"
        else
          let* (key, pos) := parse_string content pos in
          let pos := skip_whitespace content pos in
          if (String.length content <=? pos)
             || negb (char_at content pos =? ":")%char
          then Throw "Expected ':' after key"
          else
            let pos := S pos in
            let pos := skip_whitespace content pos in
            let* (value, pos) := parse_value fuel' content pos in
            let obj := set obj key value in
            let pos := skip_whitespace content pos in
            if String.length content <=? pos
            then Throw "Unexpected end of input in object"
            else if (char_at content pos =? "}")%char then Ok obj (S pos)
            else if (char_at content pos =? ",")%char
            then parse_object_loop fuel' content (S pos) obj
            else Throw "Expected ',' or '}' in object"
      else Ok obj pos
  end

with parse_array (fuel : nat) (content : string) (pos : nat)
  {struct fuel} : result JSONValue :=
  match fuel with
  | O => OutOfFuel
  | S fuel' =>
      let arr := JSONValue_null in
      let pos := S pos in
      let pos := skip_whitespace content pos in
      if (pos <? String.length content) && (char_at content pos =? "]")%char
      then Ok arr (S pos)
      else parse_array_loop fuel' content pos arr
  end

with parse_array_loop (fuel : nat) (content : string) (pos : nat)
  (arr : JSONValue) {struct fuel} : result JSONValue :=
  match fuel with
  | O => OutOfFuel
  | S fuel' =>
      if pos <? String.length content then
        let pos := skip_whitespace content pos in
        let* (value, pos) := parse_value fuel' content pos in
        let arr := push_back arr value in
        let pos := skip_whitespace content pos in
        if String.length content <=? pos
        then Throw "Unexpected end of input in array"
        else if (char_at content pos =? "]")%char then Ok arr (S pos)
        else if (char_at content pos =? ",")%char
        then parse_array_loop fuel' content (S pos) arr
        else Throw "Expected ',' or ']' in array"
      else Ok arr pos
  end.

(** Fuel that no input exhausts (see [parse_value_fuel_enough]). *)
Definition parse_fuel (content : string) : nat :=
  3 * String.length content + 3.

(** [JSONParser::parse]: the [try] block and its [catch], which stores
    [e.what()], a C string, as the message. [None] stands for a recursion
    that ran out of fuel, which no input causes
    ([parse_value_fuel_enough]). *)
Definition parse (content : string) : option JSONResult :=
  let result_ := mkJSONResult false "" JSONValue_null in
  let pos := 0 in
  let pos := skip_whitespace content pos in
  match parse_value (parse_fuel content) content pos with
  | Ok v _ => Some (mkJSONResult true (error_message result_) v)
  | Throw what => Some (mkJSONResult false (c_str what) (root result_))
  | OutOfFuel => None
  end.

(* ================================================================= *)
(** ** [class JSONParser]: serialization *)

(** The loop over [value.get_keys()] of [value_to_string]: for each key of
    the map, in key order, the member text of [value.get(key)], the value
    stored under that key. *)
Definition members_to_string (child_to_string : JSONValue -> string)
  (sep prefix : string) : list (string * JSONValue) -> bool -> string :=
  fix members (l : list (string * JSONValue)) (first : bool) : string :=
    match l with
    | [] => ""
    | (key, child) :: l' =>
        (if first then "" else sep)
        ++ prefix ++ String dquote key ++ String dquote ": "
        ++ child_to_string child ++ members l' false
    end.

(** The loop over [value.at(i)], [i < value.size()]. *)
Definition elements_to_string (child_to_string : JSONValue -> string)
  (sep prefix : string) : list JSONValue -> bool -> string :=
  fix elements (l : list JSONValue) (first : bool) : string :=
    match l with
    | [] => ""
    | child :: l' =>
        (if first then "" else sep)
        ++ prefix ++ child_to_string child ++ elements l' false
    end.

Fixpoint value_to_string (value : JSONValue) (indent : nat)
  (pretty_print : bool) {struct value} : string :=
  let indent_str :=
    if pretty_print then string_repeat (indent * 2) " " else "" in
  let newline :=
    if pretty_print then string_of_char newline_char else "" in
  let prefix := indent_str ++ (if pretty_print then "  " else "") in
  match value with
  | mkJSONValue t _ _ _ _ object_values array_values =>
      match t with
      | TString => String dquote (as_string value) ++ string_of_char dquote
      | TInteger | TNumber => as_string value
      | TBoolean => as_string value
      | TNull => "null"
      | TObject =>
          "{" ++ newline
          ++ members_to_string
               (fun child => value_to_string child (S indent) pretty_print)
               ("," ++ newline) prefix object_values true
          ++ newline ++ indent_str ++ "}"
      | TArray =>
          "[" ++ newline
          ++ elements_to_string
               (fun child => value_to_string child (S indent) pretty_print)
               ("," ++ newline) prefix array_values true
          ++ newline ++ indent_str ++ "]"
      end
  end.

(** [JSONParser::to_string]. *)
Definition to_string (r : JSONResult) (pretty_print : bool) : string :=
  value_to_string (root r) 0 pretty_print.

(* ================================================================= *)
(** ** Vocabulary of the properties *)

(** [s] between double quotes, as a key or a string is written in JSON
    text when nothing in it needs an escape. *)
Definition quoted (s : string) : string :=
  String dquote (s ++ string_of_char dquote).

(** The result wrapper around a given root, for the path accessor. *)
Definition result_of (v : JSONValue) : JSONResult :=
  mkJSONResult true "" v.

(** [obj.set(key, value)] for a member [(key, value)]. *)
Definition set_member (obj : JSONValue) (member : string * JSONValue)
  : JSONValue :=
  set obj (fst member) (snd member).

(** The first entry of the map of [v] has the key [""]. *)
Definition empty_key_first (v : JSONValue) : bool :=
  match object_values_ v with
  | (key, _) :: _ => (key =? "")%string
  | [] => false
  end.

(** [p] holds of every Object in the tree of [v], [v] included. *)
Fixpoint every_object (p : JSONValue -> bool) (v : JSONValue) {struct v}
  : bool :=
  match v with
  | mkJSONValue t _ _ _ _ object_values array_values =>
      (if JSONType_eqb t TObject then p v else true)
      && forallb (fun member => every_object p (snd member)) object_values
      && forallb (every_object p) array_values
  end.

(** Induction on a value with the children of its map and of its vector. *)
Section JSONValueInduction.
Variable P : JSONValue -> Prop.
Hypothesis step :
  forall t s i d b object_values array_values,
    Forall (fun member => P (snd member)) object_values ->
    Forall P array_values ->
    P (mkJSONValue t s i d b object_values array_values).

Fixpoint JSONValue_nested_ind (v : JSONValue) : P v :=
  match v with
  | mkJSONValue t s i d b object_values array_values =>
      step t s i d b object_values array_values
        ((fix members (l : list (string * JSONValue))
            : Forall (fun member => P (snd member)) l :=
            match l with
            | [] => Forall_nil _
            | member :: l' =>
                Forall_cons member (JSONValue_nested_ind (snd member))
                  (members l')
            end) object_values)
        ((fix elements (l : list JSONValue) : Forall P l :=
            match l with
            | [] => Forall_nil _
            | child :: l' =>
                Forall_cons child (JSONValue_nested_ind child)
                  (elements l')
            end) array_values)
  end.
End JSONValueInduction.

(** No character of [s] is white space. *)
Fixpoint no_space (s : string) : bool :=
  match s with
  | EmptyString => true
  | String c s' => negb (isspace c) && no_space s'
  end.

(** The strings and the keys that [value_to_string] writes for [v] contain
    no white space. *)
Fixpoint content_no_space (v : JSONValue) {struct v} : bool :=
  match v with
  | mkJSONValue t s _ _ _ object_values array_values =>
      match t with
      | TString => no_space s
      | TObject =>
          forallb (fun member =>
                     no_space (fst member) && content_no_space (snd member))
            object_values
      | TArray => forallb content_no_space array_values
      | _ => true
      end
  end.

(** Every white-space character of [s] is a space that comes directly
    after a colon; [prev] is the character before [s]. *)
Fixpoint spaces_follow_colons (prev : ascii) (s : string) : bool :=
  match s with
  | EmptyString => true
  | String c s' =>
      (negb (isspace c) || ((c =? " ") && (prev =? ":"))%char)
      && spaces_follow_colons c s'
  end.

(** The white space of a whole text [s] is made of single spaces, each
    directly after a colon. *)
Definition single_spaced (s : string) : bool :=
  spaces_follow_colons Ascii.zero s.

(** Neither a double quote nor a backslash occurs in [s]: [value_to_string]
    writes a string between quotes as it is, without escapes. *)
Fixpoint no_escape_needed (s : string) : bool :=
  match s with
  | EmptyString => true
  | String c s' =>
      negb (c =? dquote)%char && negb (c =? backslash)%char
      && no_escape_needed s'
  end.

(** No key occurs twice, as in every [std::map]. *)
Fixpoint distinct_keys (keys : list string) : bool :=
  match keys with
  | [] => true
  | key :: keys' =>
      negb (existsb (String.eqb key) keys') && distinct_keys keys'
  end.

(** [a] and [b] are the same binary64 datum. *)
Definition same_double (a b : double) : bool :=
  match a, b with
  | S754_zero s, S754_zero s' => Bool.eqb s s'
  | S754_infinity s, S754_infinity s' => Bool.eqb s s'
  | S754_nan, S754_nan => true
  | S754_finite s m e, S754_finite s' m' e' =>
      Bool.eqb s s' && (m =? m')%positive && (e =? e')%Z
  | _, _ => false
  end.

(** The six decimals that [std::to_string] writes for [d] give [d] back:
    [d] is finite, and [std::stod] converts its text to [d] again. *)
Definition six_decimals_exact (d : double) : bool :=
  match d with
  | S754_zero _ | S754_finite _ _ _ =>
      match stod (to_string_double d) with
      | Some d' => same_double d' d
      | None => false
      end
  | _ => false
  end.

(** The values for which the round trip through the text is shown: Null,
    Boolean, Integer (in the range of [int]), Number (when its six decimals
    are exact), String, Object and Array (with an element, as every Array
    that [push_back] makes), with strings and keys that need no escape. *)
Fixpoint round_trippable (v : JSONValue) {struct v} : bool :=
  match v with
  | mkJSONValue t s i d _ object_values array_values =>
      match t with
      | TNull | TBoolean => true
      | TInteger => in_int_range i
      | TNumber => six_decimals_exact d
      | TString => no_escape_needed s
      | TObject =>
          distinct_keys (map fst object_values)
          && forallb (fun member =>
                        no_escape_needed (fst member)
                        && round_trippable (snd member))
               object_values
      | TArray =>
          match array_values with
          | [] => false
          | _ :: _ => forallb round_trippable array_values
          end
      end
  end.

(** The tree that the parser builds from the text of [v]: the constructor
    of its kind for a scalar, [set] member after member on the object that
    [parse_object] starts from, [push_back] element after element. *)
Fixpoint reparsed (v : JSONValue) {struct v} : JSONValue :=
  match v with
  | mkJSONValue t s i d b object_values array_values =>
      match t with
      | TString => JSONValue_string s
      | TInteger => JSONValue_int i
      | TNumber => JSONValue_double d
      | TBoolean => JSONValue_bool b
      | TNull => JSONValue_null
      | TObject =>
          fold_left set_member
            (map (fun member => (fst member, reparsed (snd member)))
               object_values)
            (set JSONValue_null "" JSONValue_null)
      | TArray =>
          fold_left push_back (map reparsed array_values) JSONValue_null
      end
  end.

(** [a] and [b] have the same kind and, for a scalar kind, the same value. *)
Definition same_kind_value (a b : JSONValue) : Prop :=
  get_type a = get_type b
  /\ match get_type a with
     | TString => string_value_ a = string_value_ b
     | TInteger => int_value_ a = int_value_ b
     | TNumber => double_value_ a = double_value_ b
     | TBoolean => bool_value_ a = bool_value_ b
     | TNull | TObject | TArray => True
     end.

(** The unread part of [content] for a cursor at [pos]. *)
Fixpoint drop (pos : nat) (content : string) : string :=
  match pos, content with
  | O, _ => content
  | S pos', String _ content' => drop pos' content'
  | S _, EmptyString => EmptyString
  end.

(** A character that cannot continue the lexeme of an integer. *)
Definition ends_number (suffix : string) : bool :=
  match suffix with
  | EmptyString => true
  | String c _ =>
      negb (isdigit c) && negb (c =? ".")%char && negb (c =? "e")%char
      && negb (c =? "E")%char
  end.

(** Every character of [s] is a decimal digit. *)
Fixpoint all_digits (s : string) : bool :=
  match s with
  | EmptyString => true
  | String c s' => isdigit c && all_digits s'
  end.

(** A serialized value read back by [parse_value]: [text] starts like a
    value, and wherever it stands in a larger text, followed by something
    that cannot continue a number, [parse_value] returns [v'] and leaves
    the cursor just behind it. *)
Definition parses_back (text : string) (v' : JSONValue) : Prop :=
  (exists c rest,
      text = String c rest /\ isspace c = false /\ (c =? "]")%char = false)
  /\ forall fuel content pos suffix,
      drop pos content = text ++ suffix ->
      ends_number suffix = true ->
      parse_value fuel content pos <> OutOfFuel ->
      exists pos',
        parse_value fuel content pos = Ok v' pos'
        /\ drop pos' content = suffix.

(** A parsing function called at [pos] came back: with a cursor between
    [pos] and the end of the text, or with a message whose C string is not
    empty. *)
Definition returns_from {A : Type} (len pos : nat) (r : result A) : Prop :=
  match r with
  | Ok _ pos' => pos <= pos' /\ pos' <= len
  | Throw what => c_str what <> ""
  | OutOfFuel => False
  end.

(** [v] with every string and every key emptied: what [value_to_string]
    writes for it is the text of [v] outside the content of its strings and
    keys. *)
Fixpoint without_content (v : JSONValue) {struct v} : JSONValue :=
  match v with
  | mkJSONValue t _ i d b object_values array_values =>
      mkJSONValue t "" i d b
        (map (fun member => ("", without_content (snd member)))
           object_values)
        (map without_content array_values)
  end.

(** [content_filled skeleton text]: [text] is [skeleton] with some content
    put between the two quotes of each pair [""] of [skeleton], and nothing
    changed outside the quotes. *)
Inductive content_filled : string -> string -> Prop :=
  | filled_end : content_filled "" ""
  | filled_outside (c : ascii) (skeleton text : string) :
      (c =? dquote)%char = false ->
      content_filled skeleton text ->
      content_filled (String c skeleton) (String c text)
  | filled_quoted (content skeleton text : string) :
      content_filled skeleton text ->
      content_filled (String dquote (String dquote skeleton))
        (String dquote (content ++ String dquote text)).

(** [same_tree v w]: [w] has the kind of [v] and, for a scalar kind, its
    value; for an Array, [w] has as many elements as [v] and [w.at(i)] is
    the same tree as the i-th element of [v]; for an Object, every member
    of [v] is a member of [w] with the same tree as value, and [w] has no
    key besides those of [v] and the empty key. *)
Fixpoint same_tree (v w : JSONValue) {struct v} : Prop :=
  match v with
  | mkJSONValue t s i d b object_values array_values =>
      get_type w = t
      /\ match t with
         | TString => string_value_ w = s
         | TInteger => int_value_ w = i
         | TNumber => double_value_ w = d
         | TBoolean => bool_value_ w = b
         | TNull => True
         | TArray =>
             size w = List.length array_values
             /\ (fix elements (l : list JSONValue) (index : nat) : Prop :=
                   match l with
                   | [] => True
                   | child :: l' =>
                       same_tree child (at_ w index)
                       /\ elements l' (S index)
                   end) array_values 0
         | TObject =>
             (fix members (l : list (string * JSONValue)) : Prop :=
                match l with
                | [] => True
                | (key, child) :: l' =>
                    has_key w key = true
                    /\ same_tree child (get w key)
                    /\ members l'
                end) object_values
             /\ (forall key,
                   has_key w key = true ->
                   key = "" \/ In key (map fst object_values))
         end
  end.

(** The segments of a path: the texts between its dots, so that a path
    with [n] dots has [n + 1] segments, some of which may be empty. *)
Fixpoint path_segments (path : string) : list string :=
  match path with
  | EmptyString => [""]
  | String c path' =>
      if (c =? ".")%char then "" :: path_segments path'
      else
        match path_segments path' with
        | segment :: segments => String c segment :: segments
        | [] => [String c ""]
        end
  end.

(** The path with the segments [segments], a dot between two of them. *)
Fixpoint join_segments (segments : list string) : string :=
  match segments with
  | [] => ""
  | segment :: segments' =>
      match segments' with
      | [] => segment
      | _ :: _ => segment ++ "." ++ join_segments segments'
      end
  end.

(** The segments without the last one when that is empty. *)
Fixpoint without_last_empty (segments : list string) : list string :=
  match segments with
  | [] => []
  | segment :: segments' =>
      match segments' with
      | [] => if (segment =? "")%string then [] else [segment]
      | _ :: _ => segment :: without_last_empty segments'
      end
  end.

(** The segments that [get_value] looks up for a path. *)
Definition looked_up_segments (path : string) : list string :=
  without_last_empty (path_segments path).

(** The keys are in strictly ascending order, the order in which a
    [std::map] keeps and iterates them. *)
Fixpoint keys_sorted (keys : list string) : bool :=
  match keys with
  | [] => true
  | key :: keys' =>
      match keys' with
      | [] => true
      | key' :: _ => (key <? key')%string && keys_sorted keys'
      end
  end.

(** The entries of the map of [v] are in ascending key order. *)
Definition keys_in_order (v : JSONValue) : bool :=
  keys_sorted (map fst (object_values_ v)).

(** Only the payload that the tag of [v] selects is set: the other fields
    have the values that the constructors and the mutators leave in them. *)
Definition well_tagged (v : JSONValue) : bool :=
  let no_string := (string_value_ v =? "")%string in
  let no_int := (int_value_ v =? 0)%Z in
  let no_double :=
    match double_value_ v with
    | S754_zero false => true
    | _ => false
    end in
  let no_bool := negb (bool_value_ v) in
  let no_object :=
    match object_values_ v with [] => true | _ :: _ => false end in
  let no_array :=
    match array_values_ v with [] => true | _ :: _ => false end in
  match type_ v with
  | TString => no_int && no_double && no_bool && no_object && no_array
  | TNumber => no_string && no_int && no_bool && no_object && no_array
  | TInteger => no_string && no_double && no_bool && no_object && no_array
  | TBoolean => no_string && no_int && no_double && no_object && no_array
  | TNull =>
      no_string && no_int && no_double && no_bool && no_object && no_array
  | TObject => no_string && no_int && no_double && no_bool && no_array
  | TArray => no_string && no_int && no_double && no_bool && no_object
  end.

(** [p] holds of every value in the tree of [v], [v] included. *)
Fixpoint every_value (p : JSONValue -> bool) (v : JSONValue) {struct v}
  : bool :=
  match v with
  | mkJSONValue _ _ _ _ _ object_values array_values =>
      p v
      && forallb (fun member => every_value p (snd member)) object_values
      && forallb (every_value p) array_values
  end.

(* ================================================================= *)
(** ** The language that the parser reads, as a grammar *)

(** The grammar of section 4.2 of the specification, written over texts and
    not over a cursor, with the value that each text denotes. It is the
    yardstick for the parser: which texts are values, which keys and
    members an object literal writes. Where the program is more liberal
    than the specification the rule says so. *)

(** Every character of [s] is white space for [std::isspace]. *)
Fixpoint all_space (s : string) : bool :=
  match s with
  | EmptyString => true
  | String c s' => isspace c && all_space s'
  end.

(** The characters with which a value starts: [parse_value] dispatches on
    them. *)
Definition starts_value (c : ascii) : bool :=
  (c =? "{")%char || (c =? "[")%char || (c =? dquote)%char
  || (c =? "t")%char || (c =? "f")%char || (c =? "n")%char
  || isdigit c || (c =? "-")%char.

(** The character that an escape sequence [\e] stands for. *)
Definition escape_meaning (e : ascii) : option ascii :=
  match e with
  | "034" => Some "034"
  | "\" => Some "\"
  | "/" => Some "/"
  | "b" => Some "008"
  | "f" => Some "012"
  | "n" => Some "010"
  | "r" => Some "013"
  | "t" => Some "009"
  | _ => None
  end%char.

(** [string_body raw s]: the characters [raw] between the two quotes of a
    string literal denote the string [s]. No unescaped quote occurs in
    [raw], and every backslash starts one of the eight escapes. *)
Inductive string_body : string -> string -> Prop :=
  | body_end : string_body "" ""
  | body_char (c : ascii) (raw s : string) :
      c <> dquote -> c <> backslash ->
      string_body raw s ->
      string_body (String c raw) (String c s)
  | body_escape (e c : ascii) (raw s : string) :
      escape_meaning e = Some c ->
      string_body raw s ->
      string_body (String backslash (String e raw)) (String c s).

(** The sign of an exponent, as written. *)
Inductive exponent_sign : Type :=
  | NoSign
  | PlusSign
  | MinusSign.

(** The parts of a number lexeme: an optional minus sign, the digits before
    the point, the digits after the point when there is a point, and the
    exponent when there is an exponent mark: the mark [e] or [E], the sign
    and the digits. Each run of digits may be empty. *)
Record number_lexeme : Type :=
  mkLexeme {
    lex_minus : bool;
    lex_int : string;
    lex_frac : option string;
    lex_exp : option (ascii * exponent_sign * string)
  }.

Definition sign_text (s : exponent_sign) : string :=
  match s with
  | NoSign => ""
  | PlusSign => "+"
  | MinusSign => "-"
  end.

Definition frac_text (frac : option string) : string :=
  match frac with
  | Some digits => String "." digits
  | None => ""
  end.

Definition exp_text (exp : option (ascii * exponent_sign * string))
  : string :=
  match exp with
  | Some (mark, sign, digits) => String mark (sign_text sign ++ digits)
  | None => ""
  end.

(** The text of a lexeme. *)
Definition lexeme_text (l : number_lexeme) : string :=
  (if lex_minus l then "-" else "")
  ++ lex_int l ++ frac_text (lex_frac l) ++ exp_text (lex_exp l).

(** The runs of digits are made of digits and the mark is [e] or [E]. *)
Definition lexeme_well_formed (l : number_lexeme) : bool :=
  all_digits (lex_int l)
  && match lex_frac l with
     | Some digits => all_digits digits
     | None => true
     end
  && match lex_exp l with
     | Some (mark, _, digits) =>
         ((mark =? "e") || (mark =? "E"))%char && all_digits digits
     | None => true
     end.

(** The lexeme is not continued by [rest]: the parser reads as many
    characters of a number as it can. *)
Definition lexeme_stops (l : number_lexeme) (rest : string) : bool :=
  match rest with
  | EmptyString => true
  | String c _ =>
      negb (isdigit c)
      && match lex_frac l, lex_exp l with
         | None, None =>
             negb (c =? ".")%char && negb (c =? "e")%char
             && negb (c =? "E")%char
         | Some _, None => negb (c =? "e")%char && negb (c =? "E")%char
         | _, Some (_, NoSign, EmptyString) =>
             negb (c =? "+")%char && negb (c =? "-")%char
         | _, Some _ => true
         end
  end.

(** The number that a run of decimal digits writes, after [acc]. *)
Fixpoint digits_value (acc : Z) (digits : string) : Z :=
  match digits with
  | EmptyString => acc
  | String c digits' => digits_value (10 * acc + digit_value c)%Z digits'
  end.

(** The digits of the mantissa and the power of ten that scales them. An
    exponent without digits counts as no exponent. *)
Definition lexeme_mantissa (l : number_lexeme) : string :=
  lex_int l ++ match lex_frac l with Some digits => digits | None => "" end.

Definition lexeme_exponent (l : number_lexeme) : Z :=
  (match lex_exp l with
   | Some (_, _, EmptyString) | None => 0
   | Some (_, MinusSign, digits) => - digits_value 0 digits
   | Some (_, _, digits) => digits_value 0 digits
   end
   - match lex_frac l with
     | Some digits => Z.of_nat (String.length digits)
     | None => 0
     end)%Z.

(** The value of a lexeme. Without point and exponent it is an Integer, the
    number written by its digits, when that fits an [int]; with one of them
    it is a Number, the binary64 value nearest to the decimal, when that is
    in range. A lexeme without a digit in its mantissa has no value. *)
Definition lexeme_value (l : number_lexeme) : option JSONValue :=
  match lexeme_mantissa l with
  | EmptyString => None
  | String _ _ =>
      match lex_frac l, lex_exp l with
      | None, None =>
          let z := digits_value 0 (lex_int l) in
          let z := if lex_minus l then (- z)%Z else z in
          if in_int_range z then Some (JSONValue_int z) else None
      | _, _ =>
          option_map JSONValue_double
            (strtod_result (lex_minus l)
               (digits_value 0 (lexeme_mantissa l)) (lexeme_exponent l))
      end
  end.

(** The object that a list of members denotes: the members are stored one
    after the other with [set] (a key written twice keeps its last value),
    in an object that holds the key [""] with a Null value from the start. *)
Definition object_of (members : list (string * JSONValue)) : JSONValue :=
  fold_left set_member members (set JSONValue_null "" JSONValue_null).

(** The value that a list of elements denotes: the elements appended one
    after the other with [push_back] to a Null value, so that no element
    leaves Null, not an Array without elements. *)
Definition array_of (elements : list JSONValue) : JSONValue :=
  fold_left push_back elements JSONValue_null.

(** [reads_value text v rest]: [text] starts with a value, after optional
    white space; the value denotes [v] and [rest] is the text behind it.
    [reads_members] and [reads_elements] read the members of an object and
    the elements of an array up to the closing bracket. They may also end
    with the text where a member or an element would start, at the very
    beginning or after a comma: the program accepts a literal that is cut
    off there. *)
Inductive reads_value : string -> JSONValue -> string -> Prop :=
  | value_null (ws rest : string) :
      all_space ws = true ->
      reads_value (ws ++ "null" ++ rest) JSONValue_null rest
  | value_true (ws rest : string) :
      all_space ws = true ->
      reads_value (ws ++ "true" ++ rest) (JSONValue_bool true) rest
  | value_false (ws rest : string) :
      all_space ws = true ->
      reads_value (ws ++ "false" ++ rest) (JSONValue_bool false) rest
  | value_string (ws raw s rest : string) :
      all_space ws = true ->
      string_body raw s ->
      reads_value (ws ++ String dquote (raw ++ String dquote rest))
        (JSONValue_string s) rest
  | value_number (ws : string) (l : number_lexeme) (rest : string)
      (v : JSONValue) :
      all_space ws = true ->
      lexeme_well_formed l = true ->
      lex_minus l = true \/ lex_int l <> "" ->
      lexeme_stops l rest = true ->
      lexeme_value l = Some v ->
      reads_value (ws ++ lexeme_text l ++ rest) v rest
  | value_empty_object (ws ws' rest : string) :
      all_space ws = true -> all_space ws' = true ->
      reads_value (ws ++ String "{" (ws' ++ String "}" rest))
        (object_of []) rest
  | value_object (ws ws' text : string)
      (members : list (string * JSONValue)) (rest : string) :
      all_space ws = true -> all_space ws' = true ->
      reads_members text members rest ->
      reads_value (ws ++ String "{" (ws' ++ text)) (object_of members) rest
  | value_empty_array (ws ws' rest : string) :
      all_space ws = true -> all_space ws' = true ->
      reads_value (ws ++ String "[" (ws' ++ String "]" rest))
        (array_of []) rest
  | value_array (ws ws' text : string) (elements : list JSONValue)
      (rest : string) :
      all_space ws = true -> all_space ws' = true ->
      reads_elements text elements rest ->
      reads_value (ws ++ String "[" (ws' ++ text)) (array_of elements) rest

with reads_members
  : string -> list (string * JSONValue) -> string -> Prop :=
  | members_cut_off : reads_members "" [] ""
  | members_last (ws raw key ws' text : string) (value : JSONValue)
      (ws'' rest : string) :
      all_space ws = true -> string_body raw key ->
      all_space ws' = true ->
      reads_value text value (ws'' ++ String "}" rest) ->
      all_space ws'' = true ->
      reads_members
        (ws ++ String dquote (raw ++ String dquote (ws' ++ String ":" text)))
        [(key, value)] rest
  | members_more (ws raw key ws' text : string) (value : JSONValue)
      (ws'' text' : string) (members : list (string * JSONValue))
      (rest : string) :
      all_space ws = true -> string_body raw key ->
      all_space ws' = true ->
      reads_value text value (ws'' ++ String "," text') ->
      all_space ws'' = true ->
      reads_members text' members rest ->
      reads_members
        (ws ++ String dquote (raw ++ String dquote (ws' ++ String ":" text)))
        ((key, value) :: members) rest

with reads_elements : string -> list JSONValue -> string -> Prop :=
  | elements_cut_off : reads_elements "" [] ""
  | elements_last (text : string) (value : JSONValue) (ws rest : string) :
      reads_value text value (ws ++ String "]" rest) ->
      all_space ws = true ->
      reads_elements text [value] rest
  | elements_more (text : string) (value : JSONValue) (ws text' : string)
      (elements : list JSONValue) (rest : string) :
      reads_value text value (ws ++ String "," text') ->
      all_space ws = true ->
      reads_elements text' elements rest ->
      reads_elements text (value :: elements) rest.


(** [object_literal text members rest]: [text] starts, after optional
    white space, with an object literal that writes the members [members],
    in this order, and [rest] is the text behind it. This is the reading
    of the grammar for a text whose first token is an opening brace. *)
Inductive object_literal
  : string -> list (string * JSONValue) -> string -> Prop :=
  | literal_without_members (ws ws' rest : string) :
      all_space ws = true -> all_space ws' = true ->
      object_literal (ws ++ String "{" (ws' ++ String "}" rest)) [] rest
  | literal_with_members (ws ws' text : string)
      (members : list (string * JSONValue)) (rest : string) :
      all_space ws = true -> all_space ws' = true ->
      reads_members text members rest ->
      object_literal (ws ++ String "{" (ws' ++ text)) members rest.

(** The value of the member that is written last under the key [k]. *)
Definition last_written (k : string) (members : list (string * JSONValue))
  : option JSONValue :=
  map_find k (rev members).

(** [skip_whitespace] stops at the first character that is no white
    space, or at the end of the text. *)
Definition no_space_ahead (text : string) : Prop :=
  match text with
  | EmptyString => True
  | String c _ => isspace c = false
  end.

(** The first character of a text is no digit. *)
Definition no_digit_ahead (text : string) : bool :=
  match text with
  | EmptyString => true
  | String c _ => negb (isdigit c)
  end.

(** What the parser does with a text of the grammar, wherever the text
    stands: it returns the value and leaves the cursor behind the text. *)
Definition parsed_as_value (text : string) (v : JSONValue) (rest : string)
  : Prop :=
  forall content pos fuel,
    drop pos content = text ->
    parse_value fuel content pos <> OutOfFuel ->
    exists pos',
      parse_value fuel content pos = Ok v pos' /\ drop pos' content = rest.

Definition parsed_as_members (text : string)
  (members : list (string * JSONValue)) (rest : string) : Prop :=
  forall content pos fuel obj,
    drop pos content = text ->
    parse_object_loop fuel content pos obj <> OutOfFuel ->
    exists pos',
      parse_object_loop fuel content pos obj
      = Ok (fold_left set_member members obj) pos'
      /\ drop pos' content = rest.

Definition parsed_as_elements (text : string) (elements : list JSONValue)
  (rest : string) : Prop :=
  forall content pos fuel arr,
    drop pos content = text ->
    parse_array_loop fuel content pos arr <> OutOfFuel ->
    exists pos',
      parse_array_loop fuel content pos arr
      = Ok (fold_left push_back elements arr) pos'
      /\ drop pos' content = rest.

(* ================================================================= *)
(** * Properties *)

(** ** Value accessors *)

(** C7: [as_bool] by kind. A String is false exactly when it is empty,
    "false" or "0"; an Integer or a Number is true exactly when the stored
    number is not zero; a Boolean is itself; Null, Array and Object are
    false. *)
Theorem as_bool_by_kind (v : JSONValue) :
  match get_type v with
  | TString =>
      as_bool v = false <->
      (string_value_ v = "" \/ string_value_ v = "false"
       \/ string_value_ v = "0")
  | TInteger => as_bool v = true <-> int_value_ v <> 0%Z
  | TNumber =>
      as_bool v = true <-> (forall s, double_value_ v <> S754_zero s)
  | TBoolean => as_bool v = bool_value_ v
  | TNull | TArray | TObject => as_bool v = false
  end.
Proof.
  unfold as_bool, get_type.
  destruct (type_ v); try reflexivity.
  - rewrite !andb_false_iff, !negb_false_iff, !String.eqb_eq. tauto.
  - destruct (double_value_ v); simpl; split; try congruence;
      intros H; try discriminate; exfalso; eapply H; reflexivity.
  - rewrite negb_true_iff, Z.eqb_neq. tauto.
Qed.

(** C8: the child accessors never fail. [get] on a value that is not an
    Object and [at] on a value that is not an Array, or past its end, give
    the Null value [JSONValue()]; [size] is the number of children of an
    Array or an Object and 0 for every other kind. *)
Theorem child_accessors_total (v : JSONValue) :
  (forall key, get_type v <> TObject ->
     get v key = JSONValue_null /\ get_type (get v key) = TNull)
  /\ (forall index,
        get_type v <> TArray \/ List.length (array_values_ v) <= index ->
        at_ v index = JSONValue_null /\ get_type (at_ v index) = TNull)
  /\ size v =
     match get_type v with
     | TArray => List.length (array_values_ v)
     | TObject => List.length (object_values_ v)
     | _ => 0
     end.
Proof.
  unfold get, at_, size, get_type. repeat split.
  - destruct (type_ v); simpl; congruence.
  - destruct (type_ v); simpl; congruence.
  - destruct H as [H | H].
    + destruct (type_ v); simpl; congruence.
    + apply Nat.leb_le in H. rewrite H, orb_true_r. reflexivity.
  - destruct H as [H | H].
    + destruct (type_ v); simpl; congruence.
    + apply Nat.leb_le in H. rewrite H, orb_true_r. reflexivity.
  - destruct (type_ v); reflexivity.
Qed.

Lemma child_accessors_total_witness :
  get (JSONValue_int 3) "k" = JSONValue_null
  /\ at_ (push_back JSONValue_null (JSONValue_int 3)) 1 = JSONValue_null
  /\ size (push_back JSONValue_null (JSONValue_int 3)) = 1.
Proof.
  destruct (child_accessors_total (JSONValue_int 3)) as [Hget _].
  destruct (child_accessors_total
              (push_back JSONValue_null (JSONValue_int 3)))
    as [_ [Hat Hsize]].
  split; [| split].
  - apply Hget. simpl. discriminate.
  - apply Hat. right. simpl. lia.
  - exact Hsize.
Defined.

(** ** Typed getters *)

(** C6: a typed getter ([get_int], [get_string], [get_bool]) returns the
    caller's default whenever the path resolves to a Null-typed value, be
    the key absent or explicitly null;
    after parsing the text [{"a":null}], [get_int("a", 7)] is 7. *)
Theorem get_int_null_default :
  (forall r path,
      get_type (get_value r path) = TNull ->
      (forall default_value, get_int r path default_value = default_value)
      /\ (forall default_value,
            get_string r path default_value = default_value)
      /\ (forall default_value,
            get_bool r path default_value = default_value))
  /\ (exists r,
        parse ("{" ++ quoted "a" ++ ":null}") = Some r
        /\ success r = true
        /\ has_key (root r) "a" = true
        /\ get_int r "a" 7%Z = 7%Z)
  /\ (exists r,
        parse ("{" ++ quoted "b" ++ ":1}") = Some r
        /\ success r = true
        /\ has_key (root r) "a" = false
        /\ get_int r "a" 7%Z = 7%Z).
Proof.
  split; [| split].
  - intros r path H. unfold get_int, get_string, get_bool. rewrite H.
    repeat split.
  - eexists. split; [vm_compute; reflexivity |].
    repeat split.
  - eexists. split; [vm_compute; reflexivity |].
    repeat split.
Qed.

Lemma get_int_null_default_witness :
  get_int (result_of JSONValue_null) "a.b" 7%Z = 7%Z.
Proof.
  apply (proj1 get_int_null_default (result_of JSONValue_null) "a.b").
  reflexivity.
Defined.

(** ** Path accessor *)

Lemma getline_rest_length (c : ascii) (s : string) :
  String.length (snd (getline (String c s))) <= String.length s.
Proof.
  revert c. induction s as [| c' s IH]; intros c; simpl.
  - destruct (c =? ".")%char; simpl; lia.
  - destruct (c =? ".")%char; simpl; [lia |].
    specialize (IH c'). simpl in IH.
    destruct (c' =? ".")%char; simpl in *; [lia |].
    destruct (getline s) as [component rest]. simpl in *. lia.
Qed.

Lemma getlines_fuel (f1 f2 : nat) (s : string) :
  String.length s <= f1 -> String.length s <= f2 ->
  getlines f1 s = getlines f2 s.
Proof.
  revert f2 s. induction f1 as [| f1 IH]; intros f2 s H1 H2.
  - destruct s; simpl in *; [| lia]. destruct f2; reflexivity.
  - destruct s as [| c s]; [destruct f2; reflexivity |].
    destruct f2 as [| f2]; [simpl in H2; lia |].
    cbn [getlines].
    pose proof (getline_rest_length c s) as Hlen.
    destruct (getline (String c s)) as [component rest]. simpl in *.
    f_equal. apply IH; lia.
Qed.

Lemma getline_segment (seg rest : string) :
  contains_char "." seg = false ->
  getline (seg ++ String "." rest) = (seg, rest).
Proof.
  induction seg as [| c seg IH]; simpl; intros H; [reflexivity |].
  apply orb_false_iff in H. destruct H as [Hc Hseg].
  rewrite Hc, (IH Hseg). reflexivity.
Qed.

Lemma getline_last_segment (seg : string) :
  contains_char "." seg = false -> getline seg = (seg, "").
Proof.
  induction seg as [| c seg IH]; simpl; intros H; [reflexivity |].
  apply orb_false_iff in H. destruct H as [Hc Hseg].
  rewrite Hc, (IH Hseg). reflexivity.
Qed.

Lemma append_length (a b : string) :
  String.length (a ++ b) = String.length a + String.length b.
Proof.
  induction a as [| c a IH]; simpl; [reflexivity | now rewrite IH].
Qed.

Lemma getlines_segment (seg rest : string) :
  contains_char "." seg = false ->
  getlines (String.length (seg ++ String "." rest)) (seg ++ String "." rest)
  = seg :: getlines (String.length rest) rest.
Proof.
  intros H.
  assert (Hlen : String.length (seg ++ String "." rest)
                 = S (String.length seg + String.length rest)).
  { rewrite append_length. simpl. lia. }
  rewrite Hlen. cbn [getlines].
  rewrite (getline_segment seg rest H).
  destruct (seg ++ String "." rest) eqn:E.
  - destruct seg; discriminate.
  - f_equal. apply getlines_fuel; lia.
Qed.

(** C3, the claim fails: a leading dot and a doubled dot are not dropped.
    Each makes an empty segment that is looked up as the key [""], so the
    path resolves to Null where the path without the empty segment finds
    the value. *)
Lemma get_value_empty_segment_not_ignored :
  let inner := set JSONValue_null "b" (JSONValue_int 2) in
  let r := result_of (set (set JSONValue_null "a" (JSONValue_int 1))
                        "o" inner) in
  get_value r "a" = JSONValue_int 1
  /\ get_value r ".a" = JSONValue_null
  /\ get_value r "o.b" = JSONValue_int 2
  /\ get_value r "o..b" = JSONValue_null
  /\ get_value r ".a" <> get_value r "a"
  /\ get_value r "o..b" <> get_value r "o.b".
Proof.
  vm_compute. repeat split; discriminate.
Qed.

(** One step of the walk: the first segment of a path is looked up in the
    root, and the rest of the path is resolved from the value found. *)
Lemma get_value_step (r : JSONResult) (seg rest : string) :
  contains_char "." seg = false ->
  get_value r (seg ++ "." ++ rest) =
  (if JSONType_eqb (get_type (root r)) TObject
   then if JSONType_eqb (get_type (get (root r) seg)) TNull
        then JSONValue_null
        else get_value (result_of (get (root r) seg)) rest
   else JSONValue_null).
Proof.
  intros Hseg. unfold get_value at 1.
  destruct (seg ++ "." ++ rest =? "")%string eqn:E.
  - apply String.eqb_eq in E. destruct seg; discriminate.
  - change (seg ++ "." ++ rest) with (seg ++ String "." rest).
    rewrite (getlines_segment seg rest Hseg). cbn [get_value_loop].
    destruct (JSONType_eqb (get_type (root r)) TObject); [| reflexivity].
    cbn [negb].
    destruct (JSONType_eqb (get_type (get (root r) seg)) TNull);
      [reflexivity |].
    unfold get_value. cbn [root result_of].
    destruct (rest =? "")%string eqn:E'; [| reflexivity].
    apply String.eqb_eq in E'. subst rest. reflexivity.
Qed.

(** A dot at the end of a path adds no segment. *)
Lemma get_value_trailing_dot (r : JSONResult) (seg : string) :
  contains_char "." seg = false ->
  seg <> "" ->
  get_value r (seg ++ ".") = get_value r seg.
Proof.
  intros Hseg Hne.
  pose proof (get_value_step r seg "" Hseg) as Hstep.
  change (seg ++ "." ++ "") with (seg ++ ".") in Hstep.
  rewrite Hstep.
  unfold get_value at 2.
  destruct (seg =? "")%string eqn:E;
    [apply String.eqb_eq in E; contradiction |].
  destruct seg as [| c seg]; [contradiction |].
  cbn [String.length getlines].
  rewrite (getline_last_segment _ Hseg).
  destruct (String.length seg); cbn [getlines get_value_loop];
    destruct (JSONType_eqb (get_type (root r)) TObject); cbn [negb];
    try reflexivity;
    destruct (JSONType_eqb (get_type (get (root r) (String c seg))) TNull);
    reflexivity.
Qed.

(** ** The segments of a path *)

Lemma path_segments_not_nil (path : string) : path_segments path <> [].
Proof.
  destruct path as [| c path]; cbn [path_segments]; [discriminate |].
  destruct (c =? ".")%char; [discriminate |].
  destruct (path_segments path); discriminate.
Qed.

Lemma join_path_segments (path : string) :
  join_segments (path_segments path) = path.
Proof.
  induction path as [| c path IH]; [reflexivity |].
  cbn [path_segments]. destruct (c =? ".")%char eqn:E.
  - apply Ascii.eqb_eq in E. subst c.
    pose proof (path_segments_not_nil path) as Hne.
    cbn [join_segments]. destruct (path_segments path); [congruence |].
    now rewrite IH.
  - destruct (path_segments path) as [| segment segments] eqn:Es;
      [elim (path_segments_not_nil path); exact Es |].
    cbn [join_segments] in *.
    destruct segments; cbn [String.append] in *; now rewrite <- IH.
Qed.

Lemma path_segments_dot_free (path : string) :
  Forall (fun segment => contains_char "." segment = false)
    (path_segments path).
Proof.
  induction path as [| c path IH]; [repeat constructor |].
  cbn [path_segments]. destruct (c =? ".")%char eqn:E.
  - constructor; [reflexivity | exact IH].
  - destruct (path_segments path) as [| segment segments];
      [repeat constructor; cbn; now rewrite E |].
    inversion IH; subst. constructor; [| assumption].
    cbn [contains_char]. now rewrite E.
Qed.

Lemma path_segments_join (segments : list string) :
  segments <> [] ->
  Forall (fun segment => contains_char "." segment = false) segments ->
  path_segments (join_segments segments) = segments.
Proof.
  induction segments as [| segment segments IH]; [congruence |].
  intros _ Hall. inversion Hall as [| ? ? Hseg Hrest]; subst.
  assert (Hone : forall s,
             contains_char "." s = false -> path_segments s = [s]).
  { clear. induction s as [| c s IHs]; [reflexivity |].
    cbn [contains_char path_segments]. intros H.
    apply orb_false_iff in H. destruct H as [Hc Hs].
    rewrite Hc, (IHs Hs). reflexivity. }
  destruct segments as [| segment' segments].
  - cbn [join_segments]. apply Hone. exact Hseg.
  - change (join_segments (segment :: segment' :: segments))
      with (segment ++ String "." (join_segments (segment' :: segments))).
    specialize (IH ltac:(discriminate) Hrest).
    set (tail := join_segments (segment' :: segments)) in *.
    clearbody tail. revert Hseg. clear Hall Hone.
    induction segment as [| c segment IHs]; intros Hseg.
    + cbn [String.append path_segments Ascii.eqb Bool.eqb]. now rewrite IH.
    + cbn [contains_char] in Hseg.
      apply orb_false_iff in Hseg. destruct Hseg as [Hc Hs].
      cbn [String.append path_segments]. rewrite Hc, (IHs Hs).
      reflexivity.
Qed.

(** [std::getline] takes the first segment off a path. *)
Lemma path_segments_getline (path : string) :
  path_segments path
  = fst (getline path)
    :: (if contains_char "." path then path_segments (snd (getline path))
        else []).
Proof.
  induction path as [| c path IH]; [reflexivity |].
  cbn [path_segments getline contains_char].
  destruct (c =? ".")%char; [reflexivity |].
  rewrite IH. cbn [orb].
  destruct (getline path) as [component rest]. reflexivity.
Qed.

Lemma without_last_empty_cons (segment : string) (segments : list string) :
  segments <> [] ->
  without_last_empty (segment :: segments)
  = segment :: without_last_empty segments.
Proof. destruct segments; [congruence | reflexivity]. Qed.

Lemma getlines_segments (fuel : nat) :
  forall path,
    String.length path <= fuel ->
    getlines fuel path = looked_up_segments path.
Proof.
  unfold looked_up_segments.
  induction fuel as [| fuel IH]; intros path Hlen.
  - destruct path; [reflexivity | cbn in Hlen; lia].
  - destruct path as [| c path]; [reflexivity |].
    cbn [getlines].
    pose proof (getline_rest_length c path) as Hrest.
    rewrite (path_segments_getline (String c path)).
    destruct (contains_char "." (String c path)) eqn:Hdot.
    + destruct (getline (String c path)) as [component rest].
      cbn [fst snd] in *.
      rewrite without_last_empty_cons by apply path_segments_not_nil.
      f_equal. apply IH. cbn [String.length] in Hlen. lia.
    + rewrite (getline_last_segment _ Hdot). cbn [fst snd].
      cbn [without_last_empty String.eqb].
      destruct fuel; reflexivity.
Qed.

(** [get_value] walks the segments of the path, except an empty last
    one. *)
Lemma get_value_looked_up (r : JSONResult) (path : string) :
  get_value r path = get_value_loop (looked_up_segments path) (root r).
Proof.
  unfold get_value. destruct (path =? "")%string eqn:E.
  - apply String.eqb_eq in E. subst path. reflexivity.
  - now rewrite (getlines_segments _ path (le_n _)).
Qed.

Lemma path_segments_trailing_dot (path : string) :
  path_segments (path ++ ".") = (path_segments path ++ [""])%list.
Proof.
  induction path as [| c path IH]; [reflexivity |].
  cbn [String.append path_segments]. rewrite IH.
  destruct (c =? ".")%char; [reflexivity |].
  destruct (path_segments path) as [| segment segments] eqn:E;
    [elim (path_segments_not_nil path); exact E |].
  reflexivity.
Qed.

Lemma without_last_empty_snoc (segments : list string) :
  segments <> [] ->
  without_last_empty (segments ++ [""]) = segments.
Proof.
  induction segments as [| segment segments IH]; [congruence |].
  intros _. destruct segments as [| segment' segments]; [reflexivity |].
  change ((segment :: segment' :: segments) ++ [""])%list
    with (segment :: ((segment' :: segments) ++ [""]))%list.
  rewrite without_last_empty_cons by discriminate.
  now rewrite IH by discriminate.
Qed.

Lemma looked_up_trailing_dot (path : string) :
  looked_up_segments (path ++ ".") = path_segments path.
Proof.
  unfold looked_up_segments. rewrite path_segments_trailing_dot.
  apply without_last_empty_snoc. apply path_segments_not_nil.
Qed.

(** The last segment of a path is empty only for the empty path and for a
    path that ends with a dot. *)
Lemma looked_up_all (path : string) :
  path <> "" -> (forall prefix, path <> prefix ++ ".") ->
  looked_up_segments path = path_segments path.
Proof.
  unfold looked_up_segments.
  induction path as [| c path IH]; [congruence |].
  intros _ Hend. cbn [path_segments].
  destruct path as [| c' path].
  - destruct (c =? ".")%char eqn:E; [| reflexivity].
    apply Ascii.eqb_eq in E. subst c. elim (Hend ""). reflexivity.
  - assert (IH' : without_last_empty (path_segments (String c' path))
                  = path_segments (String c' path)).
    { apply IH; [discriminate |].
      intros prefix E. apply (Hend (String c prefix)).
      cbn [String.append]. now rewrite E. }
    destruct (c =? ".")%char.
    + rewrite without_last_empty_cons by apply path_segments_not_nil.
      now rewrite IH'.
    + destruct (path_segments (String c' path)) as [| segment segments];
        [reflexivity |].
      destruct segments as [| segment' segments]; [reflexivity |].
      assert (Hw : without_last_empty (segment' :: segments)
                   = segment' :: segments).
      { rewrite without_last_empty_cons in IH' by discriminate.
        congruence. }
      rewrite without_last_empty_cons by discriminate. now rewrite Hw.
Qed.

(** C3, amended: [get_value] splits the path at its dots and looks every
    segment up, in turn, as a key of the current Object, an empty segment
    (of a leading or a doubled dot, or of the path ["."]) as the key [""].
    Only an empty last segment is dropped: the empty path is the root, and
    one dot behind a non-empty path that does not end with a dot changes
    nothing. *)
Theorem get_value_segments :
  (forall path,
      join_segments (path_segments path) = path
      /\ path_segments path <> []
      /\ Forall (fun segment => contains_char "." segment = false)
           (path_segments path))
  /\ (forall segments,
        segments <> [] ->
        Forall (fun segment => contains_char "." segment = false)
          segments ->
        path_segments (join_segments segments) = segments)
  /\ (forall r path,
        get_value r path
        = get_value_loop (without_last_empty (path_segments path)) (root r))
  /\ (forall current,
        get_value_loop [] current = current
        /\ forall segment segments,
            get_value_loop (segment :: segments) current
            = if JSONType_eqb (get_type current) TObject
              then if JSONType_eqb (get_type (get current segment)) TNull
                   then JSONValue_null
                   else get_value_loop segments (get current segment)
              else JSONValue_null)
  /\ (forall r, get_value r "" = root r)
  /\ (forall r path,
        get_value r (path ++ ".")
        = get_value_loop (path_segments path) (root r))
  /\ (forall r path,
        path <> "" -> (forall prefix, path <> prefix ++ ".") ->
        get_value r (path ++ ".") = get_value r path)
  /\ (forall r segment rest,
        contains_char "." segment = false ->
        get_value r (segment ++ "." ++ rest)
        = if JSONType_eqb (get_type (root r)) TObject
          then if JSONType_eqb (get_type (get (root r) segment)) TNull
               then JSONValue_null
               else get_value (result_of (get (root r) segment)) rest
          else JSONValue_null).
Proof.
  split.
  { intros path. split; [apply join_path_segments |].
    split; [apply path_segments_not_nil | apply path_segments_dot_free]. }
  split; [exact path_segments_join |].
  split; [exact get_value_looked_up |].
  split.
  { intros current. split; [reflexivity |].
    intros segment segments. cbn [get_value_loop].
    destruct (JSONType_eqb (get_type current) TObject); reflexivity. }
  split; [reflexivity |].
  split.
  { intros r path.
    now rewrite get_value_looked_up, looked_up_trailing_dot. }
  split.
  { intros r path Hne Hend.
    rewrite !get_value_looked_up, looked_up_trailing_dot.
    now rewrite (looked_up_all path Hne Hend). }
  intros r segment rest Hseg. apply get_value_step. exact Hseg.
Qed.

Lemma get_value_segments_witness :
  let r := result_of
             (set JSONValue_null "a"
                (set JSONValue_null "b" (JSONValue_int 1))) in
  get_value r "a.b." = get_value r "a.b"
  /\ path_segments (join_segments ["a"; ""; "b"]) = ["a"; ""; "b"].
Proof.
  intros r. split.
  - refine (proj1 (proj2 (proj2 (proj2 (proj2 (proj2 (proj2
              get_value_segments)))))) r "a.b" _ _).
    + discriminate.
    + intros prefix E.
      destruct prefix as [| c0 [| c1 [| c2 [| c3 prefix]]]];
        discriminate E.
  - apply (proj1 (proj2 get_value_segments)); [discriminate |].
    repeat constructor.
Defined.

(** ** Cursor lemmas *)

Lemma char_at_past_end (content : string) (pos : nat) :
  String.length content <= pos -> char_at content pos = Ascii.zero.
Proof.
  unfold char_at. revert pos.
  induction content as [| c content IH]; intros pos H; simpl.
  - reflexivity.
  - destruct pos as [| pos]; simpl in *; [lia |]. apply IH. lia.
Qed.

Lemma skip_whitespace_loop_spec (n : nat) (content : string) (pos : nat) :
  String.length content - pos <= n ->
  let p := skip_whitespace_loop n content pos in
  pos <= p
  /\ (pos <= String.length content -> p <= String.length content)
  /\ (p <? String.length content) && isspace (char_at content p) = false.
Proof.
  revert pos. induction n as [| n IH]; intros pos Hn; cbn [skip_whitespace_loop].
  - cbv zeta. repeat split; try lia.
    replace (pos <? String.length content) with false; [reflexivity |].
    symmetry. apply Nat.ltb_ge. lia.
  - destruct ((pos <? String.length content)
              && isspace (char_at content pos)) eqn:E.
    + apply andb_true_iff in E. destruct E as [Hlt _].
      apply Nat.ltb_lt in Hlt.
      destruct (IH (S pos)) as [H1 [H2 H3]]; [lia |].
      cbv zeta. repeat split; [lia | intros; apply H2; lia | exact H3].
    + cbv zeta. repeat split; [lia | tauto | exact E].
Qed.

Lemma skip_whitespace_spec (content : string) (pos : nat) :
  let p := skip_whitespace content pos in
  pos <= p
  /\ (pos <= String.length content -> p <= String.length content)
  /\ (p <? String.length content) && isspace (char_at content p) = false.
Proof.
  apply skip_whitespace_loop_spec. lia.
Qed.

Lemma skip_whitespace_stay (content : string) (pos : nat) :
  (pos <? String.length content) && isspace (char_at content pos) = false ->
  skip_whitespace content pos = pos.
Proof.
  intros H. unfold skip_whitespace.
  destruct (String.length content - pos); cbn [skip_whitespace_loop];
    [reflexivity | now rewrite H].
Qed.

Lemma skip_whitespace_idem (content : string) (pos : nat) :
  skip_whitespace content (skip_whitespace content pos)
  = skip_whitespace content pos.
Proof.
  apply skip_whitespace_stay. apply skip_whitespace_spec.
Qed.

Lemma parse_fuel_positive (content : string) :
  exists fuel, parse_fuel content = S fuel.
Proof.
  unfold parse_fuel. exists (3 * String.length content + 2). lia.
Qed.

(** ** Numbers *)

(** A value whose text starts with a digit or a minus sign is read by
    [parse_number]. *)
Lemma parse_value_number (fuel : nat) (content : string) (pos : nat) :
  let c := char_at content (skip_whitespace content pos) in
  isdigit c || (c =? "-")%char = true ->
  parse_value (S fuel) content pos
  = parse_number content (skip_whitespace content pos).
Proof.
  cbv zeta. intros Hc. cbn [parse_value].
  set (p := skip_whitespace content pos) in *.
  destruct (String.length content <=? p) eqn:Hlen.
  - apply Nat.leb_le in Hlen.
    rewrite (char_at_past_end _ _ Hlen) in Hc. discriminate.
  - destruct (char_at content p) as [b0 b1 b2 b3 b4 b5 b6 b7].
    destruct b0, b1, b2, b3, b4, b5, b6, b7; try discriminate Hc;
      reflexivity.
Qed.

(** ** Termination of the parser *)

Lemma char_at_inside (content : string) (pos : nat) :
  char_at content pos <> Ascii.zero -> pos < String.length content.
Proof.
  intros H. destruct (Nat.lt_ge_cases pos (String.length content)) as [Hlt | Hge];
    [exact Hlt |].
  elim H. apply char_at_past_end. exact Hge.
Qed.

Lemma substring_length_le (s : string) (pos n : nat) :
  String.length (String.substring pos n s) <= String.length s - pos.
Proof.
  revert pos n. induction s as [| c s IH]; intros pos n.
  - destruct pos, n; simpl; lia.
  - destruct pos as [| pos].
    + destruct n as [| n]; simpl; [lia |].
      specialize (IH 0 n). lia.
    + simpl. apply IH.
Qed.

Lemma substr_literal_inside (content lit : string) (pos n : nat) :
  (substr content pos n =? lit)%string = true ->
  pos + String.length lit <= String.length content \/ lit = "".
Proof.
  intros H. apply String.eqb_eq in H.
  pose proof (substring_length_le content pos n) as Hlen.
  unfold substr in H. rewrite H in Hlen.
  destruct lit; [right; reflexivity | left; simpl in *; lia].
Qed.

Lemma skip_digits_loop_spec (n : nat) (content : string) (pos : nat) :
  let p := skip_digits_loop n content pos in
  pos <= p /\ (pos <= String.length content -> p <= String.length content).
Proof.
  revert pos. induction n as [| n IH]; intros pos; cbn [skip_digits_loop].
  - cbv zeta. split; [lia | tauto].
  - destruct ((pos <? String.length content)
              && isdigit (char_at content pos)) eqn:E.
    + apply andb_true_iff in E. destruct E as [Hlt _].
      apply Nat.ltb_lt in Hlt.
      destruct (IH (S pos)) as [H1 H2].
      cbv zeta. split; [lia | intros; apply H2; lia].
    + cbv zeta. split; [lia | tauto].
Qed.

Lemma skip_digits_spec (content : string) (pos : nat) :
  pos <= skip_digits content pos
  /\ (pos <= String.length content ->
      skip_digits content pos <= String.length content).
Proof.
  apply skip_digits_loop_spec.
Qed.

Lemma scan_number_bounds (content : string) (pos : nat) :
  pos <= String.length content ->
  pos <= scan_number content pos
  /\ scan_number content pos <= String.length content.
Proof.
  intros Hpos. unfold scan_number.
  set (len := String.length content) in *.
  set (p1 := if (char_at content pos =? "-")%char then S pos else pos).
  assert (H1 : pos <= p1 /\ p1 <= len).
  { unfold p1. destruct (char_at content pos =? "-")%char eqn:E; [| lia].
    apply Ascii.eqb_eq in E.
    assert (pos < len); [| lia].
    apply char_at_inside. rewrite E. discriminate. }
  pose proof (skip_digits_spec content p1) as [H2 H2'].
  set (p2 := skip_digits content p1) in *.
  set (p3 := if (p2 <? len) && (char_at content p2 =? ".")%char
             then skip_digits content (S p2) else p2).
  assert (H3 : p2 <= p3 /\ p3 <= len).
  { unfold p3.
    destruct ((p2 <? len) && (char_at content p2 =? ".")%char) eqn:E;
      [| fold len in H2'; lia].
    apply andb_true_iff in E. destruct E as [Hlt _].
    apply Nat.ltb_lt in Hlt.
    pose proof (skip_digits_spec content (S p2)) as [H H']. fold len in H'.
    lia. }
  destruct ((p3 <? len)
            && ((char_at content p3 =? "e")
                || (char_at content p3 =? "E"))%char) eqn:E; [| lia].
  apply andb_true_iff in E. destruct E as [Hlt _]. apply Nat.ltb_lt in Hlt.
  set (p4 := if (S p3 <? len)
                && ((char_at content (S p3) =? "+")
                    || (char_at content (S p3) =? "-"))%char
             then S (S p3) else S p3).
  assert (H4 : S p3 <= p4 /\ p4 <= len).
  { unfold p4.
    destruct ((S p3 <? len)
              && ((char_at content (S p3) =? "+")
                  || (char_at content (S p3) =? "-"))%char) eqn:E'; [| lia].
    apply andb_true_iff in E'. destruct E' as [Hlt' _].
    apply Nat.ltb_lt in Hlt'. lia. }
  pose proof (skip_digits_spec content p4) as [H H']. fold len in H'. lia.
Qed.

Lemma parse_number_returns (content : string) (pos : nat) :
  pos <= String.length content ->
  returns_from (String.length content) pos (parse_number content pos).
Proof.
  intros Hpos. pose proof (scan_number_bounds content pos Hpos) as Hb.
  unfold parse_number.
  destruct (is_floating_lexeme _).
  - destruct (stod _); simpl; [exact Hb | (simpl; discriminate)].
  - destruct (stoi _); simpl; [exact Hb | (simpl; discriminate)].
Qed.

Lemma parse_string_loop_returns (n : nat) (content : string) (pos : nat)
  (res : string) :
  match parse_string_loop n content pos res with
  | Ok _ pos' => pos < pos' /\ pos' <= String.length content
  | Throw what => c_str what <> ""
  | OutOfFuel => False
  end.
Proof.
  revert pos res. induction n as [| n IH]; intros pos res;
    cbn [parse_string_loop]; [(simpl; discriminate) |].
  destruct (pos <? String.length content) eqn:Hlt; [| (simpl; discriminate)].
  apply Nat.ltb_lt in Hlt.
  destruct (char_at content pos =? dquote)%char; [simpl; lia |].
  destruct (char_at content pos =? backslash)%char.
  - destruct (String.length content <=? S pos); [(simpl; discriminate) |].
    destruct (unescape (char_at content (S pos))); [| (simpl; discriminate)].
    specialize (IH (S (S pos)) (res ++ string_of_char a)).
    destruct (parse_string_loop n content (S (S pos)) _); simpl in *;
      [lia | exact IH | exact IH].
  - specialize (IH (S pos) (res ++ string_of_char (char_at content pos))).
    destruct (parse_string_loop n content (S pos) _); simpl in *;
      [lia | exact IH | exact IH].
Qed.

Lemma parse_string_returns (content : string) (pos : nat) :
  match parse_string content pos with
  | Ok _ pos' => pos < pos' /\ pos' <= String.length content
  | Throw what => c_str what <> ""
  | OutOfFuel => False
  end.
Proof.
  unfold parse_string.
  destruct (negb (char_at content pos =? dquote)%char); [(simpl; discriminate) |].
  pose proof (parse_string_loop_returns
                (String.length content - S pos) content (S pos) "") as H.
  destruct (parse_string_loop _ content (S pos) ""); simpl in *;
    [lia | exact H | exact H].
Qed.

Lemma returns_from_weaken {A : Type} (len pos pos' : nat) (r : result A) :
  pos <= pos' -> returns_from len pos' r -> returns_from len pos r.
Proof.
  intros H. destruct r; simpl; [lia | tauto | tauto].
Qed.

Ltac skip_ws_bounds content pos :=
  let H1 := fresh "Hws" in
  let H2 := fresh "Hws" in
  let H3 := fresh "Hws" in
  pose proof (skip_whitespace_spec content pos) as [H1 [H2 H3]];
  cbv zeta in H1, H2, H3.

(** With three units of fuel for every character that is left, and two
    more, no parsing function runs out of fuel. *)
Lemma parse_fuel_enough (fuel : nat) :
  forall content pos,
    pos <= String.length content ->
    (3 * (String.length content - pos) + 1 <= fuel ->
     returns_from (String.length content) pos
       (parse_value fuel content pos))
    /\ (pos < String.length content ->
        3 * (String.length content - pos) <= fuel ->
        returns_from (String.length content) pos
          (parse_object fuel content pos))
    /\ (forall obj,
          3 * (String.length content - pos) + 2 <= fuel ->
          returns_from (String.length content) pos
            (parse_object_loop fuel content pos obj))
    /\ (pos < String.length content ->
        3 * (String.length content - pos) <= fuel ->
        returns_from (String.length content) pos
          (parse_array fuel content pos))
    /\ (forall arr,
          3 * (String.length content - pos) + 2 <= fuel ->
          returns_from (String.length content) pos
            (parse_array_loop fuel content pos arr)).
Proof.
  induction fuel as [| fuel IH]; intros content pos Hpos;
    set (len := String.length content) in *.
  - repeat split; intros; lia.
  - split; [| split; [| split; [| split]]].
    + (* parse_value *)
      intros Hfuel. cbn [parse_value]. fold len.
      skip_ws_bounds content pos.
      set (p := skip_whitespace content pos) in *. fold len in Hws0.
      destruct (len <=? p) eqn:Hend; [(simpl; discriminate) |].
      apply Nat.leb_gt in Hend.
      destruct (IH content p ltac:(fold len; lia))
        as [_ [Hobj [_ [Harr _]]]]. fold len in Hobj, Harr.
      destruct (char_at content p =? "{")%char.
      { apply (returns_from_weaken len pos p); [lia |].
        apply Hobj; lia. }
      destruct (char_at content p =? "[")%char.
      { apply (returns_from_weaken len pos p); [lia |].
        apply Harr; lia. }
      destruct (char_at content p =? dquote)%char.
      { pose proof (parse_string_returns content p) as Hs. fold len in Hs.
        destruct (parse_string content p); simpl in *;
          [lia | exact Hs | exact Hs]. }
      destruct ((char_at content p =? "t") || (char_at content p =? "f"))%char.
      { destruct (substr content p 4 =? "true")%string eqn:Et.
        - apply substr_literal_inside in Et. fold len in Et.
          destruct Et as [Et | Et]; [simpl in *; lia | (simpl; discriminate)].
        - destruct (substr content p 5 =? "false")%string eqn:Ef;
            [| (simpl; discriminate)].
          apply substr_literal_inside in Ef. fold len in Ef.
          destruct Ef as [Ef | Ef]; [simpl in *; lia | (simpl; discriminate)]. }
      destruct (char_at content p =? "n")%char.
      { destruct (substr content p 4 =? "null")%string eqn:En;
          [| (simpl; discriminate)].
        apply substr_literal_inside in En. fold len in En.
        destruct En as [En | En]; [simpl in *; lia | (simpl; discriminate)]. }
      destruct (isdigit (char_at content p) || (char_at content p =? "-")%char).
      { apply (returns_from_weaken len pos p); [lia |].
        apply parse_number_returns. fold len. lia. }
      (simpl; discriminate).
    + (* parse_object *)
      intros Hlt Hfuel. cbn [parse_object]. fold len.
      skip_ws_bounds content (S pos).
      set (p := skip_whitespace content (S pos)) in *. fold len in Hws0.
      destruct ((p <? len) && (char_at content p =? "}")%char) eqn:E.
      { apply andb_true_iff in E. destruct E as [E _].
        apply Nat.ltb_lt in E. simpl. lia. }
      destruct (IH content p ltac:(fold len; lia)) as [_ [_ [Hloop _]]].
      fold len in Hloop.
      apply (returns_from_weaken len pos p); [lia |].
      apply Hloop. lia.
    + (* parse_object_loop *)
      intros obj Hfuel. cbn [parse_object_loop]. fold len.
      destruct (pos <? len) eqn:Hlt; [| simpl; lia].
      apply Nat.ltb_lt in Hlt.
      skip_ws_bounds content pos.
      set (p := skip_whitespace content pos) in *. fold len in Hws0.
      destruct (negb (char_at content p =? dquote)%char); [(simpl; discriminate) |].
      pose proof (parse_string_returns content p) as Hs. fold len in Hs.
      destruct (parse_string content p) as [key p1 | what |];
        cbn [bind]; [| exact Hs | exact Hs].
      skip_ws_bounds content p1.
      set (p2 := skip_whitespace content p1) in *. fold len in Hws3.
      destruct ((len <=? p2) || negb (char_at content p2 =? ":")%char) eqn:E;
        [(simpl; discriminate) |].
      apply orb_false_iff in E. destruct E as [E _]. apply Nat.leb_gt in E.
      skip_ws_bounds content (S p2).
      set (p3 := skip_whitespace content (S p2)) in *. fold len in Hws6.
      destruct (IH content p3 ltac:(fold len; lia)) as [Hval _].
      fold len in Hval. specialize (Hval ltac:(lia)).
      destruct (parse_value fuel content p3) as [value p4 | what |];
        cbn [bind]; simpl in Hval; [| exact Hval | exact Hval].
      skip_ws_bounds content p4.
      set (p5 := skip_whitespace content p4) in *. fold len in Hws9.
      destruct (len <=? p5) eqn:E5; [(simpl; discriminate) |].
      apply Nat.leb_gt in E5.
      destruct (char_at content p5 =? "}")%char; [simpl; lia |].
      destruct (char_at content p5 =? ",")%char; [| (simpl; discriminate)].
      destruct (IH content (S p5) ltac:(fold len; lia)) as [_ [_ [Hloop _]]].
      fold len in Hloop.
      apply (returns_from_weaken len pos (S p5)); [lia |].
      apply Hloop. lia.
    + (* parse_array *)
      intros Hlt Hfuel. cbn [parse_array]. fold len.
      skip_ws_bounds content (S pos).
      set (p := skip_whitespace content (S pos)) in *. fold len in Hws0.
      destruct ((p <? len) && (char_at content p =? "]")%char) eqn:E.
      { apply andb_true_iff in E. destruct E as [E _].
        apply Nat.ltb_lt in E. simpl. lia. }
      destruct (IH content p ltac:(fold len; lia)) as [_ [_ [_ [_ Hloop]]]].
      fold len in Hloop.
      apply (returns_from_weaken len pos p); [lia |].
      apply Hloop. lia.
    + (* parse_array_loop *)
      intros arr Hfuel. cbn [parse_array_loop]. fold len.
      destruct (pos <? len) eqn:Hlt; [| simpl; lia].
      apply Nat.ltb_lt in Hlt.
      skip_ws_bounds content pos.
      set (p := skip_whitespace content pos) in *. fold len in Hws0.
      destruct (IH content p ltac:(fold len; lia)) as [Hval _].
      fold len in Hval. specialize (Hval ltac:(lia)).
      destruct (parse_value fuel content p) as [value p4 | what |];
        cbn [bind]; simpl in Hval; [| exact Hval | exact Hval].
      skip_ws_bounds content p4.
      set (p5 := skip_whitespace content p4) in *. fold len in Hws3.
      destruct (len <=? p5) eqn:E5; [(simpl; discriminate) |].
      apply Nat.leb_gt in E5.
      destruct (char_at content p5 =? "]")%char; [simpl; lia |].
      destruct (char_at content p5 =? ",")%char; [| (simpl; discriminate)].
      destruct (IH content (S p5) ltac:(fold len; lia))
        as [_ [_ [_ [_ Hloop]]]].
      fold len in Hloop.
      apply (returns_from_weaken len pos (S p5)); [lia |].
      apply Hloop. lia.
Qed.

(** A parsing function that did not run out of fuel gives the same outcome
    with any larger amount of fuel. *)
Lemma parse_fuel_mono (fuel : nat) :
  forall fuel' content pos,
    fuel <= fuel' ->
    (parse_value fuel content pos <> OutOfFuel ->
     parse_value fuel' content pos = parse_value fuel content pos)
    /\ (parse_object fuel content pos <> OutOfFuel ->
        parse_object fuel' content pos = parse_object fuel content pos)
    /\ (forall obj,
          parse_object_loop fuel content pos obj <> OutOfFuel ->
          parse_object_loop fuel' content pos obj
          = parse_object_loop fuel content pos obj)
    /\ (parse_array fuel content pos <> OutOfFuel ->
        parse_array fuel' content pos = parse_array fuel content pos)
    /\ (forall arr,
          parse_array_loop fuel content pos arr <> OutOfFuel ->
          parse_array_loop fuel' content pos arr
          = parse_array_loop fuel content pos arr).
Proof.
  induction fuel as [| fuel IH]; intros fuel' content pos Hle.
  - repeat split; intros; simpl in *; congruence.
  - destruct fuel' as [| fuel']; [lia |].
    assert (Hle' : fuel <= fuel') by lia.
    split; [| split; [| split; [| split]]].
    + intros Hfin. cbn [parse_value] in *.
      destruct (String.length content <=? skip_whitespace content pos);
        [reflexivity |].
      destruct (char_at content (skip_whitespace content pos) =? "{")%char;
        [apply IH; assumption |].
      destruct (char_at content (skip_whitespace content pos) =? "[")%char;
        [apply IH; assumption |].
      reflexivity.
    + intros Hfin. cbn [parse_object] in *.
      destruct ((skip_whitespace content (S pos) <? String.length content)
                && (char_at content (skip_whitespace content (S pos))
                    =? "}")%char);
        [reflexivity | apply IH; assumption].
    + intros obj Hfin. cbn [parse_object_loop] in *.
      destruct (pos <? String.length content); [| reflexivity].
      destruct (negb (char_at content (skip_whitespace content pos)
                      =? dquote)%char); [reflexivity |].
      destruct (parse_string content (skip_whitespace content pos))
        as [key p1 | what |]; cbn [bind] in *; try reflexivity.
      destruct ((String.length content <=? skip_whitespace content p1)
                || negb (char_at content (skip_whitespace content p1)
                         =? ":")%char); [reflexivity |].
      set (p3 := skip_whitespace content (S (skip_whitespace content p1)))
        in *.
      destruct (parse_value fuel content p3) as [value p4 | what |] eqn:Ev;
        cbn [bind] in *.
      * rewrite (proj1 (IH fuel' content p3 Hle'))
          by (rewrite Ev; discriminate).
        rewrite Ev. cbn [bind].
        destruct (String.length content <=? skip_whitespace content p4);
          [reflexivity |].
        destruct (char_at content (skip_whitespace content p4) =? "}")%char;
          [reflexivity |].
        destruct (char_at content (skip_whitespace content p4) =? ",")%char;
          [| reflexivity].
        apply IH; assumption.
      * rewrite (proj1 (IH fuel' content p3 Hle'))
          by (rewrite Ev; discriminate).
        rewrite Ev. reflexivity.
      * congruence.
    + intros Hfin. cbn [parse_array] in *.
      destruct ((skip_whitespace content (S pos) <? String.length content)
                && (char_at content (skip_whitespace content (S pos))
                    =? "]")%char);
        [reflexivity | apply IH; assumption].
    + intros arr Hfin. cbn [parse_array_loop] in *.
      destruct (pos <? String.length content); [| reflexivity].
      set (p := skip_whitespace content pos) in *.
      destruct (parse_value fuel content p) as [value p4 | what |] eqn:Ev;
        cbn [bind] in *.
      * rewrite (proj1 (IH fuel' content p Hle'))
          by (rewrite Ev; discriminate).
        rewrite Ev. cbn [bind].
        destruct (String.length content <=? skip_whitespace content p4);
          [reflexivity |].
        destruct (char_at content (skip_whitespace content p4) =? "]")%char;
          [reflexivity |].
        destruct (char_at content (skip_whitespace content p4) =? ",")%char;
          [| reflexivity].
        apply IH; assumption.
      * rewrite (proj1 (IH fuel' content p Hle'))
          by (rewrite Ev; discriminate).
        rewrite Ev. reflexivity.
      * congruence.
Qed.

Lemma parse_value_fuel_enough (content : string) (pos : nat) :
  pos <= String.length content ->
  returns_from (String.length content) pos
    (parse_value (parse_fuel content) content pos).
Proof.
  intros Hpos.
  apply (proj1 (parse_fuel_enough (parse_fuel content) content pos Hpos)).
  unfold parse_fuel. lia.
Qed.

(** An outcome reached with some fuel is the outcome of [parse]'s call. *)
Lemma parse_value_any_fuel (fuel : nat) (content : string) (pos : nat) :
  pos <= String.length content ->
  parse_value fuel content pos <> OutOfFuel ->
  parse_value (parse_fuel content) content pos
  = parse_value fuel content pos.
Proof.
  intros Hpos Hfin.
  destruct (Nat.le_ge_cases fuel (parse_fuel content)) as [Hle | Hge].
  - apply (parse_fuel_mono fuel); assumption.
  - symmetry. apply (parse_fuel_mono (parse_fuel content)); [assumption |].
    pose proof (parse_value_fuel_enough content pos Hpos) as H.
    destruct (parse_value (parse_fuel content) content pos);
      simpl in H; [discriminate | discriminate | contradiction].
Qed.

(** ** Maps and the mutators *)

Lemma compare_nonempty_empty (c : ascii) (s : string) :
  String.compare (String c s) "" = Gt.
Proof. reflexivity. Qed.

Lemma string_compare_refl (s : string) : String.compare s s = Eq.
Proof.
  induction s as [| c s IH]; cbn [String.compare]; [reflexivity |].
  unfold Ascii.compare. rewrite N.compare_refl. exact IH.
Qed.

Lemma map_assign_first_empty {V : Type} (key : string) (value v0 : V)
  (m : list (string * V)) :
  exists v1 m', map_assign key value (("", v0) :: m) = ("", v1) :: m'.
Proof.
  destruct key as [| c s]; cbn [map_assign].
  - simpl. eauto.
  - rewrite compare_nonempty_empty. eauto.
Qed.

Lemma forallb_map_assign {V : Type} (p : string * V -> bool) (key : string)
  (value : V) (m : list (string * V)) :
  p (key, value) = true -> forallb p m = true ->
  forallb p (map_assign key value m) = true.
Proof.
  intros Hp. induction m as [| [k v] m IH]; cbn [map_assign forallb]; intros H.
  - now rewrite Hp.
  - apply andb_true_iff in H. destruct H as [Hkv Hm].
    destruct (String.compare key k); cbn [forallb].
    + now rewrite Hp, Hm.
    + now rewrite Hp, Hkv, Hm.
    + now rewrite Hkv, (IH Hm).
Qed.

Lemma in_keys_map_assign {V : Type} (k key : string) (value : V)
  (m : list (string * V)) :
  In k (map fst (map_assign key value m)) <-> k = key \/ In k (map fst m).
Proof.
  induction m as [| [k0 v0] m IH]; cbn [map_assign map fst In].
  - intuition congruence.
  - destruct (String.compare key k0) eqn:E; cbn [map fst In].
    + apply String.compare_eq_iff in E. subst k0. intuition congruence.
    + intuition congruence.
    + rewrite IH. intuition congruence.
Qed.

Lemma map_find_map_assign {V : Type} (k key : string) (value : V)
  (m : list (string * V)) :
  map_find k (map_assign key value m)
  = if (key =? k)%string then Some value else map_find k m.
Proof.
  induction m as [| [k0 v0] m IH]; cbn [map_assign map_find].
  - reflexivity.
  - destruct (String.compare key k0) eqn:E; cbn [map_find].
    + apply String.compare_eq_iff in E. subst k0.
      destruct (key =? k)%string; reflexivity.
    + reflexivity.
    + rewrite IH. destruct (k0 =? k)%string eqn:E0; [| reflexivity].
      apply String.eqb_eq in E0. subst k0.
      destruct (key =? k)%string eqn:E1; [| reflexivity].
      apply String.eqb_eq in E1. subst key.
      rewrite string_compare_refl in E. discriminate.
Qed.

(** In a map without duplicate keys, looking up the key of an entry finds
    the value of that entry: iterating over the entries, as [value_to_string]
    does here, is iterating over [get_keys()] and calling [get(key)]. *)
Lemma map_find_entry {V : Type} (key : string) (value : V)
  (m : list (string * V)) :
  distinct_keys (map fst m) = true ->
  In (key, value) m ->
  map_find key m = Some value.
Proof.
  induction m as [| [k v] m IH]; cbn [map fst distinct_keys map_find In];
    intros Hd Hin; [contradiction |].
  apply andb_true_iff in Hd. destruct Hd as [Hk Hd].
  apply negb_true_iff in Hk.
  destruct Hin as [Hin | Hin].
  - inversion Hin. subst. now rewrite String.eqb_refl.
  - destruct (k =? key)%string eqn:E; [| exact (IH Hd Hin)].
    apply String.eqb_eq in E. subst k.
    assert (Hex : existsb (String.eqb key) (map fst m) = true).
    { apply existsb_exists. exists key. split; [| apply String.eqb_refl].
      apply in_map_iff. exists (key, value). split; [reflexivity | exact Hin]. }
    congruence.
Qed.

Lemma set_type (obj : JSONValue) (key : string) (value : JSONValue) :
  get_type (set obj key value) = TObject.
Proof.
  unfold set, get_type.
  destruct (type_ obj) eqn:E; simpl; rewrite ?E; reflexivity.
Qed.

Lemma set_object_values (obj : JSONValue) (key : string)
  (value : JSONValue) :
  object_values_ (set obj key value)
  = map_assign key value (object_values_ obj).
Proof.
  unfold set. destruct (type_ obj) eqn:E; reflexivity.
Qed.

Lemma set_empty_key_first (obj : JSONValue) (key : string)
  (value : JSONValue) :
  empty_key_first obj = true -> empty_key_first (set obj key value) = true.
Proof.
  unfold empty_key_first. rewrite set_object_values.
  destruct (object_values_ obj) as [| [k0 v0] m]; [discriminate |].
  intros H. apply String.eqb_eq in H. subst k0.
  destruct (map_assign_first_empty key value v0 m) as [v1 [m' ->]].
  reflexivity.
Qed.

Lemma every_object_unfold (p : JSONValue -> bool) (v : JSONValue) :
  every_object p v
  = (if JSONType_eqb (type_ v) TObject then p v else true)
    && forallb (fun member => every_object p (snd member))
         (object_values_ v)
    && forallb (every_object p) (array_values_ v).
Proof. destruct v; reflexivity. Qed.

Lemma every_object_set (obj : JSONValue) (key : string)
  (value : JSONValue) :
  get_type obj = TObject ->
  every_object empty_key_first obj = true ->
  every_object empty_key_first value = true ->
  every_object empty_key_first (set obj key value) = true.
Proof.
  intros Ht Hobj Hval.
  rewrite every_object_unfold in Hobj. unfold get_type in Ht.
  rewrite Ht in Hobj. cbn [JSONType_eqb] in Hobj.
  apply andb_true_iff in Hobj. destruct Hobj as [Hobj Harr].
  apply andb_true_iff in Hobj. destruct Hobj as [Hfirst Hmem].
  rewrite every_object_unfold.
  pose proof (set_type obj key value) as Hst. unfold get_type in Hst.
  rewrite Hst. cbn [JSONType_eqb].
  rewrite (set_empty_key_first _ _ _ Hfirst), set_object_values.
  rewrite forallb_map_assign; [| exact Hval | exact Hmem].
  unfold set. rewrite Ht. cbn [JSONType_eqb negb array_values_].
  rewrite Harr. reflexivity.
Qed.

Lemma every_object_push_back (p : JSONValue -> bool)
  (arr value : JSONValue) :
  get_type arr <> TObject ->
  every_object p arr = true ->
  every_object p value = true ->
  get_type (push_back arr value) = TArray
  /\ every_object p (push_back arr value) = true.
Proof.
  intros Ht Harr Hval. unfold get_type in *.
  rewrite every_object_unfold in Harr.
  apply andb_true_iff in Harr. destruct Harr as [Harr Helems].
  apply andb_true_iff in Harr. destruct Harr as [_ Hmem].
  split.
  - unfold push_back.
    destruct (type_ arr) eqn:E; simpl; rewrite ?E; reflexivity.
  - rewrite every_object_unfold. unfold push_back.
    destruct (type_ arr) eqn:E; try contradiction;
      cbn [JSONType_eqb negb type_ object_values_ array_values_ forallb andb];
      rewrite ?E; cbn [JSONType_eqb];
      rewrite ?Hmem, forallb_app, Helems; cbn [forallb andb];
      rewrite Hval; reflexivity.
Qed.

(** ** Members stored one after the other *)

Lemma fold_set_member_type (members : list (string * JSONValue))
  (obj : JSONValue) :
  get_type obj = TObject ->
  get_type (fold_left set_member members obj) = TObject.
Proof.
  revert obj. induction members as [| m members IH]; intros obj H;
    [exact H |].
  cbn [fold_left]. apply IH. apply set_type.
Qed.

Lemma fold_set_member_keys (k : string)
  (members : list (string * JSONValue)) (obj : JSONValue) :
  In k (map fst (object_values_ (fold_left set_member members obj)))
  <-> In k (map fst (object_values_ obj)) \/ In k (map fst members).
Proof.
  revert obj. induction members as [| m members IH]; intros obj;
    cbn [fold_left map In]; [tauto |].
  rewrite IH. unfold set_member at 1.
  rewrite set_object_values, in_keys_map_assign. intuition congruence.
Qed.

Lemma fold_set_member_first (members : list (string * JSONValue))
  (obj : JSONValue) :
  empty_key_first obj = true ->
  empty_key_first (fold_left set_member members obj) = true.
Proof.
  revert obj. induction members as [| m members IH]; intros obj H;
    [exact H |].
  cbn [fold_left]. apply IH. apply set_empty_key_first. exact H.
Qed.

(** A key that no member writes keeps the value it had before the loop. *)
Lemma fold_set_member_get (k : string)
  (members : list (string * JSONValue)) (obj : JSONValue) :
  get_type obj = TObject ->
  ~ In k (map fst members) ->
  get (fold_left set_member members obj) k = get obj k.
Proof.
  revert obj. induction members as [| [key value] members IH];
    intros obj Ht Hin; [reflexivity |].
  cbn [fold_left map fst In] in *.
  rewrite IH; [| apply set_type | tauto].
  unfold set_member, get. cbn [fst snd].
  pose proof (set_type obj key value) as Hst. unfold get_type in *.
  rewrite Hst, Ht, set_object_values, map_find_map_assign.
  destruct (key =? k)%string eqn:E; [| reflexivity].
  apply String.eqb_eq in E. tauto.
Qed.

(** ** The phantom member of parsed objects *)

Lemma parse_number_every_object (p : JSONValue -> bool) (content : string)
  (pos : nat) (v : JSONValue) (pos' : nat) :
  parse_number content pos = Ok v pos' -> every_object p v = true.
Proof.
  unfold parse_number. destruct (is_floating_lexeme _).
  - destruct (stod _); intros H; inversion H; reflexivity.
  - destruct (stoi _); intros H; inversion H; reflexivity.
Qed.

(** Every Object in a parsed tree starts with the key [""]. *)
Lemma parse_every_object (fuel : nat) :
  forall content pos,
    (forall v pos',
        parse_value fuel content pos = Ok v pos' ->
        every_object empty_key_first v = true)
    /\ (forall v pos',
          parse_object fuel content pos = Ok v pos' ->
          every_object empty_key_first v = true)
    /\ (forall obj v pos',
          get_type obj = TObject ->
          every_object empty_key_first obj = true ->
          parse_object_loop fuel content pos obj = Ok v pos' ->
          every_object empty_key_first v = true)
    /\ (forall v pos',
          parse_array fuel content pos = Ok v pos' ->
          every_object empty_key_first v = true)
    /\ (forall arr v pos',
          get_type arr <> TObject ->
          every_object empty_key_first arr = true ->
          parse_array_loop fuel content pos arr = Ok v pos' ->
          every_object empty_key_first v = true).
Proof.
  induction fuel as [| fuel IH]; intros content pos.
  - repeat split; intros; discriminate.
  - split; [| split; [| split; [| split]]].
    + intros v pos'. cbn [parse_value].
      set (p := skip_whitespace content pos).
      destruct (String.length content <=? p); [discriminate |].
      destruct (char_at content p =? "{")%char; [apply IH |].
      destruct (char_at content p =? "[")%char; [apply IH |].
      destruct (char_at content p =? dquote)%char.
      { destruct (parse_string content p); cbn [bind];
          intros H; inversion H; reflexivity. }
      destruct ((char_at content p =? "t") || (char_at content p =? "f"))%char.
      { destruct (substr content p 4 =? "true")%string;
          [intros H; inversion H; reflexivity |].
        destruct (substr content p 5 =? "false")%string;
          intros H; inversion H; reflexivity. }
      destruct (char_at content p =? "n")%char.
      { destruct (substr content p 4 =? "null")%string;
          intros H; inversion H; reflexivity. }
      destruct (isdigit (char_at content p) || (char_at content p =? "-")%char);
        [apply parse_number_every_object | discriminate].
    + intros v pos'. cbn [parse_object].
      destruct ((skip_whitespace content (S pos) <? String.length content)
                && (char_at content (skip_whitespace content (S pos))
                    =? "}")%char).
      * intros H; inversion H; reflexivity.
      * apply IH; reflexivity.
    + intros obj v pos' Ht Hobj. cbn [parse_object_loop].
      destruct (pos <? String.length content);
        [| intros H; inversion H; subst; exact Hobj].
      destruct (negb (char_at content (skip_whitespace content pos)
                      =? dquote)%char); [discriminate |].
      destruct (parse_string content (skip_whitespace content pos))
        as [key p1 | what |]; cbn [bind]; try discriminate.
      destruct ((String.length content <=? skip_whitespace content p1)
                || negb (char_at content (skip_whitespace content p1)
                         =? ":")%char); [discriminate |].
      destruct (parse_value fuel content _) as [value p4 | what |] eqn:Ev;
        cbn [bind]; try discriminate.
      apply (proj1 (IH _ _)) in Ev.
      pose proof (every_object_set obj key value Ht Hobj Ev) as Hset.
      destruct (String.length content <=? skip_whitespace content p4);
        [discriminate |].
      destruct (char_at content (skip_whitespace content p4) =? "}")%char;
        [intros H; inversion H; subst; exact Hset |].
      destruct (char_at content (skip_whitespace content p4) =? ",")%char;
        [| discriminate].
      apply IH; [apply set_type | exact Hset].
    + intros v pos'. cbn [parse_array].
      destruct ((skip_whitespace content (S pos) <? String.length content)
                && (char_at content (skip_whitespace content (S pos))
                    =? "]")%char).
      * intros H; inversion H; reflexivity.
      * apply IH; [discriminate | reflexivity].
    + intros arr v pos' Ht Harr. cbn [parse_array_loop].
      destruct (pos <? String.length content);
        [| intros H; inversion H; subst; exact Harr].
      destruct (parse_value fuel content _) as [value p4 | what |] eqn:Ev;
        cbn [bind]; try discriminate.
      apply (proj1 (IH _ _)) in Ev.
      destruct (every_object_push_back empty_key_first arr value Ht Harr Ev)
        as [Hpt Hpush].
      destruct (String.length content <=? skip_whitespace content p4);
        [discriminate |].
      destruct (char_at content (skip_whitespace content p4) =? "]")%char;
        [intros H; inversion H; subst; exact Hpush |].
      destruct (char_at content (skip_whitespace content p4) =? ",")%char;
        [| discriminate].
      apply IH; [rewrite Hpt; discriminate | exact Hpush].
Qed.

Lemma members_to_string_first (f : JSONValue -> string) (sep prefix : string)
  (v0 : JSONValue) (m : list (string * JSONValue)) :
  members_to_string f sep prefix (("", v0) :: m) true
  = prefix ++ quoted "" ++ ": " ++ f v0
    ++ members_to_string f sep prefix m false.
Proof. reflexivity. Qed.

Lemma append_assoc (a b c : string) : (a ++ b) ++ c = a ++ (b ++ c).
Proof.
  induction a as [| x a IH]; simpl; [reflexivity | now rewrite IH].
Qed.

(** ** White space of the serialized text *)

Lemma single_spaced_any_prev (prev : ascii) (s : string) :
  single_spaced s = true -> spaces_follow_colons prev s = true.
Proof.
  unfold single_spaced. destruct s as [| c s]; [reflexivity |].
  cbn [spaces_follow_colons]. intros H.
  apply andb_true_iff in H. destruct H as [Hc Hs]. rewrite Hs, andb_true_r.
  apply orb_true_iff in Hc. destruct Hc as [Hc | Hc].
  - now rewrite Hc.
  - apply andb_true_iff in Hc. destruct Hc as [_ Hc]. discriminate.
Qed.

Lemma spaces_follow_colons_app (prev : ascii) (a b : string) :
  spaces_follow_colons prev a = true -> single_spaced b = true ->
  spaces_follow_colons prev (a ++ b) = true.
Proof.
  revert prev. induction a as [| c a IH]; intros prev Ha Hb.
  - apply single_spaced_any_prev. exact Hb.
  - cbn [String.append spaces_follow_colons] in *.
    apply andb_true_iff in Ha. destruct Ha as [Hc Ha].
    now rewrite Hc, (IH c Ha Hb).
Qed.

Lemma single_spaced_app (a b : string) :
  single_spaced a = true -> single_spaced b = true ->
  single_spaced (a ++ b) = true.
Proof. apply spaces_follow_colons_app. Qed.

Lemma no_space_spaced (prev : ascii) (s : string) :
  no_space s = true -> spaces_follow_colons prev s = true.
Proof.
  revert prev. induction s as [| c s IH]; intros prev H; [reflexivity |].
  cbn [no_space spaces_follow_colons] in *.
  apply andb_true_iff in H. destruct H as [Hc Hs].
  now rewrite Hc, (IH c Hs).
Qed.

Lemma single_spaced_after_colon (b : string) :
  single_spaced b = true -> single_spaced (": " ++ b) = true.
Proof.
  intros H. unfold single_spaced. cbn.
  apply single_spaced_any_prev. exact H.
Qed.

Lemma single_spaced_no_newline (prev : ascii) (s : string) :
  spaces_follow_colons prev s = true ->
  contains_char newline_char s = false.
Proof.
  revert prev. induction s as [| c s IH]; intros prev H; [reflexivity |].
  cbn [spaces_follow_colons contains_char] in *.
  apply andb_true_iff in H. destruct H as [Hc Hs]. rewrite (IH c Hs).
  destruct (c =? newline_char)%char eqn:E; [| reflexivity].
  apply Ascii.eqb_eq in E. subst c. discriminate.
Qed.

Lemma no_space_app (a b : string) :
  no_space a = true -> no_space b = true -> no_space (a ++ b) = true.
Proof.
  induction a as [| c a IH]; intros Ha Hb; [exact Hb |].
  cbn [String.append no_space] in *.
  apply andb_true_iff in Ha. destruct Ha as [Hc Ha].
  now rewrite Hc, (IH Ha Hb).
Qed.

Lemma digit_char_isdigit (d : Z) :
  (0 <= d < 10)%Z -> isdigit (digit_char d) = true.
Proof.
  intros H.
  assert (E : (d = 0 \/ d = 1 \/ d = 2 \/ d = 3 \/ d = 4 \/ d = 5 \/ d = 6
               \/ d = 7 \/ d = 8 \/ d = 9)%Z) by lia.
  repeat (destruct E as [E | E]; [subst d; reflexivity |]).
  subst d; reflexivity.
Qed.

Lemma isdigit_not_space (c : ascii) : isdigit c = true -> isspace c = false.
Proof.
  destruct c as [b0 b1 b2 b3 b4 b5 b6 b7].
  destruct b0, b1, b2, b3, b4, b5, b6, b7; simpl; congruence.
Qed.

Lemma digit_char_mod_isdigit (n : Z) : isdigit (digit_char (n mod 10)) = true.
Proof.
  apply digit_char_isdigit. apply Z.mod_pos_bound. lia.
Qed.

Lemma dec_digits_no_space (fuel : nat) (n : Z) (acc : string) :
  no_space acc = true -> no_space (dec_digits fuel n acc) = true.
Proof.
  revert n acc. induction fuel as [| fuel IH]; intros n acc H; [exact H |].
  cbn [dec_digits].
  assert (H' : no_space (String (digit_char (n mod 10)) acc) = true).
  { cbn [no_space].
    now rewrite (isdigit_not_space _ (digit_char_mod_isdigit n)), H. }
  destruct (n <? 10)%Z; [exact H' | apply IH; exact H'].
Qed.

Lemma to_string_int_no_space (z : Z) : no_space (to_string_int z) = true.
Proof.
  unfold to_string_int, dec_string.
  destruct (z <? 0)%Z; cbn [no_space];
    rewrite dec_digits_no_space; reflexivity.
Qed.

Lemma frac6_no_space (n : Z) : no_space (frac6 n) = true.
Proof.
  unfold frac6. cbn [no_space].
  rewrite !(isdigit_not_space _ (digit_char_mod_isdigit _)). reflexivity.
Qed.

Lemma to_string_double_no_space (d : double) :
  no_space (to_string_double d) = true.
Proof.
  destruct d as [s | s | | s m e]; cbn [to_string_double];
    try (destruct s; reflexivity); try reflexivity.
  apply no_space_app; [destruct s; reflexivity |].
  apply no_space_app; [apply dec_digits_no_space; reflexivity |].
  apply no_space_app; [reflexivity | apply frac6_no_space].
Qed.

Lemma members_single_spaced (f : JSONValue -> string)
  (l : list (string * JSONValue)) (first : bool) :
  Forall (fun member =>
            content_no_space (snd member) = true ->
            single_spaced (f (snd member)) = true) l ->
  forallb (fun member =>
             no_space (fst member) && content_no_space (snd member)) l
  = true ->
  single_spaced (members_to_string f "," "" l first) = true.
Proof.
  intros HP. revert first.
  induction HP as [| [key child] l Hchild HP IH]; intros first Hl;
    [reflexivity |].
  cbn [forallb fst snd] in *.
  apply andb_true_iff in Hl. destruct Hl as [Hm Hl].
  apply andb_true_iff in Hm. destruct Hm as [Hkey Hc].
  cbn [members_to_string].
  apply single_spaced_app; [destruct first; reflexivity |].
  change ("" ++ String dquote key ++ String dquote ": "
          ++ f child ++ members_to_string f "," "" l false)
    with (String dquote key ++ String dquote ": "
          ++ f child ++ members_to_string f "," "" l false).
  change (String dquote key) with (string_of_char dquote ++ key).
  rewrite append_assoc.
  apply single_spaced_app; [reflexivity |].
  apply single_spaced_app; [apply no_space_spaced; exact Hkey |].
  change (String dquote ": " ++ f child ++ members_to_string f "," "" l false)
    with (string_of_char dquote
          ++ ": " ++ f child ++ members_to_string f "," "" l false).
  apply single_spaced_app; [reflexivity |].
  apply single_spaced_after_colon.
  apply single_spaced_app; [apply Hchild; exact Hc | apply IH; exact Hl].
Qed.

Lemma elements_single_spaced (f : JSONValue -> string)
  (l : list JSONValue) (first : bool) :
  Forall (fun child =>
            content_no_space child = true ->
            single_spaced (f child) = true) l ->
  forallb content_no_space l = true ->
  single_spaced (elements_to_string f "," "" l first) = true.
Proof.
  intros HP. revert first.
  induction HP as [| child l Hchild HP IH]; intros first Hl; [reflexivity |].
  cbn [forallb] in *.
  apply andb_true_iff in Hl. destruct Hl as [Hc Hl].
  cbn [elements_to_string].
  apply single_spaced_app; [destruct first; reflexivity |].
  change ("" ++ f child ++ elements_to_string f "," "" l false)
    with (f child ++ elements_to_string f "," "" l false).
  apply single_spaced_app; [apply Hchild; exact Hc | apply IH; exact Hl].
Qed.

Lemma value_to_string_single_spaced (v : JSONValue) :
  forall indent,
    content_no_space v = true ->
    single_spaced (value_to_string v indent false) = true.
Proof.
  induction v as [t s i d b o a IHo IHa] using JSONValue_nested_ind.
  intros indent Hv. cbn [value_to_string]. destruct t.
  - cbn [content_no_space] in Hv. unfold as_string. cbn [type_ string_value_].
    change (String dquote s) with (string_of_char dquote ++ s).
    rewrite append_assoc.
    apply single_spaced_app; [reflexivity |].
    apply single_spaced_app; [apply no_space_spaced; exact Hv | reflexivity].
  - apply no_space_spaced. apply to_string_double_no_space.
  - apply no_space_spaced. apply to_string_int_no_space.
  - unfold as_string. cbn [type_ bool_value_]. destruct b; reflexivity.
  - reflexivity.
  - cbn [content_no_space] in Hv.
    change ("{" ++ ""
            ++ members_to_string
                 (fun child => value_to_string child (S indent) false)
                 ("," ++ "") ("" ++ "") o true ++ "" ++ "" ++ "}")
      with ("{"
            ++ members_to_string
                 (fun child => value_to_string child (S indent) false)
                 "," "" o true ++ "}").
    apply single_spaced_app; [reflexivity |].
    apply single_spaced_app; [| reflexivity].
    apply members_single_spaced; [| exact Hv].
    eapply Forall_impl; [| exact IHo]. intros member H. apply H.
  - cbn [content_no_space] in Hv.
    change ("[" ++ ""
            ++ elements_to_string
                 (fun child => value_to_string child (S indent) false)
                 ("," ++ "") ("" ++ "") a true ++ "" ++ "" ++ "]")
      with ("["
            ++ elements_to_string
                 (fun child => value_to_string child (S indent) false)
                 "," "" a true ++ "]").
    apply single_spaced_app; [reflexivity |].
    apply single_spaced_app; [| reflexivity].
    apply elements_single_spaced; [| exact Hv].
    eapply Forall_impl; [| exact IHa]. intros child H. apply H.
Qed.

(** ** The unread text *)

Lemma drop_cons (content : string) (pos : nat) (c : ascii) (rest : string) :
  drop pos content = String c rest ->
  pos < String.length content
  /\ char_at content pos = c
  /\ drop (S pos) content = rest.
Proof.
  unfold char_at. revert pos.
  induction content as [| c' content IH]; intros pos H.
  - destruct pos; discriminate.
  - destruct pos as [| pos].
    + cbn in *. inversion H. subst. repeat split. lia.
    + cbn [drop] in H. destruct (IH pos H) as [H1 [H2 H3]].
      cbn [String.length String.get]. repeat split; [lia | exact H2 |].
      exact H3.
Qed.

Lemma drop_empty (content : string) (pos : nat) :
  drop pos content = "" -> String.length content <= pos.
Proof.
  revert pos. induction content as [| c content IH]; intros pos H.
  - simpl. lia.
  - destruct pos as [| pos]; [discriminate |].
    cbn [drop] in H. apply IH in H. simpl. lia.
Qed.

Lemma drop_app (content : string) (pos : nat) (a b : string) :
  drop pos content = a ++ b -> drop (pos + String.length a) content = b.
Proof.
  revert pos. induction a as [| c a IH]; intros pos H.
  - now rewrite Nat.add_0_r.
  - cbn [String.append] in H. apply drop_cons in H.
    destruct H as [_ [_ H]]. apply IH in H.
    cbn [String.length]. now rewrite Nat.add_succ_r.
Qed.

Lemma substring_prefix (a b : string) :
  String.substring 0 (String.length a) (a ++ b) = a.
Proof.
  induction a as [| c a IH]; cbn [String.length String.append].
  - destruct b; reflexivity.
  - cbn [String.substring]. now rewrite IH.
Qed.

Lemma drop_substr (content : string) (pos : nat) (a b : string) :
  drop pos content = a ++ b -> substr content pos (String.length a) = a.
Proof.
  unfold substr. revert pos.
  induction content as [| c content IH]; intros pos H.
  - assert (E : a ++ b = "") by (destruct pos; symmetry; exact H).
    destruct a; [destruct pos; reflexivity | discriminate].
  - destruct pos as [| pos].
    + cbn [drop] in H. rewrite H. apply substring_prefix.
    + cbn [drop] in H. cbn [String.substring]. now apply IH.
Qed.

Lemma skip_whitespace_at_text (content : string) (pos : nat) (c : ascii)
  (rest : string) :
  drop pos content = String c rest -> isspace c = false ->
  skip_whitespace content pos = pos.
Proof.
  intros H Hc. apply drop_cons in H. destruct H as [_ [H _]].
  apply skip_whitespace_stay. now rewrite H, Hc, andb_false_r.
Qed.

Lemma skip_whitespace_at_end (content : string) (pos : nat) :
  drop pos content = "" -> skip_whitespace content pos = pos.
Proof.
  intros H. apply drop_empty in H. apply skip_whitespace_stay.
  replace (pos <? String.length content) with false; [reflexivity |].
  symmetry. apply Nat.ltb_ge. exact H.
Qed.

Lemma skip_whitespace_one_space (content : string) (pos : nat) (c : ascii)
  (rest : string) :
  drop pos content = String " " (String c rest) -> isspace c = false ->
  skip_whitespace content pos = S pos.
Proof.
  intros H Hc. destruct (drop_cons _ _ _ _ H) as [Hlt [Hsp Hnext]].
  unfold skip_whitespace.
  destruct (String.length content - pos) as [| n] eqn:En; [lia |].
  cbn [skip_whitespace_loop].
  apply Nat.ltb_lt in Hlt. rewrite Hlt, Hsp. cbn [isspace andb].
  replace n with (String.length content - S pos) by lia.
  exact (skip_whitespace_at_text _ _ _ _ Hnext Hc).
Qed.

(** ** Decimal text of an [int] *)

Lemma skip_digits_stay (content : string) (pos : nat) :
  (pos <? String.length content) && isdigit (char_at content pos) = false ->
  skip_digits content pos = pos.
Proof.
  intros H. unfold skip_digits.
  destruct (String.length content - pos); cbn [skip_digits_loop];
    [reflexivity | now rewrite H].
Qed.

Lemma skip_digits_over (content : string) (ds suffix : string) :
  forall pos,
    drop pos content = ds ++ suffix ->
    all_digits ds = true ->
    match suffix with
    | EmptyString => true
    | String c _ => negb (isdigit c)
    end = true ->
    skip_digits content pos = pos + String.length ds.
Proof.
  induction ds as [| d ds IH]; intros pos H Hds Hsuf.
  - cbn [String.append String.length] in *. rewrite Nat.add_0_r.
    apply skip_digits_stay. destruct suffix as [| c suffix].
    + apply drop_empty in H.
      replace (pos <? String.length content) with false; [reflexivity |].
      symmetry. apply Nat.ltb_ge. exact H.
    + apply drop_cons in H. destruct H as [_ [H _]].
      apply negb_true_iff in Hsuf. now rewrite H, Hsuf, andb_false_r.
  - cbn [String.append all_digits String.length] in *.
    apply andb_true_iff in Hds. destruct Hds as [Hd Hds].
    destruct (drop_cons _ _ _ _ H) as [Hlt [Hc Hnext]].
    unfold skip_digits.
    destruct (String.length content - pos) as [| n] eqn:En; [lia |].
    cbn [skip_digits_loop].
    apply Nat.ltb_lt in Hlt. rewrite Hlt, Hc, Hd. cbn [andb].
    replace n with (String.length content - S pos) by lia.
    fold (skip_digits content (S pos)).
    rewrite (IH (S pos) Hnext Hds Hsuf). lia.
Qed.

Lemma digit_value_digit_char (d : Z) :
  (0 <= d < 10)%Z -> digit_value (digit_char d) = d.
Proof.
  intros H.
  assert (E : (d = 0 \/ d = 1 \/ d = 2 \/ d = 3 \/ d = 4 \/ d = 5 \/ d = 6
               \/ d = 7 \/ d = 8 \/ d = 9)%Z) by lia.
  repeat (destruct E as [E | E]; [subst d; reflexivity |]).
  subst d; reflexivity.
Qed.

Lemma dec_digits_all_digits (fuel : nat) (n : Z) (acc : string) :
  all_digits acc = true -> all_digits (dec_digits fuel n acc) = true.
Proof.
  revert n acc. induction fuel as [| fuel IH]; intros n acc H; [exact H |].
  cbn [dec_digits].
  assert (H' : all_digits (String (digit_char (n mod 10)) acc) = true).
  { cbn [all_digits]. now rewrite digit_char_mod_isdigit, H. }
  destruct (n <? 10)%Z; [exact H' | apply IH; exact H'].
Qed.

Lemma dec_digits_head (fuel : nat) (n : Z) (acc : string) :
  exists c rest,
    dec_digits (S fuel) n acc = String c rest /\ isdigit c = true.
Proof.
  revert n acc. induction fuel as [| fuel IH]; intros n acc.
  - cbn [dec_digits]. destruct (n <? 10)%Z;
      eauto using digit_char_mod_isdigit.
  - change (dec_digits (S (S fuel)) n acc)
      with (if (n <? 10)%Z then String (digit_char (n mod 10)) acc
            else dec_digits (S fuel) (n / 10)
                   (String (digit_char (n mod 10)) acc)).
    destruct (n <? 10)%Z; [eauto using digit_char_mod_isdigit | apply IH].
Qed.

Lemma dec_digits_scan (fuel : nat) :
  forall n tail,
    (0 <= n < 10 ^ Z.of_nat (S fuel))%Z ->
    exists d,
      forall acc k,
        scan_digits (dec_digits (S fuel) n tail) acc k
        = scan_digits tail (acc * 10 ^ Z.of_nat (S d) + n)%Z (k + S d).
Proof.
  induction fuel as [| fuel IH]; intros n tail Hn.
  - exists 0. intros acc k. cbn [dec_digits].
    change (10 ^ Z.of_nat 1)%Z with 10%Z in *.
    replace (n <? 10)%Z with true by (symmetry; apply Z.ltb_lt; lia).
    cbn [scan_digits]. rewrite digit_char_mod_isdigit.
    rewrite digit_value_digit_char by (apply Z.mod_pos_bound; lia).
    rewrite Z.mod_small by lia. f_equal; lia.
  - change (dec_digits (S (S fuel)) n tail)
      with (if (n <? 10)%Z then String (digit_char (n mod 10)) tail
            else dec_digits (S fuel) (n / 10)
                   (String (digit_char (n mod 10)) tail)).
    destruct (n <? 10)%Z eqn:E.
    + apply Z.ltb_lt in E. exists 0. intros acc k.
      change (10 ^ Z.of_nat 1)%Z with 10%Z.
      cbn [scan_digits]. rewrite digit_char_mod_isdigit.
      rewrite digit_value_digit_char by (apply Z.mod_pos_bound; lia).
      rewrite Z.mod_small by lia. f_equal; lia.
    + apply Z.ltb_ge in E.
      destruct (IH (n / 10)%Z (String (digit_char (n mod 10)) tail))
        as [d Hd].
      { split; [apply Z.div_pos; lia |].
        apply Z.div_lt_upper_bound; [lia |].
        replace (Z.of_nat (S (S fuel))) with (Z.succ (Z.of_nat (S fuel)))
          in Hn by lia.
        rewrite Z.pow_succ_r in Hn by lia. lia. }
      exists (S d). intros acc k. rewrite Hd.
      cbn [scan_digits]. rewrite digit_char_mod_isdigit.
      rewrite digit_value_digit_char by (apply Z.mod_pos_bound; lia).
      f_equal; [| lia].
      replace (Z.of_nat (S (S d))) with (Z.succ (Z.of_nat (S d))) by lia.
      rewrite Z.pow_succ_r by lia.
      pose proof (Z.div_mod n 10 ltac:(lia)) as Hdm.
      set (q := (n / 10)%Z) in *. set (m := (n mod 10)%Z) in *.
      set (p := (10 ^ Z.of_nat (S d))%Z). lia.
Qed.

Lemma dec_string_fuel (n : Z) :
  (0 <= n)%Z ->
  (0 <= n < 10 ^ Z.of_nat (S (Z.to_nat (Z.log2 n))))%Z.
Proof.
  intros Hn. split; [exact Hn |].
  pose proof (Z.log2_nonneg n) as Hlog.
  replace (Z.of_nat (S (Z.to_nat (Z.log2 n)))) with (Z.succ (Z.log2 n))
    by lia.
  destruct (Z.eq_dec n 0) as [-> | Hne]; [reflexivity |].
  destruct (Z.log2_spec n ltac:(lia)) as [_ Hlt].
  eapply Z.lt_le_trans; [exact Hlt |].
  apply Z.pow_le_mono_l. lia.
Qed.

(** The text of a non-negative number: digits, at least one, which strtol
    reads back as the number. *)
Lemma dec_string_spec (n : Z) :
  (0 <= n)%Z ->
  all_digits (dec_string n) = true
  /\ (exists c rest, dec_string n = String c rest /\ isdigit c = true)
  /\ exists d, scan_digits (dec_string n) 0%Z 0 = (n, S d, "").
Proof.
  intros Hn. unfold dec_string. split; [| split].
  - apply dec_digits_all_digits. reflexivity.
  - apply dec_digits_head.
  - destruct (dec_digits_scan _ n "" (dec_string_fuel n Hn)) as [d Hd].
    exists d. rewrite Hd. reflexivity.
Qed.

Lemma all_digits_not_floating (s : string) :
  all_digits s = true -> is_floating_lexeme s = false.
Proof.
  unfold is_floating_lexeme.
  induction s as [| c s IH]; intros H; [reflexivity |].
  cbn [all_digits contains_char] in *.
  apply andb_true_iff in H. destruct H as [Hc Hs].
  specialize (IH Hs).
  apply orb_false_iff in IH. destruct IH as [IH IH3].
  apply orb_false_iff in IH. destruct IH as [IH1 IH2].
  rewrite IH1, IH2, IH3.
  destruct c as [b0 b1 b2 b3 b4 b5 b6 b7].
  destruct b0, b1, b2, b3, b4, b5, b6, b7; try discriminate Hc; reflexivity.
Qed.

Lemma isdigit_not_sign (c : ascii) :
  isdigit c = true ->
  (c =? "-")%char = false /\ (c =? "+")%char = false
  /\ isspace c = false.
Proof.
  destruct c as [b0 b1 b2 b3 b4 b5 b6 b7].
  destruct b0, b1, b2, b3, b4, b5, b6, b7; simpl; intros H;
    try discriminate H; repeat split.
Qed.

Lemma scan_sign_digit (c : ascii) (s : string) :
  isdigit c = true -> scan_sign (String c s) = (false, String c s).
Proof.
  destruct c as [b0 b1 b2 b3 b4 b5 b6 b7].
  destruct b0, b1, b2, b3, b4, b5, b6, b7; simpl; intros H;
    try discriminate H; reflexivity.
Qed.

(** [std::stoi] reads back what [std::to_string] wrote. *)
Lemma stoi_to_string_int (z : Z) :
  in_int_range z = true -> stoi (to_string_int z) = Some z.
Proof.
  intros Hr. unfold stoi, to_string_int.
  destruct (z <? 0)%Z eqn:E.
  - apply Z.ltb_lt in E.
    destruct (dec_string_spec (- z) ltac:(lia)) as [_ [_ [d Hd]]].
    cbn [skip_spaces isspace scan_sign]. rewrite Hd.
    rewrite Z.opp_involutive, Hr. reflexivity.
  - apply Z.ltb_ge in E.
    destruct (dec_string_spec z E) as [_ [[c [rest [Hs Hc]]] [d Hd]]].
    rewrite Hs in *. cbn [skip_spaces].
    destruct (isdigit_not_sign c Hc) as [_ [_ Hsp]]. rewrite Hsp.
    rewrite (scan_sign_digit c rest Hc), Hd, Hr. reflexivity.
Qed.

(** ** Reading back a string and an integer *)

Lemma drop_length (content : string) (pos : nat) :
  String.length (drop pos content) = String.length content - pos.
Proof.
  revert pos. induction content as [| c content IH]; intros pos.
  - destruct pos; reflexivity.
  - destruct pos as [| pos]; [reflexivity |]. cbn [drop String.length].
    rewrite IH. lia.
Qed.

Lemma append_empty_r (s : string) : s ++ "" = s.
Proof.
  induction s as [| c s IH]; simpl; [reflexivity | now rewrite IH].
Qed.

Lemma parse_string_loop_clean (content : string) (s : string) :
  forall res pos n rest,
    drop pos content = s ++ String dquote rest ->
    no_escape_needed s = true ->
    String.length s < n ->
    parse_string_loop n content pos res
    = Ok (res ++ s) (pos + String.length s + 1)
    /\ drop (pos + String.length s + 1) content = rest.
Proof.
  induction s as [| c s IH]; intros res pos n rest H Hs Hn;
    (destruct n as [| n]; [cbn [String.length] in Hn; lia |]);
    cbn [String.append String.length no_escape_needed] in *;
    destruct (drop_cons _ _ _ _ H) as [Hlt [Hc Hnext]];
    apply Nat.ltb_lt in Hlt; cbn [parse_string_loop]; rewrite Hlt, Hc.
  - rewrite Ascii.eqb_refl, append_empty_r.
    replace (pos + 0 + 1) with (S pos) by lia. split; [reflexivity |].
    exact Hnext.
  - apply andb_true_iff in Hs. destruct Hs as [Hc' Hs].
    apply andb_true_iff in Hc'. destruct Hc' as [Hq Hb].
    apply negb_true_iff in Hq, Hb. rewrite Hq, Hb.
    destruct (IH (res ++ string_of_char c) (S pos) n rest Hnext Hs
                ltac:(lia)) as [Hloop Hdrop].
    rewrite Hloop, append_assoc.
    replace (S pos + String.length s + 1)
      with (pos + S (String.length s) + 1) in * by lia.
    split; [reflexivity | exact Hdrop].
Qed.

Lemma parse_string_clean (content : string) (pos : nat) (s rest : string) :
  drop pos content = quoted s ++ rest ->
  no_escape_needed s = true ->
  exists pos',
    parse_string content pos = Ok s pos' /\ drop pos' content = rest.
Proof.
  intros H Hs. unfold quoted in H. cbn [String.append] in H.
  rewrite append_assoc in H. cbn [string_of_char String.append] in H.
  destruct (drop_cons _ _ _ _ H) as [Hlt [Hc Hnext]].
  unfold parse_string. rewrite Hc, Ascii.eqb_refl. cbn [negb].
  destruct (parse_string_loop_clean content s "" (S pos)
              (String.length content - S pos) rest Hnext Hs)
    as [Hloop Hdrop].
  { pose proof (drop_length content (S pos)) as Hl.
    rewrite Hnext, append_length in Hl. cbn [String.length] in Hl. lia. }
  eexists. split; [exact Hloop | exact Hdrop].
Qed.

Lemma ends_number_stops (content : string) (p : nat) (suffix : string) :
  drop p content = suffix ->
  ends_number suffix = true ->
  match suffix with
  | EmptyString => true
  | String c _ => negb (isdigit c)
  end = true
  /\ (p <? String.length content) && (char_at content p =? ".")%char = false
  /\ (p <? String.length content)
     && ((char_at content p =? "e") || (char_at content p =? "E"))%char
     = false.
Proof.
  intros H He. destruct suffix as [| c suffix].
  - apply drop_empty in H.
    replace (p <? String.length content) with false
      by (symmetry; apply Nat.ltb_ge; exact H).
    repeat split.
  - destruct (drop_cons _ _ _ _ H) as [_ [Hc _]]. rewrite Hc.
    cbn [ends_number] in He.
    apply andb_true_iff in He. destruct He as [He HE].
    apply andb_true_iff in He. destruct He as [He He'].
    apply andb_true_iff in He. destruct He as [Hd Hp].
    apply negb_true_iff in HE, He', Hp.
    rewrite HE, He', Hp, Hd, !andb_false_r. repeat split.
Qed.

Lemma parse_number_int (content : string) (pos : nat) (z : Z)
  (suffix : string) :
  drop pos content = to_string_int z ++ suffix ->
  in_int_range z = true ->
  ends_number suffix = true ->
  exists pos',
    parse_number content pos = Ok (JSONValue_int z) pos'
    /\ drop pos' content = suffix.
Proof.
  intros H Hr He.
  set (text := to_string_int z) in *.
  pose proof (drop_app _ _ _ _ H) as Hend.
  destruct (ends_number_stops _ _ _ Hend He) as [Hstop [Hdot Hexp]].
  assert (Hscan : scan_number content pos = pos + String.length text).
  { unfold scan_number, text, to_string_int in *.
    destruct (z <? 0)%Z eqn:E.
    - apply Z.ltb_lt in E.
      destruct (dec_string_spec (- z) ltac:(lia)) as [Hall _].
      cbn [String.append] in H.
      destruct (drop_cons _ _ _ _ H) as [_ [Hc Hnext]].
      rewrite Hc. cbn [Ascii.eqb Bool.eqb].
      rewrite (skip_digits_over _ _ _ _ Hnext Hall Hstop).
      cbn [String.length] in *.
      replace (S pos + String.length (dec_string (- z)))
        with (pos + S (String.length (dec_string (- z)))) by lia.
      rewrite Hdot, Hexp. reflexivity.
    - apply Z.ltb_ge in E.
      destruct (dec_string_spec z E) as [Hall [[c [rest [Hs Hc]]] _]].
      rewrite Hs in H. cbn [String.append] in H.
      destruct (drop_cons _ _ _ _ H) as [_ [Hc' _]].
      rewrite Hc'. destruct (isdigit_not_sign c Hc) as [Hm _]. rewrite Hm.
      rewrite Hs in *. cbn [String.append] in *.
      change (String c (rest ++ suffix)) with (String c rest ++ suffix) in H.
      rewrite (skip_digits_over _ _ _ _ H Hall Hstop).
      rewrite Hdot, Hexp. reflexivity. }
  unfold parse_number. rewrite Hscan.
  replace (pos + String.length text - pos) with (String.length text) by lia.
  rewrite (drop_substr _ _ _ _ H).
  assert (Hfl : is_floating_lexeme text = false).
  { unfold text, to_string_int. destruct (z <? 0)%Z eqn:E.
    - apply Z.ltb_lt in E.
      destruct (dec_string_spec (- z) ltac:(lia)) as [Hall _].
      apply all_digits_not_floating in Hall.
      unfold is_floating_lexeme in *. cbn [contains_char].
      exact Hall.
    - apply Z.ltb_ge in E.
      destruct (dec_string_spec z E) as [Hall _].
      apply all_digits_not_floating. exact Hall. }
  rewrite Hfl. unfold text. rewrite (stoi_to_string_int z Hr).
  eexists. split; [reflexivity | exact Hend].
Qed.

(** ** The cursor and the text in front of it *)


Lemma drop_char (content : string) (pos : nat) :
  pos < String.length content ->
  drop pos content = String (char_at content pos) (drop (S pos) content).
Proof.
  unfold char_at. revert pos.
  induction content as [| c content IH]; intros pos H;
    cbn [String.length] in H; [lia |].
  destruct pos as [| pos]; [reflexivity |].
  cbn [drop String.get]. rewrite (IH pos) by lia. reflexivity.
Qed.

Lemma drop_past_end (content : string) (pos : nat) :
  String.length content <= pos -> drop pos content = "".
Proof.
  revert pos. induction content as [| c content IH]; intros pos H.
  - destruct pos; reflexivity.
  - destruct pos as [| pos]; cbn [String.length] in H; [lia |].
    cbn [drop]. apply IH. lia.
Qed.

Lemma drop_drop (content : string) (a b : nat) :
  drop b (drop a content) = drop (a + b) content.
Proof.
  revert content. induction a as [| a IH]; intros content; [reflexivity |].
  destruct content as [| c content]; cbn [drop Nat.add].
  - destruct b; reflexivity.
  - apply IH.
Qed.

Lemma substring_drop (content lit : string) (pos : nat) :
  String.substring pos (String.length lit) content = lit ->
  drop pos content = lit ++ drop (pos + String.length lit) content.
Proof.
  revert pos. induction content as [| c content IH]; intros pos H.
  - destruct pos, lit; cbn in *; try discriminate; reflexivity.
  - destruct pos as [| pos].
    + cbn [drop Nat.add]. clear IH. revert c content H.
      induction lit as [| x lit IHl]; intros c content H; [reflexivity |].
      cbn [String.length String.substring] in H. inversion H as [[Hx Hl]].
      rewrite Hl. cbn [String.append String.length drop]. f_equal.
      destruct content as [| c' content].
      * destruct lit; cbn in *; [reflexivity | discriminate].
      * rewrite <- (IHl c' content Hl) at 1. reflexivity.
    + cbn [String.substring] in H. cbn [drop Nat.add]. apply IH. exact H.
Qed.

Lemma substr_literal (content lit : string) (pos : nat) :
  (substr content pos (String.length lit) =? lit)%string = true ->
  drop pos content = lit ++ drop (pos + String.length lit) content.
Proof.
  intros H. apply String.eqb_eq in H. apply substring_drop. exact H.
Qed.

Lemma all_space_app (a b : string) :
  all_space (a ++ b) = all_space a && all_space b.
Proof.
  induction a as [| c a IH]; cbn [String.append all_space]; [reflexivity |].
  now rewrite IH, andb_assoc.
Qed.

(** The white space that [skip_whitespace] passes over. *)
Lemma skip_whitespace_loop_drop (n : nat) :
  forall content pos,
    exists ws,
      all_space ws = true
      /\ drop pos content
         = ws ++ drop (skip_whitespace_loop n content pos) content.
Proof.
  induction n as [| n IH]; intros content pos; cbn [skip_whitespace_loop].
  - exists "". split; reflexivity.
  - destruct ((pos <? String.length content)
              && isspace (char_at content pos)) eqn:E.
    + apply andb_true_iff in E. destruct E as [Hlt Hsp].
      apply Nat.ltb_lt in Hlt.
      destruct (IH content (S pos)) as [ws [Hws Hdrop]].
      exists (String (char_at content pos) ws). split.
      * cbn [all_space]. now rewrite Hsp, Hws.
      * rewrite (drop_char _ _ Hlt), Hdrop. reflexivity.
    + exists "". split; reflexivity.
Qed.

Lemma skip_whitespace_drop (content : string) (pos : nat) :
  exists ws,
    all_space ws = true
    /\ drop pos content = ws ++ drop (skip_whitespace content pos) content.
Proof. apply skip_whitespace_loop_drop. Qed.

Lemma skip_whitespace_loop_over (ws : string) :
  forall n content pos text,
    drop pos content = ws ++ text ->
    all_space ws = true ->
    no_space_ahead text ->
    String.length content - pos <= n ->
    skip_whitespace_loop n content pos = pos + String.length ws.
Proof.
  induction ws as [| c ws IH]; intros n content pos text H Hws Htext Hn.
  - cbn [String.append String.length] in *. rewrite Nat.add_0_r.
    destruct n as [| n]; [reflexivity |]. cbn [skip_whitespace_loop].
    destruct text as [| c text].
    + apply drop_empty in H.
      replace (pos <? String.length content) with false; [reflexivity |].
      symmetry. apply Nat.ltb_ge. exact H.
    + destruct (drop_cons _ _ _ _ H) as [_ [Hc _]].
      cbn in Htext. now rewrite Hc, Htext, andb_false_r.
  - cbn [String.append all_space String.length] in *.
    apply andb_true_iff in Hws. destruct Hws as [Hc Hws].
    destruct (drop_cons _ _ _ _ H) as [Hlt [Hc' Hnext]].
    destruct n as [| n]; [lia |]. cbn [skip_whitespace_loop].
    apply Nat.ltb_lt in Hlt. rewrite Hlt, Hc', Hc. cbn [andb].
    apply Nat.ltb_lt in Hlt.
    rewrite (IH n content (S pos) text Hnext Hws Htext) by lia. lia.
Qed.

Lemma skip_whitespace_over (content : string) (pos : nat)
  (ws text : string) :
  drop pos content = ws ++ text ->
  all_space ws = true ->
  no_space_ahead text ->
  skip_whitespace content pos = pos + String.length ws
  /\ drop (pos + String.length ws) content = text.
Proof.
  intros H Hws Htext. split; [| apply drop_app; exact H].
  apply (skip_whitespace_loop_over ws _ content pos text H Hws Htext).
  apply le_n.
Qed.

(** ** String literals *)

Lemma unescape_meaning (e : ascii) : unescape e = escape_meaning e.
Proof.
  destruct e as [b0 b1 b2 b3 b4 b5 b6 b7].
  destruct b0, b1, b2, b3, b4, b5, b6, b7; reflexivity.
Qed.

Lemma ascii_eqb_false (a b : ascii) : (a =? b)%char = false <-> a <> b.
Proof.
  split.
  - intros H E. subst. rewrite Ascii.eqb_refl in H. discriminate.
  - intros H. destruct (a =? b)%char eqn:E; [| reflexivity].
    apply Ascii.eqb_eq in E. contradiction.
Qed.

(** A string that [parse_string] returns is the string that the text
    between the quotes denotes. *)
Lemma parse_string_loop_reads (n : nat) :
  forall content pos res s pos',
    parse_string_loop n content pos res = Ok s pos' ->
    exists raw s',
      string_body raw s'
      /\ s = res ++ s'
      /\ drop pos content = raw ++ String dquote (drop pos' content).
Proof.
  induction n as [| n IH]; intros content pos res s pos';
    cbn [parse_string_loop]; [discriminate |].
  destruct (pos <? String.length content) eqn:Hlt; [| discriminate].
  apply Nat.ltb_lt in Hlt. rewrite (drop_char _ _ Hlt).
  destruct (char_at content pos =? dquote)%char eqn:Eq.
  { intros H. inversion H; subst. apply Ascii.eqb_eq in Eq. rewrite Eq.
    exists "", "". split; [constructor |].
    split; [now rewrite append_empty_r | reflexivity]. }
  destruct (char_at content pos =? backslash)%char eqn:Eb.
  - destruct (String.length content <=? S pos) eqn:Hend; [discriminate |].
    apply Nat.leb_gt in Hend.
    rewrite unescape_meaning.
    destruct (escape_meaning (char_at content (S pos))) as [c |] eqn:Ee;
      [| discriminate].
    intros H. destruct (IH _ _ _ _ _ H) as [raw [s' [Hbody [Hs Hdrop]]]].
    apply Ascii.eqb_eq in Eb. rewrite Eb, (drop_char _ _ Hend), Hdrop.
    exists (String backslash (String (char_at content (S pos)) raw)).
    exists (String c s'). split; [constructor; assumption |].
    split; [| reflexivity].
    rewrite Hs, append_assoc. reflexivity.
  - intros H. destruct (IH _ _ _ _ _ H) as [raw [s' [Hbody [Hs Hdrop]]]].
    rewrite Hdrop.
    exists (String (char_at content pos) raw).
    exists (String (char_at content pos) s').
    apply ascii_eqb_false in Eq, Eb.
    split; [constructor; assumption |].
    split; [| reflexivity].
    rewrite Hs, append_assoc. reflexivity.
Qed.

Lemma parse_string_reads (content : string) (pos : nat) (s : string)
  (pos' : nat) :
  pos < String.length content ->
  parse_string content pos = Ok s pos' ->
  exists raw,
    string_body raw s
    /\ drop pos content
       = String dquote (raw ++ String dquote (drop pos' content)).
Proof.
  intros Hlt. unfold parse_string.
  destruct (char_at content pos =? dquote)%char eqn:Eq; cbn [negb];
    [| discriminate].
  intros H. apply parse_string_loop_reads in H.
  destruct H as [raw [s' [Hbody [Hs Hdrop]]]]. cbn [String.append] in Hs.
  subst s'. exists raw. split; [exact Hbody |].
  apply Ascii.eqb_eq in Eq. now rewrite (drop_char _ _ Hlt), Eq, Hdrop.
Qed.

(** A string literal of the grammar is read by [parse_string] as the
    string it denotes. *)
Lemma string_body_parse_loop (raw s : string) :
  string_body raw s ->
  forall content pos n res rest,
    drop pos content = raw ++ String dquote rest ->
    String.length raw < n ->
    exists pos',
      parse_string_loop n content pos res = Ok (res ++ s) pos'
      /\ drop pos' content = rest.
Proof.
  induction 1 as [| c raw s Hq Hb Hbody IH | e c raw s He Hbody IH];
    intros content pos n res rest H Hn;
    (destruct n as [| n]; [cbn [String.length] in Hn; lia |]);
    cbn [String.append String.length] in *;
    destruct (drop_cons _ _ _ _ H) as [Hlt [Hc Hnext]];
    apply Nat.ltb_lt in Hlt; cbn [parse_string_loop]; rewrite Hlt, Hc.
  - rewrite Ascii.eqb_refl, append_empty_r. eauto.
  - apply ascii_eqb_false in Hq, Hb. rewrite Hq, Hb.
    destruct (IH content (S pos) n (res ++ string_of_char c) rest Hnext
                ltac:(lia)) as [pos' [Hloop Hdrop]].
    exists pos'. rewrite Hloop, append_assoc. split; [reflexivity | exact Hdrop].
  - destruct (drop_cons _ _ _ _ Hnext) as [Hlt' [He' Hnext']].
    replace (backslash =? dquote)%char with false by reflexivity.
    rewrite Ascii.eqb_refl.
    replace (String.length content <=? S pos) with false
      by (symmetry; apply Nat.leb_gt; exact Hlt').
    rewrite He', unescape_meaning, He.
    destruct n as [| n]; [lia |].
    destruct (IH content (S (S pos)) (S n) (res ++ string_of_char c) rest
                Hnext' ltac:(lia)) as [pos' [Hloop Hdrop]].
    exists pos'. cbn [parse_string_loop] in *.
    rewrite Hloop, append_assoc. split; [reflexivity | exact Hdrop].
Qed.

Lemma string_body_parse (raw s : string) (content : string) (pos : nat)
  (rest : string) :
  string_body raw s ->
  drop pos content = String dquote (raw ++ String dquote rest) ->
  exists pos',
    parse_string content pos = Ok s pos' /\ drop pos' content = rest.
Proof.
  intros Hbody H.
  destruct (drop_cons _ _ _ _ H) as [Hlt [Hc Hnext]].
  unfold parse_string. rewrite Hc, Ascii.eqb_refl. cbn [negb].
  apply (string_body_parse_loop raw s Hbody content (S pos) _ "" rest Hnext).
  pose proof (drop_length content (S pos)) as Hlen.
  rewrite Hnext, append_length in Hlen. cbn [String.length] in Hlen. lia.
Qed.

(** ** Number lexemes *)

Lemma char_at_drop (content : string) (pos : nat) :
  char_at content pos
  = match drop pos content with
    | String c _ => c
    | EmptyString => Ascii.zero
    end.
Proof.
  destruct (Nat.lt_ge_cases pos (String.length content)) as [Hlt | Hge].
  - now rewrite (drop_char _ _ Hlt).
  - rewrite (drop_past_end _ _ Hge). now apply char_at_past_end.
Qed.

(** A test of the character under the cursor, guarded by the end of the
    text, is a test of the first unread character. *)
Lemma peek_drop (f : ascii -> bool) (content : string) (pos : nat) :
  (pos <? String.length content) && f (char_at content pos)
  = match drop pos content with
    | String c _ => f c
    | EmptyString => false
    end.
Proof.
  destruct (Nat.lt_ge_cases pos (String.length content)) as [Hlt | Hge].
  - rewrite (drop_char _ _ Hlt).
    apply Nat.ltb_lt in Hlt. now rewrite Hlt.
  - rewrite (drop_past_end _ _ Hge).
    apply Nat.ltb_ge in Hge. now rewrite Hge.
Qed.

Lemma skip_digits_drop (content : string) (pos : nat)
  (digits text : string) :
  drop pos content = digits ++ text ->
  all_digits digits = true ->
  no_digit_ahead text = true ->
  skip_digits content pos = pos + String.length digits
  /\ drop (pos + String.length digits) content = text.
Proof.
  intros H Hd Ht. split.
  - apply (skip_digits_over content digits text pos H Hd Ht).
  - apply drop_app. exact H.
Qed.

Lemma digit_run (s : string) :
  exists digits text,
    s = digits ++ text
    /\ all_digits digits = true
    /\ no_digit_ahead text = true.
Proof.
  induction s as [| c s IH].
  - exists "", "". repeat split.
  - destruct (isdigit c) eqn:E.
    + destruct IH as [digits [text [Hs [Hd Ht]]]].
      exists (String c digits), text. cbn [String.append all_digits].
      rewrite E, Hd, <- Hs. repeat split. exact Ht.
    + exists "", (String c s). cbn. rewrite E. repeat split.
Qed.

Lemma scan_digits_run (digits : string) :
  forall text acc n,
    all_digits digits = true ->
    no_digit_ahead text = true ->
    scan_digits (digits ++ text) acc n
    = (digits_value acc digits, n + String.length digits, text).
Proof.
  induction digits as [| c digits IH]; intros text acc n Hd Ht.
  - cbn [String.append digits_value String.length].
    rewrite Nat.add_0_r. destruct text as [| c text]; [reflexivity |].
    cbn in *. apply negb_true_iff in Ht. now rewrite Ht.
  - cbn [all_digits] in Hd. apply andb_true_iff in Hd.
    destruct Hd as [Hc Hd].
    cbn [String.append scan_digits digits_value String.length].
    rewrite Hc, (IH text _ _ Hd Ht). f_equal. f_equal. lia.
Qed.

Lemma digits_value_app (a b : string) (acc : Z) :
  digits_value acc (a ++ b) = digits_value (digits_value acc a) b.
Proof.
  revert acc. induction a as [| c a IH]; intros acc; [reflexivity |].
  cbn [String.append digits_value]. apply IH.
Qed.

Lemma contains_char_app (c : ascii) (a b : string) :
  contains_char c (a ++ b) = contains_char c a || contains_char c b.
Proof.
  induction a as [| x a IH]; cbn [String.append contains_char];
    [reflexivity |].
  now rewrite IH, orb_assoc.
Qed.

Lemma digits_contain_no (c : ascii) (digits : string) :
  isdigit c = false ->
  all_digits digits = true -> contains_char c digits = false.
Proof.
  intros Hc. induction digits as [| x digits IH]; intros H; [reflexivity |].
  cbn [all_digits contains_char] in *.
  apply andb_true_iff in H. destruct H as [Hx H].
  rewrite (IH H), orb_false_r.
  destruct (x =? c)%char eqn:E; [| reflexivity].
  apply Ascii.eqb_eq in E. congruence.
Qed.

Ltac split_well_formed H :=
  unfold lexeme_well_formed in H;
  apply andb_true_iff in H;
  let Hi := fresh "Hint" in
  let Hf := fresh "Hfrac" in
  let He := fresh "Hexp" in
  destruct H as [H He]; apply andb_true_iff in H; destruct H as [Hi Hf].

(** A lexeme holds a point or an exponent mark exactly when it has a
    fraction or an exponent. *)
Lemma lexeme_is_floating (l : number_lexeme) :
  lexeme_well_formed l = true ->
  is_floating_lexeme (lexeme_text l)
  = match lex_frac l, lex_exp l with
    | None, None => false
    | _, _ => true
    end.
Proof.
  intros Hwf. split_well_formed Hwf.
  destruct l as [minus ip frac exp]. cbn [lex_minus lex_int lex_frac lex_exp]
    in *.
  unfold is_floating_lexeme, lexeme_text.
  cbn [lex_minus lex_int lex_frac lex_exp].
  rewrite !contains_char_app.
  rewrite !(digits_contain_no _ ip) by (reflexivity || exact Hint).
  replace (contains_char "." (if minus then "-" else "")) with false
    by (destruct minus; reflexivity).
  replace (contains_char "e" (if minus then "-" else "")) with false
    by (destruct minus; reflexivity).
  replace (contains_char "E" (if minus then "-" else "")) with false
    by (destruct minus; reflexivity).
  cbn [orb].
  destruct frac as [fd |]; cbn [frac_text contains_char Ascii.eqb Bool.eqb orb].
  - reflexivity.
  - destruct exp as [[[mark sign] ed] |]; [| reflexivity].
    apply andb_true_iff in Hexp. destruct Hexp as [Hmark _].
    cbn [exp_text contains_char].
    apply orb_true_iff in Hmark. destruct Hmark as [Hm | Hm];
      apply Ascii.eqb_eq in Hm; subst mark;
      cbn [Ascii.eqb Bool.eqb orb]; rewrite ?orb_true_r; reflexivity.
Qed.

Lemma no_digit_ahead_app (a b : string) :
  a <> "" -> no_digit_ahead a = true -> no_digit_ahead (a ++ b) = true.
Proof. destruct a; [congruence | intros _ H; exact H]. Qed.

(** The text behind the digits before the point: the fraction, the
    exponent and what follows the lexeme. *)
Lemma frac_exp_no_digit_ahead (l : number_lexeme) (rest : string) :
  lexeme_well_formed l = true ->
  lexeme_stops l rest = true ->
  no_digit_ahead (frac_text (lex_frac l) ++ exp_text (lex_exp l) ++ rest)
  = true.
Proof.
  intros Hwf Hstop. split_well_formed Hwf.
  destruct (lex_frac l) as [fd |]; [reflexivity |].
  destruct (lex_exp l) as [[[mark sign] ed] |].
  - apply andb_true_iff in Hexp. destruct Hexp as [Hmark _].
    cbn [frac_text exp_text String.append no_digit_ahead].
    apply orb_true_iff in Hmark. destruct Hmark as [Hm | Hm];
      apply Ascii.eqb_eq in Hm; subst mark; reflexivity.
  - cbn [frac_text exp_text String.append].
    destruct rest as [| c rest]; [reflexivity |].
    cbn [lexeme_stops no_digit_ahead] in *.
    apply andb_true_iff in Hstop. tauto.
Qed.

Lemma stops_no_digit_ahead (l : number_lexeme) (rest : string) :
  lexeme_stops l rest = true -> no_digit_ahead rest = true.
Proof.
  destruct rest as [| c rest]; [reflexivity |].
  cbn [lexeme_stops no_digit_ahead]. intros H.
  apply andb_true_iff in H. tauto.
Qed.

(** [scan_number] reads exactly the lexeme. *)
Lemma scan_number_lexeme (content : string) (pos : nat)
  (l : number_lexeme) (rest : string) :
  drop pos content = lexeme_text l ++ rest ->
  lexeme_well_formed l = true ->
  lex_minus l = true \/ lex_int l <> "" ->
  lexeme_stops l rest = true ->
  scan_number content pos = pos + String.length (lexeme_text l).
Proof.
  intros H Hwf Hfirst Hstop.
  pose proof (frac_exp_no_digit_ahead l rest Hwf Hstop) as Hahead.
  pose proof (stops_no_digit_ahead l rest Hstop) as Hrest.
  split_well_formed Hwf.
  destruct l as [minus ip frac exp].
  cbn [lex_minus lex_int lex_frac lex_exp] in *.
  unfold lexeme_text in *. cbn [lex_minus lex_int lex_frac lex_exp] in *.
  rewrite !append_length. rewrite !append_assoc in H.
  unfold scan_number.
  (* the sign *)
  set (p1 := if (char_at content pos =? "-")%char then S pos else pos).
  assert (H1 : p1 = pos + String.length (if minus then "-" else "")
               /\ drop p1 content
                  = ip ++ frac_text frac ++ exp_text exp ++ rest).
  { unfold p1. rewrite char_at_drop, H. destruct minus.
    - cbn [String.append Ascii.eqb Bool.eqb String.length].
      split; [lia |]. cbn [String.append] in H.
      destruct (drop_cons _ _ _ _ H) as [_ [_ Hnext]]. exact Hnext.
    - cbn [String.append String.length]. rewrite Nat.add_0_r.
      destruct Hfirst as [Hm | Hip]; [discriminate |].
      destruct ip as [| c ip]; [congruence |].
      cbn [String.append all_digits] in *.
      apply andb_true_iff in Hint. destruct Hint as [Hc _].
      destruct (isdigit_not_sign c Hc) as [Hminus _]. rewrite Hminus.
      split; [reflexivity | exact H]. }
  destruct H1 as [Hp1 H1]. clearbody p1.
  (* the digits before the point *)
  destruct (skip_digits_drop content p1 ip _ H1 Hint Hahead) as [Hp2 H2].
  rewrite Hp2. clear Hp2.
  remember (p1 + String.length ip) as p2 eqn:Hp2.
  (* the fraction *)
  set (p3 := if (p2 <? String.length content)
                && (char_at content p2 =? ".")%char
             then skip_digits content (S p2) else p2).
  assert (H3 : p3 = p2 + String.length (frac_text frac)
               /\ drop p3 content = exp_text exp ++ rest).
  { unfold p3.
    rewrite (peek_drop (fun c => (c =? ".")%char) content p2), H2.
    destruct frac as [fd |]; cbn [frac_text String.append].
    - cbn [Ascii.eqb Bool.eqb]. cbn [frac_text String.append] in H2.
      destruct (drop_cons _ _ _ _ H2) as [_ [_ Hnext]].
      assert (Hx : no_digit_ahead (exp_text exp ++ rest) = true).
      { destruct exp as [[[mark sign] ed] |]; [| exact Hrest].
        apply andb_true_iff in Hexp. destruct Hexp as [Hmark _].
        apply orb_true_iff in Hmark. destruct Hmark as [Hm | Hm];
          apply Ascii.eqb_eq in Hm; subst mark; reflexivity. }
      destruct (skip_digits_drop content (S p2) fd _ Hnext Hfrac Hx)
        as [Hp Hd].
      rewrite Hp. cbn [String.length].
      replace (p2 + S (String.length fd)) with (S p2 + String.length fd)
        by lia.
      split; [reflexivity | exact Hd].
    - cbn [String.length]. rewrite Nat.add_0_r.
      cbn [frac_text String.append] in H2.
      destruct exp as [[[mark sign] ed] |].
      + apply andb_true_iff in Hexp. destruct Hexp as [Hmark _].
        cbn [exp_text String.append].
        apply orb_true_iff in Hmark. destruct Hmark as [Hm | Hm];
          apply Ascii.eqb_eq in Hm; subst mark;
          (split; [reflexivity | exact H2]).
      + cbn [exp_text String.append] in *.
        destruct rest as [| c rest]; [split; [reflexivity | exact H2] |].
        cbn [lexeme_stops lex_frac lex_exp] in Hstop.
        apply andb_true_iff in Hstop. destruct Hstop as [_ Hstop].
        apply andb_true_iff in Hstop. destruct Hstop as [Hstop _].
        apply andb_true_iff in Hstop. destruct Hstop as [Hstop _].
        apply negb_true_iff in Hstop. rewrite Hstop.
        split; [reflexivity | exact H2]. }
  destruct H3 as [Hp3 H3]. clearbody p3.
  (* the exponent *)
  rewrite (peek_drop (fun c => ((c =? "e") || (c =? "E"))%char) content p3),
    H3.
  destruct exp as [[[mark sign] ed] |]; cbn [exp_text String.append].
  - apply andb_true_iff in Hexp. destruct Hexp as [Hmark Hed].
    rewrite Hmark. cbn [exp_text String.append] in H3.
    destruct (drop_cons _ _ _ _ H3) as [_ [_ Hnext]].
    rewrite (peek_drop (fun c => ((c =? "+") || (c =? "-"))%char)
               content (S p3)), Hnext.
    cbn [String.length]. rewrite append_length.
    destruct sign; cbn [sign_text String.append String.length] in *.
    + assert (Hno : match ed ++ rest with
                    | String c _ => ((c =? "+") || (c =? "-"))%char
                    | EmptyString => false
                    end = false).
      { destruct ed as [| c ed].
        - cbn [String.append].
          destruct rest as [| c rest]; [reflexivity |].
          cbn [lexeme_stops lex_frac lex_exp] in Hstop.
          apply andb_true_iff in Hstop. destruct Hstop as [_ Hstop].
          destruct frac;
            apply andb_true_iff in Hstop; destruct Hstop as [Hplus Hminus];
            apply negb_true_iff in Hplus, Hminus; now rewrite Hplus, Hminus.
        - cbn [String.append all_digits] in *.
          apply andb_true_iff in Hed. destruct Hed as [Hc _].
          destruct (isdigit_not_sign c Hc) as [Hm [Hp _]].
          now rewrite Hm, Hp. }
      rewrite Hno.
      destruct (skip_digits_drop content (S p3) ed rest Hnext Hed Hrest)
        as [Hp _].
      rewrite Hp. lia.
    + cbn [Ascii.eqb Bool.eqb orb].
      destruct (drop_cons _ _ _ _ Hnext) as [_ [_ Hnext']].
      destruct (skip_digits_drop content (S (S p3)) ed rest Hnext' Hed Hrest)
        as [Hp _].
      rewrite Hp. lia.
    + cbn [Ascii.eqb Bool.eqb orb].
      destruct (drop_cons _ _ _ _ Hnext) as [_ [_ Hnext']].
      destruct (skip_digits_drop content (S (S p3)) ed rest Hnext' Hed Hrest)
        as [Hp _].
      rewrite Hp. lia.
  - cbn [String.length].
    assert (Hno : match rest with
                  | String c _ => ((c =? "e") || (c =? "E"))%char
                  | EmptyString => false
                  end = false).
    { destruct rest as [| c rest]; [reflexivity |].
      cbn [lexeme_stops lex_frac lex_exp] in Hstop.
      apply andb_true_iff in Hstop. destruct Hstop as [_ Hstop].
      destruct frac.
      - apply andb_true_iff in Hstop. destruct Hstop as [He HE].
        apply negb_true_iff in He, HE. now rewrite He, HE.
      - apply andb_true_iff in Hstop. destruct Hstop as [Hstop HE].
        apply andb_true_iff in Hstop. destruct Hstop as [_ He].
        apply negb_true_iff in He, HE. now rewrite He, HE. }
    rewrite Hno. lia.
Qed.

(** The conversions read the sign and the digits of a lexeme. *)
Lemma scan_sign_lexeme (minus : bool) (ip tail : string) :
  all_digits ip = true ->
  match tail with
  | String c _ =>
      isspace c = false /\ (c =? "-")%char = false
      /\ (c =? "+")%char = false
  | EmptyString => True
  end ->
  scan_sign (skip_spaces ((if minus then "-" else "") ++ ip ++ tail))
  = (minus, ip ++ tail).
Proof.
  intros Hip Htail. destruct minus; [reflexivity |].
  cbn [String.append]. destruct ip as [| c ip].
  - cbn [String.append]. destruct tail as [| c tail]; [reflexivity |].
    destruct Htail as [Hsp [Hm Hp]]. cbn [skip_spaces]. rewrite Hsp.
    destruct c as [b0 b1 b2 b3 b4 b5 b6 b7].
    destruct b0, b1, b2, b3, b4, b5, b6, b7; try reflexivity; discriminate.
  - cbn [String.append all_digits skip_spaces] in *.
    apply andb_true_iff in Hip. destruct Hip as [Hc _].
    destruct (isdigit_not_sign c Hc) as [_ [_ Hsp]]. rewrite Hsp.
    apply scan_sign_digit. exact Hc.
Qed.

Lemma frac_exp_head (l : number_lexeme) :
  lexeme_well_formed l = true ->
  match frac_text (lex_frac l) ++ exp_text (lex_exp l) with
  | String c _ =>
      isspace c = false /\ (c =? "-")%char = false
      /\ (c =? "+")%char = false
  | EmptyString => True
  end.
Proof.
  intros Hwf. split_well_formed Hwf.
  destruct (lex_frac l) as [fd |]; [repeat split |].
  destruct (lex_exp l) as [[[mark sign] ed] |]; [| exact I].
  apply andb_true_iff in Hexp. destruct Hexp as [Hmark _].
  cbn [frac_text exp_text String.append].
  apply orb_true_iff in Hmark. destruct Hmark as [Hm | Hm];
    apply Ascii.eqb_eq in Hm; subst mark; repeat split.
Qed.

Lemma digits_empty_length (digits : string) :
  String.length digits = 0 -> digits = "".
Proof. destruct digits; [reflexivity | discriminate]. Qed.

(** [std::stoi] of a lexeme without fraction and exponent. *)
Lemma stoi_lexeme (l : number_lexeme) :
  lexeme_well_formed l = true ->
  lex_frac l = None -> lex_exp l = None ->
  option_map JSONValue_int (stoi (lexeme_text l)) = lexeme_value l.
Proof.
  intros Hwf Hf He. pose proof (frac_exp_head l Hwf) as Hhead.
  split_well_formed Hwf.
  destruct l as [minus ip frac exp].
  cbn [lex_minus lex_int lex_frac lex_exp] in *. subst frac exp.
  unfold stoi, lexeme_text, lexeme_value, lexeme_mantissa.
  cbn [lex_minus lex_int lex_frac lex_exp frac_text exp_text] in *.
  rewrite (scan_sign_lexeme minus ip ("" ++ "") Hint Hhead).
  cbn [String.append]. rewrite !append_empty_r.
  pose proof (scan_digits_run ip "" 0%Z 0 Hint eq_refl) as Hscan.
  rewrite append_empty_r in Hscan. rewrite Hscan. cbn [Nat.add].
  destruct ip as [| c ip]; [reflexivity |].
  cbn [String.length].
  destruct (in_int_range _); reflexivity.
Qed.

Lemma scan_exponent_lexeme (exp : option (ascii * exponent_sign * string)) :
  match exp with
  | Some (mark, _, digits) =>
      ((mark =? "e") || (mark =? "E"))%char && all_digits digits
  | None => true
  end = true ->
  scan_exponent (exp_text exp)
  = match exp with
    | Some (_, _, EmptyString) | None => 0
    | Some (_, MinusSign, digits) => - digits_value 0 digits
    | Some (_, _, digits) => digits_value 0 digits
    end%Z.
Proof.
  destruct exp as [[[mark sign] ed] |]; [| reflexivity].
  intros H. apply andb_true_iff in H. destruct H as [Hmark Hed].
  cbn [exp_text scan_exponent]. rewrite Hmark.
  pose proof (scan_digits_run ed "" 0%Z 0 Hed eq_refl) as Hscan.
  rewrite append_empty_r in Hscan.
  destruct sign; cbn [sign_text String.append].
  - destruct ed as [| c ed]; [reflexivity |].
    cbn [all_digits] in Hed. apply andb_true_iff in Hed.
    destruct Hed as [Hc _].
    rewrite (scan_sign_digit c ed Hc), Hscan. reflexivity.
  - cbn [scan_sign]. rewrite Hscan.
    destruct ed; reflexivity.
  - cbn [scan_sign]. rewrite Hscan.
    destruct ed; reflexivity.
Qed.

(** [std::stod] of a lexeme with a fraction or an exponent. *)
Lemma stod_lexeme (l : number_lexeme) :
  lexeme_well_formed l = true ->
  stod (lexeme_text l)
  = match lexeme_mantissa l with
    | EmptyString => None
    | String _ _ =>
        strtod_result (lex_minus l)
          (digits_value 0 (lexeme_mantissa l)) (lexeme_exponent l)
    end.
Proof.
  intros Hwf. pose proof (frac_exp_head l Hwf) as Hhead.
  split_well_formed Hwf.
  destruct l as [minus ip frac exp].
  cbn [lex_minus lex_int lex_frac lex_exp] in *.
  unfold stod, lexeme_text, lexeme_mantissa, lexeme_exponent.
  cbn [lex_minus lex_int lex_frac lex_exp] in *.
  rewrite (scan_sign_lexeme minus ip (frac_text frac ++ exp_text exp)
             Hint Hhead).
  assert (Hahead : no_digit_ahead (frac_text frac ++ exp_text exp) = true).
  { destruct frac as [fd |]; [reflexivity |].
    destruct exp as [[[mark sign] ed] |]; [| reflexivity].
    apply andb_true_iff in Hexp. destruct Hexp as [Hmark _].
    cbn [frac_text exp_text String.append].
    apply orb_true_iff in Hmark. destruct Hmark as [Hm | Hm];
      apply Ascii.eqb_eq in Hm; subst mark; reflexivity. }
  rewrite (scan_digits_run ip _ 0%Z 0 Hint Hahead). cbn [Nat.add].
  assert (Hexp_ahead : no_digit_ahead (exp_text exp) = true).
  { destruct exp as [[[mark sign] ed] |]; [| reflexivity].
    apply andb_true_iff in Hexp. destruct Hexp as [Hmark _].
    apply orb_true_iff in Hmark. destruct Hmark as [Hm | Hm];
      apply Ascii.eqb_eq in Hm; subst mark; reflexivity. }
  destruct frac as [fd |]; cbn [frac_text String.append].
  - rewrite (scan_digits_run fd _ _ 0 Hfrac Hexp_ahead). cbn [Nat.add].
    rewrite (scan_exponent_lexeme exp Hexp), digits_value_app.
    destruct ip as [| c ip]; cbn [String.append String.length Nat.add].
    + destruct fd as [| c fd]; reflexivity.
    + reflexivity.
  - assert (Hnot : forall s3,
               exp_text exp = s3 ->
               match s3 with
               | String "." s2' =>
                   scan_digits s2' (digits_value 0 ip) 0
               | _ => (digits_value 0 ip, 0, s3)
               end = (digits_value 0 ip, 0, s3)).
    { intros s3 <-. destruct exp as [[[mark sign] ed] |]; [| reflexivity].
      apply andb_true_iff in Hexp. destruct Hexp as [Hmark _].
      apply orb_true_iff in Hmark. destruct Hmark as [Hm | Hm];
        apply Ascii.eqb_eq in Hm; subst mark; reflexivity. }
    rewrite (Hnot _ eq_refl), (scan_exponent_lexeme exp Hexp).
    rewrite append_empty_r, Nat.add_0_r.
    destruct ip as [| c ip]; reflexivity.
Qed.

(** What [parse_number] returns for a lexeme: its value, or the failure
    "Invalid number" when it has none. *)
Lemma parse_number_lexeme (content : string) (pos : nat)
  (l : number_lexeme) (rest : string) :
  drop pos content = lexeme_text l ++ rest ->
  lexeme_well_formed l = true ->
  lex_minus l = true \/ lex_int l <> "" ->
  lexeme_stops l rest = true ->
  exists pos',
    drop pos' content = rest
    /\ parse_number content pos
       = match lexeme_value l with
         | Some v => Ok v pos'
         | None => Throw ("Invalid number: " ++ lexeme_text l)
         end.
Proof.
  intros H Hwf Hfirst Hstop.
  exists (pos + String.length (lexeme_text l)).
  split; [apply drop_app; exact H |].
  unfold parse_number.
  rewrite (scan_number_lexeme content pos l rest H Hwf Hfirst Hstop).
  replace (pos + String.length (lexeme_text l) - pos)
    with (String.length (lexeme_text l)) by lia.
  rewrite (drop_substr content pos _ _ H).
  rewrite (lexeme_is_floating l Hwf).
  destruct (lex_frac l) as [fd |] eqn:Ef.
  - rewrite (stod_lexeme l Hwf). unfold lexeme_value. rewrite Ef.
    destruct (lexeme_mantissa l); [reflexivity |].
    destruct (strtod_result _ _ _); reflexivity.
  - destruct (lex_exp l) as [ex |] eqn:Ee.
    + rewrite (stod_lexeme l Hwf). unfold lexeme_value. rewrite Ef, Ee.
      destruct (lexeme_mantissa l); [reflexivity |].
      destruct (strtod_result _ _ _); reflexivity.
    + rewrite <- (stoi_lexeme l Hwf Ef Ee).
      destruct (stoi (lexeme_text l)); reflexivity.
Qed.

(** Every text that starts with a digit or a minus sign starts with a
    lexeme, which stops where the text goes on. *)
Lemma lexeme_exists (c : ascii) (text : string) :
  isdigit c || (c =? "-")%char = true ->
  exists l rest,
    String c text = lexeme_text l ++ rest
    /\ lexeme_well_formed l = true
    /\ (lex_minus l = true \/ lex_int l <> "")
    /\ lexeme_stops l rest = true.
Proof.
  intros Hc.
  (* the sign and the digits before the point *)
  assert (H1 : exists (minus : bool) (ip t1 : string),
             String c text = (if minus then "-" else "") ++ ip ++ t1
             /\ all_digits ip = true /\ no_digit_ahead t1 = true
             /\ (minus = true \/ ip <> "")).
  { destruct (c =? "-")%char eqn:Em.
    - apply Ascii.eqb_eq in Em. subst c.
      destruct (digit_run text) as [ip [t1 [Ht [Hip Ht1]]]].
      exists true, ip, t1. rewrite Ht. repeat split; auto.
    - rewrite orb_false_r in Hc.
      destruct (digit_run text) as [ip [t1 [Ht [Hip Ht1]]]].
      exists false, (String c ip), t1. rewrite Ht.
      cbn [String.append all_digits]. rewrite Hc, Hip.
      repeat split; [exact Ht1 | right; discriminate]. }
  destruct H1 as [minus [ip [t1 [Htext [Hip [Ht1 Hfirst]]]]]].
  rewrite Htext. clear Htext Hc c text.
  (* the fraction *)
  assert (H2 : exists frac t2,
             t1 = frac_text frac ++ t2
             /\ match frac with
                | Some fd => all_digits fd = true
                | None => True
                end
             /\ no_digit_ahead t2 = true
             /\ (frac = None ->
                 match t2 with
                 | String x _ => (x =? ".")%char = false
                 | EmptyString => True
                 end)).
  { destruct t1 as [| x t1].
    - exists None, "". repeat split.
    - destruct (x =? ".")%char eqn:Ex.
      + apply Ascii.eqb_eq in Ex. subst x.
        destruct (digit_run t1) as [fd [t2 [Ht [Hfd Ht2]]]].
        exists (Some fd), t2. rewrite Ht.
        repeat split; [exact Hfd | exact Ht2 | discriminate].
      + exists None, (String x t1). repeat split; [exact Ht1 |].
        intros _. exact Ex. }
  destruct H2 as [frac [t2 [Ht [Hfrac [Ht2 Hnopoint]]]]]. subst t1.
  (* the exponent *)
  assert (H3 : exists exp rest,
             t2 = exp_text exp ++ rest
             /\ match exp with
                | Some (mark, _, digits) =>
                    ((mark =? "e") || (mark =? "E"))%char
                    && all_digits digits
                | None => true
                end = true
             /\ lexeme_stops (mkLexeme minus ip frac exp) rest = true).
  { destruct t2 as [| x t2].
    - exists None, "". repeat split.
    - destruct ((x =? "e") || (x =? "E"))%char eqn:Ex.
      + assert (Hs : exists sign t3,
                   t2 = sign_text sign ++ t3
                   /\ (sign = NoSign ->
                       match t3 with
                       | String y _ =>
                           (y =? "+")%char = false
                           /\ (y =? "-")%char = false
                       | EmptyString => True
                       end)).
        { destruct t2 as [| y t2]; [exists NoSign, ""; repeat split |].
          destruct (y =? "+")%char eqn:Ep.
          - apply Ascii.eqb_eq in Ep. subst y.
            exists PlusSign, t2. split; [reflexivity | discriminate].
          - destruct (y =? "-")%char eqn:Em.
            + apply Ascii.eqb_eq in Em. subst y.
              exists MinusSign, t2. split; [reflexivity | discriminate].
            + exists NoSign, (String y t2). split; [reflexivity |].
              intros _. split; assumption. }
        destruct Hs as [sign [t3 [Ht Hnosign]]]. subst t2.
        destruct (digit_run t3) as [ed [rest [Ht [Hed Hrest]]]]. subst t3.
        exists (Some (x, sign, ed)), rest.
        cbn [exp_text String.append]. rewrite append_assoc, Ex, Hed.
        repeat split.
        destruct rest as [| y rest]; [reflexivity |].
        cbn [lexeme_stops lex_frac lex_exp no_digit_ahead] in *.
        rewrite Hrest. cbn [andb].
        destruct sign; try (destruct frac; reflexivity).
        destruct ed as [| z ed]; [| destruct frac; reflexivity].
        destruct (Hnosign eq_refl) as [Hp Hm]. rewrite Hp, Hm.
        destruct frac; reflexivity.
      + exists None, (String x t2). repeat split.
        cbn [lexeme_stops lex_frac lex_exp no_digit_ahead] in *.
        rewrite Ht2. apply orb_false_iff in Ex. destruct Ex as [He HE].
        rewrite He, HE. cbn [andb negb].
        destruct frac as [fd |]; [reflexivity |].
        now rewrite (Hnopoint eq_refl). }
  destruct H3 as [exp [rest [Ht [Hexp Hstop]]]]. subst t2.
  exists (mkLexeme minus ip frac exp), rest.
  unfold lexeme_text, lexeme_well_formed.
  cbn [lex_minus lex_int lex_frac lex_exp].
  rewrite !append_assoc, Hip, Hexp.
  repeat split; [| exact Hfirst | exact Hstop].
  destruct frac as [fd |]; [now rewrite Hfrac | reflexivity].
Qed.

(** ** Reading back a double *)

Lemma same_double_eq (a b : double) : same_double a b = true -> a = b.
Proof.
  destruct a as [s | s | | s m e], b as [s' | s' | | s' m' e'];
    cbn [same_double]; try discriminate; intros H.
  - apply Bool.eqb_prop in H. now subst.
  - apply Bool.eqb_prop in H. now subst.
  - reflexivity.
  - apply andb_true_iff in H. destruct H as [H He].
    apply andb_true_iff in H. destruct H as [Hs Hm].
    apply Bool.eqb_prop in Hs. apply Pos.eqb_eq in Hm.
    apply Z.eqb_eq in He. now subst.
Qed.

(** The value of a lexeme with a fraction or an exponent is what
    [std::stod] makes of its text. *)
Lemma lexeme_value_floating (l : number_lexeme) :
  lexeme_well_formed l = true ->
  lex_frac l <> None \/ lex_exp l <> None ->
  lexeme_value l = option_map JSONValue_double (stod (lexeme_text l)).
Proof.
  intros Hwf Hfl. rewrite (stod_lexeme l Hwf). unfold lexeme_value.
  destruct (lexeme_mantissa l); [reflexivity |].
  destruct (lex_frac l); [reflexivity |].
  destruct (lex_exp l); [reflexivity |].
  destruct Hfl as [H | H]; elim H; reflexivity.
Qed.

(** The text of a finite double is a lexeme with a fraction. *)
Lemma to_string_double_shape (d : double) :
  match d with
  | S754_zero _ | S754_finite _ _ _ => True
  | _ => False
  end ->
  exists l fd,
    to_string_double d = lexeme_text l
    /\ lexeme_well_formed l = true
    /\ (lex_minus l = true \/ lex_int l <> "")
    /\ lex_frac l = Some fd
    /\ lex_exp l = None.
Proof.
  intros Hfinite.
  destruct d as [s | s | | s m e]; try contradiction.
  - exists (mkLexeme s "0" (Some "000000") None), "000000".
    destruct s; repeat split; right; discriminate.
  - cbn [to_string_double].
    set (n := if (0 <=? e)%Z then (Z.pos m * 2 ^ e * 1000000)%Z
              else div_round_even (Z.pos m * 1000000) (2 ^ (- e))).
    exists (mkLexeme s (dec_string (n / 1000000))
              (Some (frac6 (n mod 1000000))) None).
    exists (frac6 (n mod 1000000)).
    unfold lexeme_text, lexeme_well_formed.
    cbn [lex_minus lex_int lex_frac lex_exp frac_text exp_text].
    assert (Hip : all_digits (dec_string (n / 1000000)) = true)
      by (apply dec_digits_all_digits; reflexivity).
    assert (Hfd : all_digits (frac6 (n mod 1000000)) = true).
    { unfold frac6. cbn [all_digits].
      rewrite !digit_char_mod_isdigit. reflexivity. }
    rewrite Hip, Hfd.
    split; [now rewrite append_empty_r |].
    split; [reflexivity |].
    split; [| split; reflexivity].
    right. unfold dec_string.
    destruct (dec_digits_head (Z.to_nat (Z.log2 (n / 1000000)))
                (n / 1000000) "") as [c [rest [Hhead _]]].
    rewrite Hhead. discriminate.
Qed.

Lemma six_decimals_exact_stod (d : double) :
  six_decimals_exact d = true <->
  match d with
  | S754_zero _ | S754_finite _ _ _ => True
  | _ => False
  end
  /\ stod (to_string_double d) = Some d.
Proof.
  assert (Hrefl : forall x, same_double x x = true).
  { intros [s | s | | s m e]; cbn [same_double];
      rewrite ?Bool.eqb_reflx, ?Pos.eqb_refl, ?Z.eqb_refl; reflexivity. }
  unfold six_decimals_exact. split.
  - destruct d; try discriminate;
      (destruct (stod _) as [d' |]; [| discriminate]);
      intros H; apply same_double_eq in H; subst; split; trivial.
  - intros [Hfinite Hstod]. destruct d; try contradiction;
      rewrite Hstod; apply Hrefl.
Qed.

(** The text of a double with exact six decimals is a lexeme with a
    fraction, whose value is the double. *)
Lemma to_string_double_lexeme (d : double) :
  six_decimals_exact d = true ->
  exists l fd,
    to_string_double d = lexeme_text l
    /\ lexeme_well_formed l = true
    /\ (lex_minus l = true \/ lex_int l <> "")
    /\ lex_frac l = Some fd
    /\ lex_exp l = None
    /\ lexeme_value l = Some (JSONValue_double d).
Proof.
  intros Hexact. apply six_decimals_exact_stod in Hexact.
  destruct Hexact as [Hfinite Hstod].
  destruct (to_string_double_shape d Hfinite)
    as [l [fd [Htext [Hwf [Hfirst [Hfrac Hexp]]]]]].
  exists l, fd. repeat split; try assumption.
  rewrite (lexeme_value_floating l Hwf)
    by (left; rewrite Hfrac; discriminate).
  now rewrite <- Htext, Hstod.
Qed.

Lemma lexeme_text_first (l : number_lexeme) (rest : string) :
  lexeme_well_formed l = true ->
  lex_minus l = true \/ lex_int l <> "" ->
  exists c text,
    lexeme_text l ++ rest = String c text
    /\ isdigit c || (c =? "-")%char = true.
Proof.
  intros Hwf Hfirst. split_well_formed Hwf. unfold lexeme_text.
  destruct (lex_minus l).
  - cbn [String.append]. eexists. eexists. split; reflexivity.
  - destruct Hfirst as [Hm | Hip]; [discriminate |].
    destruct (lex_int l) as [| c ip]; [congruence |].
    cbn [String.append all_digits] in *.
    apply andb_true_iff in Hint. destruct Hint as [Hc _].
    eexists. eexists. split; [reflexivity |]. now rewrite Hc.
Qed.

Lemma parse_number_double (content : string) (pos : nat) (d : double)
  (suffix : string) :
  drop pos content = to_string_double d ++ suffix ->
  six_decimals_exact d = true ->
  ends_number suffix = true ->
  exists pos',
    parse_number content pos = Ok (JSONValue_double d) pos'
    /\ drop pos' content = suffix.
Proof.
  intros H Hexact Hend.
  destruct (to_string_double_lexeme d Hexact)
    as [l [fd [Htext [Hwf [Hfirst [Hfrac [Hexp Hvalue]]]]]]].
  rewrite Htext in H.
  assert (Hstop : lexeme_stops l suffix = true).
  { destruct suffix as [| c suffix]; [reflexivity |].
    cbn [lexeme_stops ends_number] in *. rewrite Hfrac, Hexp.
    apply andb_true_iff in Hend. destruct Hend as [Hend HE].
    apply andb_true_iff in Hend. destruct Hend as [Hend He].
    apply andb_true_iff in Hend. destruct Hend as [Hd _].
    now rewrite Hd, He, HE. }
  destruct (parse_number_lexeme content pos l suffix H Hwf Hfirst Hstop)
    as [pos' [Hrest Hparse]].
  rewrite Hvalue in Hparse. eauto.
Qed.

Lemma to_string_double_head (d : double) :
  six_decimals_exact d = true ->
  exists c rest,
    to_string_double d = String c rest
    /\ isdigit c || (c =? "-")%char = true.
Proof.
  intros Hexact.
  destruct (to_string_double_lexeme d Hexact)
    as [l [fd [Htext [Hwf [Hfirst _]]]]].
  destruct (lexeme_text_first l "" Hwf Hfirst) as [c [text [Ht Hc]]].
  rewrite append_empty_r in Ht. exists c, text.
  split; [now rewrite Htext | exact Hc].
Qed.

(** ** Reading back a serialized value *)

Lemma parse_value_at (fuel : nat) (content : string) (pos : nat)
  (c : ascii) (rest : string) :
  drop pos content = String c rest ->
  isspace c = false ->
  skip_whitespace content pos = pos
  /\ (String.length content <=? pos) = false
  /\ char_at content pos = c.
Proof.
  intros H Hc. destruct (drop_cons _ _ _ _ H) as [Hlt [Hch _]].
  split; [exact (skip_whitespace_at_text _ _ _ _ H Hc) |].
  split; [apply Nat.leb_gt; exact Hlt | exact Hch].
Qed.

Lemma members_to_string_cons (f : JSONValue -> string) (key : string)
  (child : JSONValue) (l : list (string * JSONValue)) :
  members_to_string f "," "" ((key, child) :: l) true
  = quoted key ++ ": " ++ f child ++ members_to_string f "," "" l false.
Proof.
  cbn [members_to_string String.append]. unfold quoted.
  cbn [String.append]. rewrite append_assoc. reflexivity.
Qed.

Lemma members_to_string_more (f : JSONValue -> string)
  (l : list (string * JSONValue)) :
  members_to_string f "," "" l false
  = match l with
    | [] => ""
    | _ :: _ => "," ++ members_to_string f "," "" l true
    end.
Proof. destruct l as [| [key child] l]; reflexivity. Qed.

Lemma elements_to_string_more (f : JSONValue -> string)
  (l : list JSONValue) :
  elements_to_string f "," "" l false
  = match l with
    | [] => ""
    | _ :: _ => "," ++ elements_to_string f "," "" l true
    end.
Proof. destruct l as [| child l]; reflexivity. Qed.

Lemma bind_finished {A B : Type} (r : result A) (k : A -> nat -> result B) :
  bind r k <> OutOfFuel -> r <> OutOfFuel.
Proof. destruct r; simpl; congruence. Qed.

Lemma parse_object_loop_back (f : JSONValue -> string)
  (g : JSONValue -> JSONValue) (l : list (string * JSONValue)) :
  Forall (fun member => parses_back (f (snd member)) (g (snd member))) l ->
  forallb (fun member => no_escape_needed (fst member)) l = true ->
  l <> [] ->
  forall fuel content pos obj suffix,
    drop pos content
    = members_to_string f "," "" l true ++ String "}" suffix ->
    parse_object_loop fuel content pos obj <> OutOfFuel ->
    exists pos',
      parse_object_loop fuel content pos obj
      = Ok (fold_left set_member
              (map (fun member => (fst member, g (snd member))) l) obj) pos'
      /\ drop pos' content = suffix.
Proof.
  intros HP. induction HP as [| [key child] l Hchild HP IH];
    intros Hkeys Hne fuel content pos obj suffix H Hfin;
    [elim Hne; reflexivity | clear Hne].
  cbn [forallb fst snd] in *.
  apply andb_true_iff in Hkeys. destruct Hkeys as [Hkey Hkeys].
  destruct fuel as [| fuel]; [elim Hfin; reflexivity |].
  rewrite members_to_string_cons, !append_assoc in H.
  cbn [parse_object_loop] in *.
  (* the key *)
  assert (Hq : drop pos content
               = String dquote
                   (key ++ String dquote
                      (": " ++ f child
                       ++ members_to_string f "," "" l false
                       ++ String "}" suffix))).
  { rewrite H. unfold quoted. cbn [String.append string_of_char].
    rewrite append_assoc. reflexivity. }
  destruct (parse_value_at fuel content pos _ _ Hq eq_refl)
    as [Hws [Hlen Hch]].
  apply Nat.leb_gt in Hlen. apply Nat.ltb_lt in Hlen.
  rewrite Hlen, Hws, Hch in *. rewrite Ascii.eqb_refl in *. cbn [negb] in *.
  destruct (parse_string_clean content pos key _ H Hkey) as [p1 [Hs H1]].
  rewrite Hs in *. cbn [bind] in *.
  (* the colon and the space *)
  cbn [String.append] in H1.
  destruct (parse_value_at fuel content p1 _ _ H1 eq_refl)
    as [Hws1 [Hlen1 Hch1]].
  rewrite Hws1, Hlen1, Hch1 in *. cbn [Ascii.eqb Bool.eqb negb orb] in *.
  destruct (drop_cons _ _ _ _ H1) as [_ [_ H2]].
  destruct Hchild as [[c [rest [Htext [Hsp Hbr]]]] Hback].
  cbn [snd] in *.
  assert (Hws2 : skip_whitespace content (S p1) = S (S p1)).
  { apply (skip_whitespace_one_space content (S p1) c
             (rest ++ members_to_string f "," "" l false
              ++ String "}" suffix)); [| exact Hsp].
    rewrite H2, Htext. reflexivity. }
  rewrite Hws2 in *.
  destruct (drop_cons _ _ _ _ H2) as [_ [_ H3]].
  (* the value *)
  assert (Hend : ends_number
                   (members_to_string f "," "" l false ++ String "}" suffix)
                 = true).
  { rewrite members_to_string_more. destruct l; reflexivity. }
  destruct (Hback fuel content (S (S p1)) _ H3 Hend
              (bind_finished _ _ Hfin)) as [p4 [Hv H4]].
  rewrite Hv in *. cbn [bind] in *.
  rewrite members_to_string_more in H4.
  destruct l as [| member l].
  - cbn [String.append] in H4.
    destruct (parse_value_at fuel content p4 _ _ H4 eq_refl)
      as [Hws4 [Hlen4 Hch4]].
    rewrite Hws4, Hlen4, Hch4. cbn [Ascii.eqb Bool.eqb].
    destruct (drop_cons _ _ _ _ H4) as [_ [_ H5]].
    eexists. split; [reflexivity | exact H5].
  - cbn [String.append] in H4.
    destruct (parse_value_at fuel content p4 _ _ H4 eq_refl)
      as [Hws4 [Hlen4 Hch4]].
    rewrite Hws4, Hlen4, Hch4 in *. cbn [Ascii.eqb Bool.eqb] in *.
    destruct (drop_cons _ _ _ _ H4) as [_ [_ H5]].
    destruct (IH Hkeys ltac:(discriminate) fuel content (S p4)
                (set obj key (g child)) suffix H5 Hfin)
      as [pos' [Hloop Hdrop]].
    exists pos'. split; [exact Hloop | exact Hdrop].
Qed.

Lemma parse_array_loop_back (f : JSONValue -> string)
  (g : JSONValue -> JSONValue) (l : list JSONValue) :
  Forall (fun child => parses_back (f child) (g child)) l ->
  l <> [] ->
  forall fuel content pos arr suffix,
    drop pos content
    = elements_to_string f "," "" l true ++ String "]" suffix ->
    parse_array_loop fuel content pos arr <> OutOfFuel ->
    exists pos',
      parse_array_loop fuel content pos arr
      = Ok (fold_left push_back (map g l) arr) pos'
      /\ drop pos' content = suffix.
Proof.
  intros HP. induction HP as [| child l Hchild HP IH];
    intros Hne fuel content pos arr suffix H Hfin;
    [elim Hne; reflexivity | clear Hne].
  destruct fuel as [| fuel]; [elim Hfin; reflexivity |].
  cbn [elements_to_string String.append] in H.
  rewrite append_assoc in H.
  cbn [parse_array_loop] in *.
  destruct Hchild as [[c [rest [Htext [Hsp Hbr]]]] Hback].
  assert (Hq : drop pos content
               = String c (rest ++ elements_to_string f "," "" l false
                           ++ String "]" suffix)).
  { rewrite H, Htext. reflexivity. }
  destruct (parse_value_at fuel content pos _ _ Hq Hsp) as [Hws [Hlen _]].
  apply Nat.leb_gt in Hlen. apply Nat.ltb_lt in Hlen.
  rewrite Hlen, Hws in *.
  assert (Hend : ends_number
                   (elements_to_string f "," "" l false ++ String "]" suffix)
                 = true).
  { rewrite elements_to_string_more. destruct l; reflexivity. }
  destruct (Hback fuel content pos _ H Hend (bind_finished _ _ Hfin))
    as [p4 [Hv H4]].
  rewrite Hv in *. cbn [bind] in *.
  rewrite elements_to_string_more in H4.
  destruct l as [| child' l].
  - cbn [String.append] in H4.
    destruct (parse_value_at fuel content p4 _ _ H4 eq_refl)
      as [Hws4 [Hlen4 Hch4]].
    rewrite Hws4, Hlen4, Hch4. cbn [Ascii.eqb Bool.eqb].
    destruct (drop_cons _ _ _ _ H4) as [_ [_ H5]].
    eexists. split; [reflexivity | exact H5].
  - cbn [String.append] in H4.
    destruct (parse_value_at fuel content p4 _ _ H4 eq_refl)
      as [Hws4 [Hlen4 Hch4]].
    rewrite Hws4, Hlen4, Hch4 in *. cbn [Ascii.eqb Bool.eqb] in *.
    destruct (drop_cons _ _ _ _ H4) as [_ [_ H5]].
    destruct (IH ltac:(discriminate) fuel content (S p4)
                (push_back arr (g child)) suffix H5 Hfin)
      as [pos' [Hloop Hdrop]].
    exists pos'. split; [exact Hloop | exact Hdrop].
Qed.

Lemma number_start_char (c : ascii) :
  isdigit c || (c =? "-")%char = true ->
  isspace c = false /\ (c =? "]")%char = false.
Proof.
  destruct c as [b0 b1 b2 b3 b4 b5 b6 b7].
  destruct b0, b1, b2, b3, b4, b5, b6, b7; simpl; intros H;
    try discriminate H; split; reflexivity.
Qed.

Lemma to_string_int_head (z : Z) :
  exists c rest,
    to_string_int z = String c rest
    /\ isdigit c || (c =? "-")%char = true.
Proof.
  unfold to_string_int. destruct (z <? 0)%Z eqn:E.
  - eauto.
  - apply Z.ltb_ge in E.
    destruct (dec_string_spec z E) as [_ [[c [rest [Hs Hc]]] _]].
    exists c, rest. now rewrite Hs, Hc.
Qed.

Lemma children_parse_back {A : Type} (proj : A -> JSONValue)
  (p : A -> bool) (f : JSONValue -> string) (l : list A) :
  Forall (fun x =>
            round_trippable (proj x) = true ->
            parses_back (f (proj x)) (reparsed (proj x))) l ->
  forallb (fun x => p x && round_trippable (proj x)) l = true ->
  Forall (fun x => parses_back (f (proj x)) (reparsed (proj x))) l
  /\ forallb p l = true.
Proof.
  intros HP. induction HP as [| x l Hx HP IH]; intros Hl;
    [split; [constructor | reflexivity] |].
  cbn [forallb] in *.
  apply andb_true_iff in Hl. destruct Hl as [Hx' Hl].
  apply andb_true_iff in Hx'. destruct Hx' as [Hp Hrt].
  destruct (IH Hl) as [IH1 IH2]. rewrite Hp, IH2.
  split; [constructor; [apply Hx; exact Hrt | exact IH1] | reflexivity].
Qed.

(** The text of a value that [round_trippable] admits is read back as
    [reparsed v]. *)
Lemma value_parses_back (v : JSONValue) :
  round_trippable v = true ->
  forall indent,
    parses_back (value_to_string v indent false) (reparsed v).
Proof.
  induction v as [t s i d b o a IHo IHa] using JSONValue_nested_ind.
  intros Hrt indent. cbn [round_trippable] in Hrt.
  destruct t; try discriminate Hrt; cbn [value_to_string reparsed].
  - (* String *)
    unfold as_string. cbn [type_ string_value_].
    change (String dquote s ++ string_of_char dquote) with (quoted s).
    split; [exists dquote, (s ++ string_of_char dquote); repeat split |].
    intros fuel content pos suffix H He Hfin.
    destruct fuel as [| fuel]; [elim Hfin; reflexivity |].
    assert (Hq : drop pos content
                 = String dquote ((s ++ string_of_char dquote) ++ suffix))
      by exact H.
    destruct (parse_value_at fuel content pos _ _ Hq eq_refl)
      as [Hws [Hlen Hch]].
    cbn [parse_value]. rewrite Hws, Hlen, Hch.
    change ((dquote =? "{")%char) with false.
    change ((dquote =? "[")%char) with false.
    rewrite Ascii.eqb_refl.
    destruct (parse_string_clean content pos s suffix H Hrt)
      as [pos' [Hs Hd]].
    rewrite Hs. cbn [bind]. eauto.
  - (* Number *)
    unfold as_string. cbn [type_ double_value_].
    destruct (to_string_double_head d Hrt) as [c [rest [Htext Hc]]].
    destruct (number_start_char c Hc) as [Hsp Hbr].
    split; [exists c, rest; repeat split; assumption |].
    intros fuel content pos suffix H He Hfin.
    destruct fuel as [| fuel]; [elim Hfin; reflexivity |].
    assert (Hq : drop pos content = String c (rest ++ suffix))
      by (rewrite H, Htext; reflexivity).
    destruct (parse_value_at fuel content pos _ _ Hq Hsp)
      as [Hws [Hlen Hch]].
    rewrite parse_value_number; rewrite Hws; [| now rewrite Hch].
    exact (parse_number_double content pos d suffix H Hrt He).
  - (* Integer *)
    unfold as_string. cbn [type_ int_value_].
    destruct (to_string_int_head i) as [c [rest [Htext Hc]]].
    destruct (number_start_char c Hc) as [Hsp Hbr].
    split; [exists c, rest; repeat split; assumption |].
    intros fuel content pos suffix H He Hfin.
    destruct fuel as [| fuel]; [elim Hfin; reflexivity |].
    assert (Hq : drop pos content = String c (rest ++ suffix))
      by (rewrite H, Htext; reflexivity).
    destruct (parse_value_at fuel content pos _ _ Hq Hsp)
      as [Hws [Hlen Hch]].
    rewrite parse_value_number; rewrite Hws; [| now rewrite Hch].
    exact (parse_number_int content pos i suffix H Hrt He).
  - (* Boolean *)
    unfold as_string. cbn [type_ bool_value_].
    destruct b.
    + split; [exists "t"%char, "rue"; repeat split |].
      intros fuel content pos suffix H He Hfin.
      destruct fuel as [| fuel]; [elim Hfin; reflexivity |].
      destruct (parse_value_at fuel content pos "t"%char ("rue" ++ suffix)
                  H eq_refl) as [Hws [Hlen Hch]].
      cbn [parse_value]. rewrite Hws, Hlen, Hch.
      cbn [Ascii.eqb Bool.eqb orb].
      change ((dquote =? "t")%char) with false.
      change (("t" =? dquote)%char) with false.
      pose proof (drop_substr content pos "true" suffix H) as Hsub.
      cbn [String.length] in Hsub. rewrite Hsub.
      cbn [String.eqb Ascii.eqb Bool.eqb]. eexists. split; [reflexivity |].
      exact (drop_app content pos "true" suffix H).
    + split; [exists "f"%char, "alse"; repeat split |].
      intros fuel content pos suffix H He Hfin.
      destruct fuel as [| fuel]; [elim Hfin; reflexivity |].
      destruct (parse_value_at fuel content pos "f"%char ("alse" ++ suffix)
                  H eq_refl) as [Hws [Hlen Hch]].
      cbn [parse_value]. rewrite Hws, Hlen, Hch.
      cbn [Ascii.eqb Bool.eqb orb].
      change (("f" =? dquote)%char) with false.
      pose proof (drop_substr content pos "fals" (String "e" suffix) H)
        as Hsub4.
      pose proof (drop_substr content pos "false" suffix H) as Hsub5.
      cbn [String.length] in Hsub4, Hsub5. rewrite Hsub4, Hsub5.
      cbn [String.eqb Ascii.eqb Bool.eqb]. eexists. split; [reflexivity |].
      exact (drop_app content pos "false" suffix H).
  - (* Null *)
    split; [exists "n"%char, "ull"; repeat split |].
    intros fuel content pos suffix H He Hfin.
    destruct fuel as [| fuel]; [elim Hfin; reflexivity |].
    destruct (parse_value_at fuel content pos "n"%char ("ull" ++ suffix)
                H eq_refl) as [Hws [Hlen Hch]].
    cbn [parse_value]. rewrite Hws, Hlen, Hch.
    cbn [Ascii.eqb Bool.eqb orb].
    change (("n" =? dquote)%char) with false.
    pose proof (drop_substr content pos "null" suffix H) as Hsub.
    cbn [String.length] in Hsub. rewrite Hsub.
    cbn [String.eqb Ascii.eqb Bool.eqb]. eexists. split; [reflexivity |].
    exact (drop_app content pos "null" suffix H).
  - (* Object *)
    apply andb_true_iff in Hrt. destruct Hrt as [_ Hrt].
    destruct (children_parse_back snd (fun m => no_escape_needed (fst m))
                (fun child => value_to_string child (S indent) false) o)
      as [Hback Hkeys]; [| exact Hrt |].
    { eapply Forall_impl; [| exact IHo]. intros m Hm Hm'. now apply Hm. }
    change ("{" ++ ""
            ++ members_to_string
                 (fun child => value_to_string child (S indent) false)
                 ("," ++ "") ("" ++ "") o true ++ "" ++ "" ++ "}")
      with ("{"
            ++ members_to_string
                 (fun child => value_to_string child (S indent) false)
                 "," "" o true ++ "}").
    set (f := fun child => value_to_string child (S indent) false) in *.
    split; [eexists _, _; repeat split |].
    intros fuel content pos suffix H He Hfin.
    destruct fuel as [| fuel]; [elim Hfin; reflexivity |].
    cbn [String.append] in H. rewrite append_assoc in H.
    cbn [String.append] in H.
    destruct (parse_value_at fuel content pos _ _ H eq_refl)
      as [Hws [Hlen Hch]].
    cbn [parse_value] in *. rewrite Hws, Hlen, Hch in *.
    cbn [Ascii.eqb Bool.eqb] in *.
    destruct fuel as [| fuel]; [elim Hfin; reflexivity |].
    cbn [parse_object] in *.
    destruct (drop_cons _ _ _ _ H) as [_ [_ H1]].
    destruct o as [| [key child] o].
    + cbn [members_to_string String.append] in H1.
      destruct (parse_value_at fuel content (S pos) _ _ H1 eq_refl)
        as [Hws1 [Hlen1 Hch1]].
      apply Nat.leb_gt in Hlen1. apply Nat.ltb_lt in Hlen1.
      rewrite Hws1, Hlen1, Hch1. cbn [Ascii.eqb Bool.eqb andb].
      destruct (drop_cons _ _ _ _ H1) as [_ [_ H2]].
      eexists. split; [reflexivity | exact H2].
    + assert (Hq : drop (S pos) content
                   = String dquote
                       (key ++ string_of_char dquote
                        ++ ": " ++ f child
                        ++ members_to_string f "," "" o false
                        ++ String "}" suffix)).
      { rewrite H1, members_to_string_cons, !append_assoc. unfold quoted.
        cbn [String.append]. rewrite (append_assoc key). reflexivity. }
      destruct (parse_value_at fuel content (S pos) _ _ Hq eq_refl)
        as [Hws1 [Hlen1 Hch1]].
      rewrite Hws1, Hch1 in *.
      change ((dquote =? "}")%char) with false in *.
      rewrite andb_false_r in *.
      exact (parse_object_loop_back f reparsed ((key, child) :: o) Hback
               Hkeys ltac:(discriminate) fuel content (S pos) _ suffix
               H1 Hfin).
  - (* Array *)
    destruct a as [| child a]; [discriminate |].
    destruct (children_parse_back (fun x => x) (fun _ => true)
                (fun child => value_to_string child (S indent) false)
                (child :: a)) as [Hback _]; [| exact Hrt |].
    { eapply Forall_impl; [| exact IHa]. intros m Hm Hm'. now apply Hm. }
    change ("[" ++ ""
            ++ elements_to_string
                 (fun child => value_to_string child (S indent) false)
                 ("," ++ "") ("" ++ "") (child :: a) true
            ++ "" ++ "" ++ "]")
      with ("["
            ++ elements_to_string
                 (fun child => value_to_string child (S indent) false)
                 "," "" (child :: a) true ++ "]").
    set (f := fun child => value_to_string child (S indent) false) in *.
    split; [eexists _, _; repeat split |].
    intros fuel content pos suffix H He Hfin.
    destruct fuel as [| fuel]; [elim Hfin; reflexivity |].
    cbn [String.append] in H. rewrite append_assoc in H.
    cbn [String.append] in H.
    destruct (parse_value_at fuel content pos _ _ H eq_refl)
      as [Hws [Hlen Hch]].
    cbn [parse_value] in *. rewrite Hws, Hlen, Hch in *.
    cbn [Ascii.eqb Bool.eqb] in *.
    destruct fuel as [| fuel]; [elim Hfin; reflexivity |].
    cbn [parse_array] in *.
    destruct (drop_cons _ _ _ _ H) as [_ [_ H1]].
    pose proof (Forall_inv Hback) as [[c [rest [Htext [Hsp Hbr]]]] _].
    assert (Hq : drop (S pos) content
                 = String c (rest ++ elements_to_string f "," "" a false
                             ++ String "]" suffix)).
    { rewrite H1. cbn [elements_to_string String.append].
      fold (f child) in Htext. rewrite Htext, append_assoc. reflexivity. }
    destruct (parse_value_at fuel content (S pos) _ _ Hq Hsp)
      as [Hws1 [Hlen1 Hch1]].
    rewrite Hws1, Hch1, Hbr, andb_false_r in *.
    exact (parse_array_loop_back f reparsed (child :: a) Hback
             ltac:(discriminate) fuel content (S pos) _ suffix H1 Hfin).
Qed.

(** ** The round trip at every path *)

Lemma get_set (obj : JSONValue) (key k : string) (value : JSONValue) :
  get_type obj = TObject ->
  get (set obj key value) k
  = if (key =? k)%string then value else get obj k.
Proof.
  intros Ht. unfold get.
  pose proof (set_type obj key value) as Hst. unfold get_type in *.
  rewrite Hst, Ht, set_object_values, map_find_map_assign.
  cbn [JSONType_eqb negb]. destruct (key =? k)%string; reflexivity.
Qed.

Lemma map_find_absent {V : Type} (k : string) (m : list (string * V)) :
  existsb (String.eqb k) (map fst m) = false -> map_find k m = None.
Proof.
  induction m as [| [k0 v0] m IH]; cbn [map fst existsb map_find];
    intros H; [reflexivity |].
  apply orb_false_iff in H. destruct H as [H0 H].
  rewrite String.eqb_sym, H0. exact (IH H).
Qed.

Lemma get_fold_set_member (k : string)
  (members : list (string * JSONValue)) :
  forall obj,
    get_type obj = TObject ->
    distinct_keys (map fst members) = true ->
    get (fold_left set_member members obj) k
    = match map_find k members with
      | Some child => child
      | None => get obj k
      end.
Proof.
  induction members as [| [key value] members IH]; intros obj Ht Hd;
    [reflexivity |].
  cbn [map fst distinct_keys fold_left map_find] in *.
  apply andb_true_iff in Hd. destruct Hd as [Hkey Hd].
  apply negb_true_iff in Hkey.
  rewrite IH; [| apply set_type | exact Hd].
  unfold set_member at 1. cbn [fst snd]. rewrite (get_set _ _ _ _ Ht).
  destruct (key =? k)%string eqn:E; [| reflexivity].
  apply String.eqb_eq in E. subst key.
  now rewrite (map_find_absent k members Hkey).
Qed.

Lemma map_find_map (g : JSONValue -> JSONValue) (k : string)
  (m : list (string * JSONValue)) :
  map_find k (map (fun member => (fst member, g (snd member))) m)
  = option_map g (map_find k m).
Proof.
  induction m as [| [k0 v0] m IH]; [reflexivity |].
  cbn [map map_find fst snd]. destruct (k0 =? k)%string; [reflexivity |].
  exact IH.
Qed.

Lemma map_find_forallb {V : Type} (p : string * V -> bool) (k : string)
  (m : list (string * V)) (v : V) :
  forallb p m = true -> map_find k m = Some v ->
  exists k', p (k', v) = true.
Proof.
  induction m as [| [k0 v0] m IH]; cbn [forallb map_find]; intros Hp Hf;
    [discriminate |].
  apply andb_true_iff in Hp. destruct Hp as [H0 Hp].
  destruct (k0 =? k)%string; [| exact (IH Hp Hf)].
  inversion Hf. subst. eauto.
Qed.

Lemma push_back_type (arr value : JSONValue) :
  get_type (push_back arr value) = TArray.
Proof.
  unfold push_back, get_type.
  destruct (type_ arr) eqn:E; simpl; rewrite ?E; reflexivity.
Qed.

Lemma fold_push_back_type (l : list JSONValue) (arr : JSONValue) :
  get_type arr = TArray ->
  get_type (fold_left push_back l arr) = TArray.
Proof.
  revert arr. induction l as [| x l IH]; intros arr H; [exact H |].
  cbn [fold_left]. apply IH. apply push_back_type.
Qed.

Lemma reparsed_type (v : JSONValue) :
  round_trippable v = true -> get_type (reparsed v) = get_type v.
Proof.
  destruct v as [t s i d b o a]. cbn [round_trippable reparsed].
  destruct t; intros H; try reflexivity.
  - apply fold_set_member_type. reflexivity.
  - destruct a as [| child a]; [discriminate |].
    cbn [map fold_left]. apply fold_push_back_type. apply push_back_type.
Qed.

Lemma reparsed_same_kind_value (v : JSONValue) :
  round_trippable v = true -> same_kind_value (reparsed v) v.
Proof.
  intros H. unfold same_kind_value. rewrite (reparsed_type v H).
  split; [reflexivity |].
  destruct v as [t s i d b o a]. cbn [get_type type_].
  destruct t; try reflexivity; discriminate H.
Qed.

Lemma round_trippable_get (v : JSONValue) (k : string) :
  round_trippable v = true -> round_trippable (get v k) = true.
Proof.
  destruct v as [t s i d b o a]. unfold get. cbn [type_ object_values_].
  destruct t; try reflexivity. cbn [round_trippable JSONType_eqb negb].
  intros H. apply andb_true_iff in H. destruct H as [_ H].
  destruct (map_find k o) as [child |] eqn:E; [| reflexivity].
  destruct (map_find_forallb _ _ _ _ H E) as [k' Hk].
  cbn [fst snd] in Hk. apply andb_true_iff in Hk. tauto.
Qed.

Lemma get_reparsed (v : JSONValue) (k : string) :
  round_trippable v = true -> get (reparsed v) k = reparsed (get v k).
Proof.
  intros Hrt. pose proof (reparsed_type v Hrt) as Ht.
  destruct v as [t s i d b o a].
  destruct t; try reflexivity.
  - cbn [round_trippable] in Hrt.
    apply andb_true_iff in Hrt. destruct Hrt as [Hd _].
    cbn [reparsed].
    rewrite get_fold_set_member;
      [| reflexivity | rewrite map_map; cbn [fst]; exact Hd].
    rewrite map_find_map. unfold get at 2.
    cbn [type_ object_values_ JSONType_eqb negb].
    destruct (map_find k o) as [child |]; cbn [option_map]; [reflexivity |].
    unfold get, set. cbn. destruct k; reflexivity.
  - unfold get. unfold get_type in Ht. rewrite Ht. reflexivity.
Qed.

Lemma get_value_loop_reparsed (components : list string) :
  forall v,
    round_trippable v = true ->
    round_trippable (get_value_loop components v) = true
    /\ get_value_loop components (reparsed v)
       = reparsed (get_value_loop components v).
Proof.
  induction components as [| component components IH]; intros v Hrt;
    [split; [exact Hrt | reflexivity] |].
  cbn [get_value_loop].
  rewrite (reparsed_type v Hrt), (get_reparsed v component Hrt).
  destruct (JSONType_eqb (get_type v) TObject); cbn [negb];
    [| split; reflexivity].
  pose proof (round_trippable_get v component Hrt) as Hget.
  rewrite (reparsed_type _ Hget).
  destruct (JSONType_eqb (get_type (get v component)) TNull);
    [split; reflexivity |].
  apply IH. exact Hget.
Qed.

(** ** Every value that the parser returns is read by the grammar *)

Lemma at_char (content : string) (pos : nat) (c : ascii) (text : string) :
  drop pos content = String c text ->
  (pos <? String.length content) = true
  /\ (String.length content <=? pos) = false
  /\ char_at content pos = c
  /\ drop (S pos) content = text.
Proof.
  intros H. destruct (drop_cons _ _ _ _ H) as [Hlt [Hc Hnext]].
  repeat split; [now apply Nat.ltb_lt | now apply Nat.leb_gt | exact Hc
                 | exact Hnext].
Qed.

Lemma at_end (content : string) (pos : nat) :
  drop pos content = "" ->
  (pos <? String.length content) = false
  /\ (String.length content <=? pos) = true.
Proof.
  intros H. apply drop_empty in H.
  split; [now apply Nat.ltb_ge | now apply Nat.leb_le].
Qed.

Lemma parse_value_skip (fuel : nat) (content : string) (pos : nat) :
  parse_value fuel content (skip_whitespace content pos)
  = parse_value fuel content pos.
Proof.
  destruct fuel as [| fuel]; [reflexivity |].
  cbn [parse_value]. now rewrite skip_whitespace_idem.
Qed.

Lemma under_cursor (content : string) (pos : nat) (c : ascii) :
  (String.length content <=? pos) = false ->
  (char_at content pos =? c)%char = true ->
  drop pos content = String c (drop (S pos) content).
Proof.
  intros Hlt Hc. apply Nat.leb_gt in Hlt. apply Ascii.eqb_eq in Hc.
  now rewrite (drop_char _ _ Hlt), Hc.
Qed.

Lemma parse_reads (fuel : nat) :
  forall content pos,
    (forall v pos',
        parse_value fuel content pos = Ok v pos' ->
        reads_value (drop pos content) v (drop pos' content))
    /\ (forall v pos' ws,
          drop pos content = String "{" (drop (S pos) content) ->
          all_space ws = true ->
          parse_object fuel content pos = Ok v pos' ->
          reads_value (ws ++ drop pos content) v (drop pos' content))
    /\ (forall obj v pos',
          parse_object_loop fuel content pos obj = Ok v pos' ->
          exists members,
            reads_members (drop pos content) members (drop pos' content)
            /\ v = fold_left set_member members obj)
    /\ (forall v pos' ws,
          drop pos content = String "[" (drop (S pos) content) ->
          all_space ws = true ->
          parse_array fuel content pos = Ok v pos' ->
          reads_value (ws ++ drop pos content) v (drop pos' content))
    /\ (forall arr v pos',
          parse_array_loop fuel content pos arr = Ok v pos' ->
          exists elements,
            reads_elements (drop pos content) elements (drop pos' content)
            /\ v = fold_left push_back elements arr).
Proof.
  induction fuel as [| fuel IH]; intros content pos.
  - repeat split; intros; discriminate.
  - split; [| split; [| split; [| split]]].
    + (* parse_value *)
      intros v pos'. cbn [parse_value].
      destruct (skip_whitespace_drop content pos) as [ws [Hws Hdrop]].
      rewrite Hdrop. set (p := skip_whitespace content pos).
      destruct (String.length content <=? p) eqn:Hend; [discriminate |].
      destruct (char_at content p =? "{")%char eqn:Eo.
      { apply (proj1 (proj2 (IH content p))); [| exact Hws].
        apply under_cursor; assumption. }
      destruct (char_at content p =? "[")%char eqn:Ea.
      { apply (proj1 (proj2 (proj2 (proj2 (IH content p))))); [| exact Hws].
        apply under_cursor; assumption. }
      destruct (char_at content p =? dquote)%char eqn:Eq.
      { destruct (parse_string content p) as [s p1 | |] eqn:Es;
          cbn [bind]; intros H; inversion H; subst.
        apply Nat.leb_gt in Hend.
        destruct (parse_string_reads content p s pos' Hend Es)
          as [raw [Hbody Hraw]].
        rewrite Hraw. constructor; assumption. }
      destruct ((char_at content p =? "t") || (char_at content p =? "f"))%char.
      { destruct (substr content p 4 =? "true")%string eqn:Et.
        - intros H; inversion H; subst.
          rewrite (substr_literal content "true" p Et).
          constructor. exact Hws.
        - destruct (substr content p 5 =? "false")%string eqn:Ef;
            intros H; inversion H; subst.
          rewrite (substr_literal content "false" p Ef).
          constructor. exact Hws. }
      destruct (char_at content p =? "n")%char.
      { destruct (substr content p 4 =? "null")%string eqn:En;
          intros H; inversion H; subst.
        rewrite (substr_literal content "null" p En).
        constructor. exact Hws. }
      destruct (isdigit (char_at content p) || (char_at content p =? "-")%char)
        eqn:En; [| discriminate].
      intros Hnum. apply Nat.leb_gt in Hend.
      destruct (lexeme_exists _ (drop (S p) content) En)
        as [l [rest [Htext [Hwf [Hfirst Hstop]]]]].
      rewrite <- (drop_char _ _ Hend) in Htext.
      destruct (parse_number_lexeme content p l rest Htext Hwf Hfirst Hstop)
        as [p' [Hrest Hparse]].
      rewrite Hparse in Hnum. subst rest.
      destruct (lexeme_value l) as [v0 |] eqn:Ev; inversion Hnum; subst.
      rewrite Htext. constructor; assumption.
    + (* parse_object *)
      intros v pos' ws Hbrace Hws. cbn [parse_object]. rewrite Hbrace.
      destruct (skip_whitespace_drop content (S pos)) as [ws' [Hws' Hdrop]].
      rewrite Hdrop. set (p := skip_whitespace content (S pos)).
      destruct ((p <? String.length content)
                && (char_at content p =? "}")%char) eqn:Ec.
      * apply andb_true_iff in Ec. destruct Ec as [Hlt Hc].
        intros H; inversion H; subst.
        rewrite (under_cursor content p "}"); [| | exact Hc].
        -- apply (value_empty_object ws ws'); assumption.
        -- apply Nat.leb_gt. now apply Nat.ltb_lt.
      * intros H.
        destruct (proj1 (proj2 (proj2 (IH content p))) _ _ _ H)
          as [members [Hm Hv]].
        subst v. apply (value_object ws ws'); assumption.
    + (* parse_object_loop *)
      intros obj v pos'. cbn [parse_object_loop].
      destruct (pos <? String.length content) eqn:Hlt.
      2:{ intros H; inversion H; subst. exists []. split; [| reflexivity].
          apply Nat.ltb_ge in Hlt. rewrite (drop_past_end _ _ Hlt).
          constructor. }
      destruct (skip_whitespace_drop content pos) as [ws [Hws Hdrop]].
      rewrite Hdrop. set (p := skip_whitespace content pos).
      destruct (char_at content p =? dquote)%char eqn:Eq; cbn [negb];
        [| discriminate].
      assert (Hp : p < String.length content).
      { apply char_at_inside. apply Ascii.eqb_eq in Eq. rewrite Eq.
        discriminate. }
      destruct (parse_string content p) as [key p1 | |] eqn:Es;
        cbn [bind]; try discriminate.
      destruct (parse_string_reads content p key p1 Hp Es)
        as [raw [Hbody Hraw]].
      rewrite Hraw.
      destruct (skip_whitespace_drop content p1) as [ws' [Hws' Hdrop1]].
      rewrite Hdrop1. set (p2 := skip_whitespace content p1).
      destruct (String.length content <=? p2) eqn:Hend; [discriminate |].
      destruct (char_at content p2 =? ":")%char eqn:Ec; cbn [negb orb];
        [| discriminate].
      rewrite (under_cursor content p2 ":" Hend Ec).
      rewrite parse_value_skip.
      destruct (parse_value fuel content (S p2)) as [value p3 | |] eqn:Ev;
        cbn [bind]; try discriminate.
      apply (proj1 (IH content (S p2))) in Ev.
      destruct (skip_whitespace_drop content p3) as [ws'' [Hws'' Hdrop3]].
      rewrite Hdrop3 in Ev. set (p4 := skip_whitespace content p3) in *.
      destruct (String.length content <=? p4) eqn:Hend4; [discriminate |].
      destruct (char_at content p4 =? "}")%char eqn:Ecl.
      { intros H; inversion H; subst.
        rewrite (under_cursor content p4 "}" Hend4 Ecl) in Ev.
        exists [(key, value)]. split; [| reflexivity].
        apply (members_last ws raw key ws' (drop (S p2) content) value ws''
                 (drop (S p4) content)); assumption. }
      destruct (char_at content p4 =? ",")%char eqn:Eco; [| discriminate].
      intros H.
      destruct (proj1 (proj2 (proj2 (IH content (S p4)))) _ _ _ H)
        as [members [Hm Hv]].
      rewrite (under_cursor content p4 "," Hend4 Eco) in Ev.
      exists ((key, value) :: members). split; [| exact Hv].
      apply (members_more ws raw key ws' (drop (S p2) content) value ws''
               (drop (S p4) content) members (drop pos' content));
        assumption.
    + (* parse_array *)
      intros v pos' ws Hbracket Hws. cbn [parse_array]. rewrite Hbracket.
      destruct (skip_whitespace_drop content (S pos)) as [ws' [Hws' Hdrop]].
      rewrite Hdrop. set (p := skip_whitespace content (S pos)).
      destruct ((p <? String.length content)
                && (char_at content p =? "]")%char) eqn:Ec.
      * apply andb_true_iff in Ec. destruct Ec as [Hlt Hc].
        intros H; inversion H; subst.
        rewrite (under_cursor content p "]"); [| | exact Hc].
        -- apply (value_empty_array ws ws'); assumption.
        -- apply Nat.leb_gt. now apply Nat.ltb_lt.
      * intros H.
        destruct (proj2 (proj2 (proj2 (proj2 (IH content p)))) _ _ _ H)
          as [elements [He Hv]].
        subst v. apply (value_array ws ws'); assumption.
    + (* parse_array_loop *)
      intros arr v pos'. cbn [parse_array_loop].
      destruct (pos <? String.length content) eqn:Hlt.
      2:{ intros H; inversion H; subst. exists []. split; [| reflexivity].
          apply Nat.ltb_ge in Hlt. rewrite (drop_past_end _ _ Hlt).
          constructor. }
      rewrite parse_value_skip.
      destruct (parse_value fuel content pos) as [value p3 | |] eqn:Ev;
        cbn [bind]; try discriminate.
      apply (proj1 (IH content pos)) in Ev.
      destruct (skip_whitespace_drop content p3) as [ws'' [Hws'' Hdrop3]].
      rewrite Hdrop3 in Ev. set (p4 := skip_whitespace content p3) in *.
      destruct (String.length content <=? p4) eqn:Hend4; [discriminate |].
      destruct (char_at content p4 =? "]")%char eqn:Ecl.
      { intros H; inversion H; subst.
        rewrite (under_cursor content p4 "]" Hend4 Ecl) in Ev.
        exists [value]. split; [| reflexivity].
        apply (elements_last (drop pos content) value ws''
                 (drop (S p4) content)); assumption. }
      destruct (char_at content p4 =? ",")%char eqn:Eco; [| discriminate].
      intros H.
      destruct (proj2 (proj2 (proj2 (proj2 (IH content (S p4))))) _ _ _ H)
        as [elements [He Hv]].
      rewrite (under_cursor content p4 "," Hend4 Eco) in Ev.
      exists (value :: elements). split; [| exact Hv].
      apply (elements_more (drop pos content) value ws''
               (drop (S p4) content) elements (drop pos' content));
        assumption.
Qed.

(** ** Every text of the grammar is parsed to the value it denotes *)

Scheme reads_value_mut := Minimality for reads_value Sort Prop
  with reads_members_mut := Minimality for reads_members Sort Prop
  with reads_elements_mut := Minimality for reads_elements Sort Prop.

Combined Scheme reads_mutual_ind
  from reads_value_mut, reads_members_mut, reads_elements_mut.

Lemma starts_value_no_space (c : ascii) :
  starts_value c = true ->
  isspace c = false /\ (c =? "]")%char = false /\ (c =? "}")%char = false.
Proof.
  destruct c as [b0 b1 b2 b3 b4 b5 b6 b7].
  destruct b0, b1, b2, b3, b4, b5, b6, b7; intros H;
    try discriminate H; repeat split.
Qed.

Lemma number_starts_value (c : ascii) :
  isdigit c || (c =? "-")%char = true -> starts_value c = true.
Proof.
  destruct c as [b0 b1 b2 b3 b4 b5 b6 b7].
  destruct b0, b1, b2, b3, b4, b5, b6, b7; intros H;
    try discriminate H; reflexivity.
Qed.

(** A value starts, after white space, with one of the characters that
    [parse_value] dispatches on. *)
Lemma reads_value_first (text : string) (v : JSONValue) (rest : string) :
  reads_value text v rest ->
  exists ws c text',
    text = ws ++ String c text'
    /\ all_space ws = true /\ starts_value c = true.
Proof.
  intros H. destruct H;
    try (eexists; eexists; eexists;
         split; [reflexivity | split; [assumption | reflexivity]]).
  match goal with
  | Hwf : lexeme_well_formed ?l = true, Hf : _ \/ _ |- _ =>
      destruct (lexeme_text_first l rest Hwf Hf) as [c [text' [Ht Hc]]]
  end.
  rewrite Ht. exists ws, c, text'.
  split; [reflexivity |]. split; [assumption |].
  apply number_starts_value. exact Hc.
Qed.

Lemma reads_members_first (text : string)
  (members : list (string * JSONValue)) (rest : string) :
  reads_members text members rest ->
  text = ""
  \/ exists ws text',
      text = ws ++ String dquote text' /\ all_space ws = true.
Proof.
  intros H. destruct H; [left; reflexivity | right | right];
    eexists; eexists; split; try reflexivity; assumption.
Qed.

Lemma reads_elements_first (text : string) (elements : list JSONValue)
  (rest : string) :
  reads_elements text elements rest ->
  text = ""
  \/ exists ws c text',
      text = ws ++ String c text'
      /\ all_space ws = true /\ starts_value c = true.
Proof.
  intros H. destruct H; [left; reflexivity | right | right];
    eapply reads_value_first; eassumption.
Qed.

Lemma parse_object_loop_skip (fuel : nat) (content : string) (pos : nat)
  (obj : JSONValue) :
  pos < String.length content ->
  skip_whitespace content pos < String.length content ->
  parse_object_loop fuel content (skip_whitespace content pos) obj
  = parse_object_loop fuel content pos obj.
Proof.
  intros H1 H2. destruct fuel as [| fuel]; [reflexivity |].
  cbn [parse_object_loop]. apply Nat.ltb_lt in H1, H2.
  now rewrite H1, H2, skip_whitespace_idem.
Qed.

Lemma parse_array_loop_skip (fuel : nat) (content : string) (pos : nat)
  (arr : JSONValue) :
  pos < String.length content ->
  skip_whitespace content pos < String.length content ->
  parse_array_loop fuel content (skip_whitespace content pos) arr
  = parse_array_loop fuel content pos arr.
Proof.
  intros H1 H2. destruct fuel as [| fuel]; [reflexivity |].
  cbn [parse_array_loop]. apply Nat.ltb_lt in H1, H2.
  now rewrite H1, H2, skip_whitespace_idem.
Qed.

(** The cursor after the white space in front of a token. *)
Lemma skip_to_token (content : string) (pos : nat) (ws : string) (c : ascii)
  (text : string) :
  drop pos content = ws ++ String c text ->
  all_space ws = true ->
  isspace c = false ->
  exists p,
    skip_whitespace content pos = p
    /\ p = pos + String.length ws
    /\ (p <? String.length content) = true
    /\ (String.length content <=? p) = false
    /\ char_at content p = c
    /\ drop p content = String c text
    /\ drop (S p) content = text.
Proof.
  intros H Hws Hc.
  destruct (skip_whitespace_over content pos ws _ H Hws Hc) as [Hp Hd].
  exists (pos + String.length ws).
  destruct (at_char _ _ _ _ Hd) as [H1 [H2 [H3 H4]]].
  repeat split; assumption.
Qed.

Lemma skip_to_end (content : string) (pos : nat) (ws : string) :
  drop pos content = ws ->
  all_space ws = true ->
  exists p,
    skip_whitespace content pos = p
    /\ (p <? String.length content) = false
    /\ drop p content = "".
Proof.
  intros H Hws. rewrite <- (append_empty_r ws) in H.
  destruct (skip_whitespace_over content pos ws "" H Hws I) as [Hp Hd].
  exists (pos + String.length ws).
  destruct (at_end _ _ Hd) as [H1 _]. repeat split; assumption.
Qed.

Ltac need_fuel fuel H :=
  destruct fuel as [| fuel]; [elim H; reflexivity |].

(** The start of [parse_value] on a text whose first token starts with
    [c]. *)
Lemma parse_value_token (fuel : nat) (content : string) (pos : nat)
  (ws : string) (c : ascii) (text : string) :
  drop pos content = ws ++ String c text ->
  all_space ws = true ->
  isspace c = false ->
  exists p,
    drop p content = String c text
    /\ char_at content p = c
    /\ drop (S p) content = text
    /\ parse_value (S fuel) content pos
       = if (c =? "{")%char then parse_object fuel content p
         else if (c =? "[")%char then parse_array fuel content p
         else if (c =? dquote)%char then
           let* (s, pos) := parse_string content p in
           Ok (JSONValue_string s) pos
         else if ((c =? "t") || (c =? "f"))%char then
           if (substr content p 4 =? "true")%string
           then Ok (JSONValue_bool true) (p + 4)
           else if (substr content p 5 =? "false")%string
           then Ok (JSONValue_bool false) (p + 5)
           else Throw "Invalid boolean value"
         else if (c =? "n")%char then
           if (substr content p 4 =? "null")%string
           then Ok JSONValue_null (p + 4)
           else Throw "Invalid null value"
         else if isdigit c || (c =? "-")%char then parse_number content p
         else Throw ("Unexpected character: " ++ string_of_char c).
Proof.
  intros H Hws Hc.
  destruct (skip_to_token content pos ws c text H Hws Hc)
    as [p [Hskip [_ [_ [Hend [Hchar [Hdrop Hnext]]]]]]].
  exists p. split; [exact Hdrop |]. split; [exact Hchar |].
  split; [exact Hnext |].
  cbn [parse_value]. rewrite Hskip, Hend, Hchar. reflexivity.
Qed.

Lemma literal_parsed (content : string) (p : nat) (lit rest : string) :
  drop p content = lit ++ rest ->
  (substr content p (String.length lit) =? lit)%string = true
  /\ drop (p + String.length lit) content = rest.
Proof.
  intros H. split; [| apply drop_app; exact H].
  apply String.eqb_eq. apply (drop_substr content p lit rest H).
Qed.

Lemma grammar_parsed :
  (forall text v rest, reads_value text v rest -> parsed_as_value text v rest)
  /\ (forall text members rest,
        reads_members text members rest ->
        parsed_as_members text members rest)
  /\ (forall text elements rest,
        reads_elements text elements rest ->
        parsed_as_elements text elements rest).
Proof.
  apply reads_mutual_ind; unfold parsed_as_value, parsed_as_members,
    parsed_as_elements.
  - (* null *)
    intros ws rest Hws content pos fuel H Hfuel. need_fuel fuel Hfuel.
    destruct (parse_value_token fuel content pos ws "n" _ H Hws eq_refl)
      as [p [Hp [_ [_ Hparse]]]].
    rewrite Hparse. cbn [Ascii.eqb Bool.eqb orb dquote].
    destruct (literal_parsed content p "null" rest Hp) as [Hlit Hrest].
    cbn [String.length] in Hlit, Hrest. rewrite Hlit. eauto.
  - (* true *)
    intros ws rest Hws content pos fuel H Hfuel. need_fuel fuel Hfuel.
    destruct (parse_value_token fuel content pos ws "t" _ H Hws eq_refl)
      as [p [Hp [_ [_ Hparse]]]].
    rewrite Hparse. cbn [Ascii.eqb Bool.eqb orb dquote].
    destruct (literal_parsed content p "true" rest Hp) as [Hlit Hrest].
    cbn [String.length] in Hlit, Hrest. rewrite Hlit. eauto.
  - (* false *)
    intros ws rest Hws content pos fuel H Hfuel. need_fuel fuel Hfuel.
    destruct (parse_value_token fuel content pos ws "f" _ H Hws eq_refl)
      as [p [Hp [_ [_ Hparse]]]].
    rewrite Hparse. cbn [Ascii.eqb Bool.eqb orb dquote].
    destruct (literal_parsed content p "false" rest Hp) as [Hlit Hrest].
    cbn [String.length] in Hlit, Hrest.
    assert (Hnot : (substr content p 4 =? "true")%string = false).
    { apply String.eqb_neq. intros E.
      pose proof (drop_substr content p "fals" (String "e" rest) Hp) as E'.
      cbn [String.length] in E'. congruence. }
    rewrite Hnot, Hlit. eauto.
  - (* string *)
    intros ws raw s rest Hws Hbody content pos fuel H Hfuel.
    need_fuel fuel Hfuel.
    destruct (parse_value_token fuel content pos ws dquote _ H Hws eq_refl)
      as [p [Hp [_ [_ Hparse]]]].
    rewrite Hparse. cbn [Ascii.eqb Bool.eqb orb dquote].
    destruct (string_body_parse raw s content p rest Hbody Hp)
      as [pos' [Hs Hrest]].
    rewrite Hs. cbn [bind]. eauto.
  - (* number *)
    intros ws l rest v Hws Hwf Hfirst Hstop Hv content pos fuel H Hfuel.
    need_fuel fuel Hfuel.
    destruct (lexeme_text_first l rest Hwf Hfirst) as [c [text' [Ht Hc]]].
    rewrite Ht in H.
    destruct (starts_value_no_space c (number_starts_value c Hc))
      as [Hsp _].
    destruct (parse_value_token fuel content pos ws c _ H Hws Hsp)
      as [p [Hp [_ [_ Hparse]]]].
    rewrite Hparse, Hc. rewrite <- Ht in Hp.
    destruct (parse_number_lexeme content p l rest Hp Hwf Hfirst Hstop)
      as [pos' [Hrest Hnum]].
    rewrite Hv in Hnum.
    destruct c as [b0 b1 b2 b3 b4 b5 b6 b7].
    destruct b0, b1, b2, b3, b4, b5, b6, b7; try discriminate Hc;
      cbn [Ascii.eqb Bool.eqb orb andb dquote isdigit]; eauto.
  - (* empty object *)
    intros ws ws' rest Hws Hws' content pos fuel H Hfuel.
    need_fuel fuel Hfuel.
    destruct (parse_value_token fuel content pos ws "{" _ H Hws eq_refl)
      as [p [_ [_ [Hnext Hparse]]]].
    rewrite Hparse in Hfuel |- *.
    cbn [Ascii.eqb Bool.eqb orb dquote] in Hfuel |- *.
    need_fuel fuel Hfuel. cbn [parse_object].
    destruct (skip_to_token content (S p) ws' "}" rest Hnext Hws' eq_refl)
      as [q [Hskip [_ [Hlt [_ [Hchar [_ Hrest]]]]]]].
    rewrite Hskip, Hlt, Hchar. cbn [Ascii.eqb Bool.eqb andb]. eauto.
  - (* object *)
    intros ws ws' text members rest Hws Hws' Hmembers IH content pos fuel
      H Hfuel.
    need_fuel fuel Hfuel.
    destruct (parse_value_token fuel content pos ws "{" _ H Hws eq_refl)
      as [p [_ [_ [Hnext Hparse]]]].
    rewrite Hparse in Hfuel |- *.
    cbn [Ascii.eqb Bool.eqb orb dquote] in Hfuel |- *.
    need_fuel fuel Hfuel. cbn [parse_object] in Hfuel |- *.
    destruct (reads_members_first _ _ _ Hmembers)
      as [-> | [ws1 [text' [-> Hws1]]]].
    + rewrite append_empty_r in Hnext.
      destruct (skip_to_end content (S p) ws' Hnext Hws')
        as [q [Hskip [Hlt Hq]]].
      rewrite Hskip, Hlt in Hfuel |- *. cbn [andb] in Hfuel |- *.
      apply (IH content q fuel _ Hq Hfuel).
    + pose proof (drop_app _ _ _ _ Hnext) as Hq'.
      rewrite <- append_assoc in Hnext.
      destruct (skip_to_token content (S p) (ws' ++ ws1) dquote text' Hnext)
        as [q [Hskip [Hq [Hlt [_ [Hchar [Hdrop _]]]]]]];
        [rewrite all_space_app, Hws', Hws1; reflexivity | reflexivity |].
      rewrite Hskip, Hlt, Hchar in Hfuel |- *.
      replace (dquote =? "}")%char with false in Hfuel |- * by reflexivity.
      cbn [andb] in Hfuel |- *.
      set (q' := S p + String.length ws') in *.
      destruct (skip_to_token content q' ws1 dquote text' Hq' Hws1 eq_refl)
        as [q2 [Hskip' [Hq2 [Hlt2 _]]]].
      assert (Eq : q = skip_whitespace content q').
      { rewrite Hskip', Hq2, Hq, append_length. unfold q'. lia. }
      assert (Hlt' : q' < String.length content).
      { pose proof (drop_length content q') as Hlen.
        rewrite Hq', append_length in Hlen. cbn [String.length] in Hlen.
        lia. }
      assert (Hlt'' : skip_whitespace content q' < String.length content).
      { rewrite <- Eq. now apply Nat.ltb_lt. }
      rewrite Eq in Hfuel |- *.
      rewrite (parse_object_loop_skip _ _ _ _ Hlt' Hlt'') in Hfuel |- *.
      apply (IH content q' fuel _ Hq' Hfuel).
  - (* empty array *)
    intros ws ws' rest Hws Hws' content pos fuel H Hfuel.
    need_fuel fuel Hfuel.
    destruct (parse_value_token fuel content pos ws "[" _ H Hws eq_refl)
      as [p [_ [_ [Hnext Hparse]]]].
    rewrite Hparse in Hfuel |- *.
    cbn [Ascii.eqb Bool.eqb orb dquote] in Hfuel |- *.
    need_fuel fuel Hfuel. cbn [parse_array].
    destruct (skip_to_token content (S p) ws' "]" rest Hnext Hws' eq_refl)
      as [q [Hskip [_ [Hlt [_ [Hchar [_ Hrest]]]]]]].
    rewrite Hskip, Hlt, Hchar. cbn [Ascii.eqb Bool.eqb andb]. eauto.
  - (* array *)
    intros ws ws' text elements rest Hws Hws' Helements IH content pos fuel
      H Hfuel.
    need_fuel fuel Hfuel.
    destruct (parse_value_token fuel content pos ws "[" _ H Hws eq_refl)
      as [p [_ [_ [Hnext Hparse]]]].
    rewrite Hparse in Hfuel |- *.
    cbn [Ascii.eqb Bool.eqb orb dquote] in Hfuel |- *.
    need_fuel fuel Hfuel. cbn [parse_array] in Hfuel |- *.
    destruct (reads_elements_first _ _ _ Helements)
      as [-> | [ws1 [c [text' [-> [Hws1 Hc]]]]]].
    + rewrite append_empty_r in Hnext.
      destruct (skip_to_end content (S p) ws' Hnext Hws')
        as [q [Hskip [Hlt Hq]]].
      rewrite Hskip, Hlt in Hfuel |- *. cbn [andb] in Hfuel |- *.
      apply (IH content q fuel _ Hq Hfuel).
    + destruct (starts_value_no_space c Hc) as [Hsp [Hclose _]].
      pose proof (drop_app _ _ _ _ Hnext) as Hq'.
      rewrite <- append_assoc in Hnext.
      destruct (skip_to_token content (S p) (ws' ++ ws1) c text' Hnext)
        as [q [Hskip [Hq [Hlt [_ [Hchar [Hdrop _]]]]]]];
        [rewrite all_space_app, Hws', Hws1; reflexivity | exact Hsp |].
      rewrite Hskip, Hlt, Hchar, Hclose in Hfuel |- *.
      cbn [andb] in Hfuel |- *.
      set (q' := S p + String.length ws') in *.
      destruct (skip_to_token content q' ws1 c text' Hq' Hws1 Hsp)
        as [q2 [Hskip' [Hq2 [Hlt2 _]]]].
      assert (Eq : q = skip_whitespace content q').
      { rewrite Hskip', Hq2, Hq, append_length. unfold q'. lia. }
      assert (Hlt' : q' < String.length content).
      { pose proof (drop_length content q') as Hlen.
        rewrite Hq', append_length in Hlen. cbn [String.length] in Hlen.
        lia. }
      assert (Hlt'' : skip_whitespace content q' < String.length content).
      { rewrite <- Eq. now apply Nat.ltb_lt. }
      rewrite Eq in Hfuel |- *.
      rewrite (parse_array_loop_skip _ _ _ _ Hlt' Hlt'') in Hfuel |- *.
      apply (IH content q' fuel _ Hq' Hfuel).
  - (* no member *)
    intros content pos fuel obj H Hfuel. need_fuel fuel Hfuel.
    cbn [parse_object_loop]. destruct (at_end _ _ H) as [Hlt _].
    rewrite Hlt. exists pos. split; [reflexivity | exact H].
  - (* the last member *)
    intros ws raw key ws' text value ws'' rest Hws Hbody Hws' Hvalue IHv
      Hws'' content pos fuel obj H Hfuel.
    need_fuel fuel Hfuel. cbn [parse_object_loop] in *.
    destruct (skip_to_token content pos ws dquote _ H Hws eq_refl)
      as [p [Hskip [Hp [Hlt [_ [Hchar [Hdrop _]]]]]]].
    assert (Hin : (pos <? String.length content) = true).
    { apply Nat.ltb_lt. apply Nat.ltb_lt in Hlt. lia. }
    rewrite Hin, Hskip, Hchar, Ascii.eqb_refl in *. cbn [negb] in *.
    destruct (string_body_parse raw key content p _ Hbody Hdrop)
      as [p1 [Hs Hdrop1]].
    rewrite Hs in *. cbn [bind] in *.
    destruct (skip_to_token content p1 ws' ":" text Hdrop1 Hws' eq_refl)
      as [p2 [Hskip2 [_ [_ [Hend2 [Hchar2 [_ Hdrop2]]]]]]].
    rewrite Hskip2, Hend2, Hchar2 in *.
    cbn [Ascii.eqb Bool.eqb negb orb] in *.
    rewrite parse_value_skip in *.
    destruct (IHv content (S p2) fuel Hdrop2 (bind_finished _ _ Hfuel))
      as [p3 [Hv Hdrop3]].
    rewrite Hv in *. cbn [bind] in *.
    destruct (skip_to_token content p3 ws'' "}" rest Hdrop3 Hws'' eq_refl)
      as [p4 [Hskip4 [_ [_ [Hend4 [Hchar4 [_ Hdrop4]]]]]]].
    rewrite Hskip4, Hend4, Hchar4. cbn [Ascii.eqb Bool.eqb]. eauto.
  - (* a member and more *)
    intros ws raw key ws' text value ws'' text' members rest Hws Hbody Hws'
      Hvalue IHv Hws'' Hmembers IHm content pos fuel obj H Hfuel.
    need_fuel fuel Hfuel. cbn [parse_object_loop] in *.
    destruct (skip_to_token content pos ws dquote _ H Hws eq_refl)
      as [p [Hskip [Hp [Hlt [_ [Hchar [Hdrop _]]]]]]].
    assert (Hin : (pos <? String.length content) = true).
    { apply Nat.ltb_lt. apply Nat.ltb_lt in Hlt. lia. }
    rewrite Hin, Hskip, Hchar, Ascii.eqb_refl in *. cbn [negb] in *.
    destruct (string_body_parse raw key content p _ Hbody Hdrop)
      as [p1 [Hs Hdrop1]].
    rewrite Hs in *. cbn [bind] in *.
    destruct (skip_to_token content p1 ws' ":" text Hdrop1 Hws' eq_refl)
      as [p2 [Hskip2 [_ [_ [Hend2 [Hchar2 [_ Hdrop2]]]]]]].
    rewrite Hskip2, Hend2, Hchar2 in *.
    cbn [Ascii.eqb Bool.eqb negb orb] in *.
    rewrite parse_value_skip in *.
    destruct (IHv content (S p2) fuel Hdrop2 (bind_finished _ _ Hfuel))
      as [p3 [Hv Hdrop3]].
    rewrite Hv in *. cbn [bind] in *.
    destruct (skip_to_token content p3 ws'' "," text' Hdrop3 Hws'' eq_refl)
      as [p4 [Hskip4 [_ [_ [Hend4 [Hchar4 [_ Hdrop4]]]]]]].
    rewrite Hskip4, Hend4, Hchar4 in *. cbn [Ascii.eqb Bool.eqb] in *.
    apply (IHm content (S p4) fuel _ Hdrop4 Hfuel).
  - (* no element *)
    intros content pos fuel arr H Hfuel. need_fuel fuel Hfuel.
    cbn [parse_array_loop]. destruct (at_end _ _ H) as [Hlt _].
    rewrite Hlt. exists pos. split; [reflexivity | exact H].
  - (* the last element *)
    intros text value ws rest Hvalue IHv Hws content pos fuel arr H Hfuel.
    need_fuel fuel Hfuel. cbn [parse_array_loop] in *.
    destruct (reads_value_first _ _ _ Hvalue) as [ws0 [c [t [Ht _]]]].
    assert (Hin : (pos <? String.length content) = true).
    { apply Nat.ltb_lt. pose proof (drop_length content pos) as Hlen.
      rewrite H, Ht, append_length in Hlen. cbn [String.length] in Hlen.
      lia. }
    rewrite Hin in *. rewrite parse_value_skip in *.
    destruct (IHv content pos fuel H (bind_finished _ _ Hfuel))
      as [p3 [Hv Hdrop3]].
    rewrite Hv in *. cbn [bind] in *.
    destruct (skip_to_token content p3 ws "]" rest Hdrop3 Hws eq_refl)
      as [p4 [Hskip4 [_ [_ [Hend4 [Hchar4 [_ Hdrop4]]]]]]].
    rewrite Hskip4, Hend4, Hchar4. cbn [Ascii.eqb Bool.eqb]. eauto.
  - (* an element and more *)
    intros text value ws text' elements rest Hvalue IHv Hws Helements IHe
      content pos fuel arr H Hfuel.
    need_fuel fuel Hfuel. cbn [parse_array_loop] in *.
    destruct (reads_value_first _ _ _ Hvalue) as [ws0 [c [t [Ht _]]]].
    assert (Hin : (pos <? String.length content) = true).
    { apply Nat.ltb_lt. pose proof (drop_length content pos) as Hlen.
      rewrite H, Ht, append_length in Hlen. cbn [String.length] in Hlen.
      lia. }
    rewrite Hin in *. rewrite parse_value_skip in *.
    destruct (IHv content pos fuel H (bind_finished _ _ Hfuel))
      as [p3 [Hv Hdrop3]].
    rewrite Hv in *. cbn [bind] in *.
    destruct (skip_to_token content p3 ws "," text' Hdrop3 Hws eq_refl)
      as [p4 [Hskip4 [_ [_ [Hend4 [Hchar4 [_ Hdrop4]]]]]]].
    rewrite Hskip4, Hend4, Hchar4 in *. cbn [Ascii.eqb Bool.eqb] in *.
    apply (IHe content (S p4) fuel _ Hdrop4 Hfuel).
Qed.

(** ** [parse] and the grammar *)

Lemma parse_value_returns (content : string) (pos : nat) :
  pos <= String.length content ->
  parse_value (parse_fuel content) content pos <> OutOfFuel.
Proof.
  intros Hpos. pose proof (parse_value_fuel_enough content pos Hpos) as H.
  destruct (parse_value (parse_fuel content) content pos);
    [discriminate | discriminate | contradiction].
Qed.

Lemma parse_from_start (content : string) :
  parse_value (parse_fuel content) content (skip_whitespace content 0)
  = parse_value (parse_fuel content) content 0.
Proof. apply parse_value_skip. Qed.

(** A text that starts with a value of the grammar is parsed, to the value
    that it denotes. *)
Lemma reads_value_parse (content : string) (v : JSONValue) (rest : string) :
  reads_value content v rest ->
  parse content = Some (mkJSONResult true "" v).
Proof.
  intros H. unfold parse. rewrite parse_from_start.
  destruct (proj1 grammar_parsed _ _ _ H content 0 (parse_fuel content)
              eq_refl (parse_value_returns content 0 (Nat.le_0_l _)))
    as [pos' [Hparse _]].
  now rewrite Hparse.
Qed.

(** A text that is parsed starts with a value of the grammar, the root of
    the result. *)
Lemma parse_reads_value (content : string) (r : JSONResult) :
  parse content = Some r -> success r = true ->
  exists rest, reads_value content (root r) rest.
Proof.
  unfold parse. rewrite parse_from_start.
  destruct (parse_value (parse_fuel content) content 0)
    as [v pos' | what |] eqn:E; intros H; inversion H; subst;
    cbn [success root]; [| discriminate].
  intros _. exists (drop pos' content).
  exact (proj1 (parse_reads _ content 0) _ _ E).
Qed.



(** The grammar gives a text at most one reading. *)
Lemma reads_value_deterministic (text : string) (v v' : JSONValue)
  (rest rest' : string) :
  reads_value text v rest -> reads_value text v' rest' ->
  v = v' /\ rest = rest'.
Proof.
  intros H H'.
  pose proof (parse_value_returns text 0 (Nat.le_0_l _)) as Hfuel.
  destruct (proj1 grammar_parsed _ _ _ H text 0 _ eq_refl Hfuel)
    as [p [Hp Hrest]].
  destruct (proj1 grammar_parsed _ _ _ H' text 0 _ eq_refl Hfuel)
    as [p' [Hp' Hrest']].
  rewrite Hp in Hp'. inversion Hp'. subst. split; reflexivity.
Qed.




(** ** The kind and the value of a number *)

Lemma c_str_without_nul (s : string) :
  contains_char Ascii.zero s = false -> c_str s = s.
Proof.
  induction s as [| c s IH]; [reflexivity |].
  cbn [contains_char c_str]. intros H.
  apply orb_false_iff in H. destruct H as [Hc Hs].
  now rewrite Hc, (IH Hs).
Qed.

Lemma lexeme_text_without_nul (l : number_lexeme) :
  lexeme_well_formed l = true ->
  contains_char Ascii.zero (lexeme_text l) = false.
Proof.
  intros Hwf. split_well_formed Hwf. unfold lexeme_text.
  rewrite !contains_char_app.
  rewrite (digits_contain_no Ascii.zero _ eq_refl Hint).
  replace (contains_char Ascii.zero (if lex_minus l then "-" else ""))
    with false by (destruct (lex_minus l); reflexivity).
  cbn [orb].
  assert (Hf : contains_char Ascii.zero (frac_text (lex_frac l)) = false).
  { destruct (lex_frac l) as [fd |]; [| reflexivity].
    cbn [frac_text contains_char Ascii.eqb Bool.eqb orb].
    apply digits_contain_no; [reflexivity | exact Hfrac]. }
  rewrite Hf. cbn [orb].
  destruct (lex_exp l) as [[[mark sign] ed] |]; [| reflexivity].
  apply andb_true_iff in Hexp. destruct Hexp as [Hmark Hed].
  cbn [exp_text contains_char]. rewrite contains_char_app.
  rewrite (digits_contain_no Ascii.zero _ eq_refl Hed), orb_false_r.
  replace (contains_char Ascii.zero (sign_text sign)) with false
    by (destruct sign; reflexivity).
  rewrite orb_false_r.
  apply orb_true_iff in Hmark. destruct Hmark as [Hm | Hm];
    apply Ascii.eqb_eq in Hm; subst mark; reflexivity.
Qed.

(** [parse] on a text that starts with a number lexeme. *)
Lemma parse_number_text (ws : string) (l : number_lexeme) (rest : string) :
  all_space ws = true ->
  lexeme_well_formed l = true ->
  lex_minus l = true \/ lex_int l <> "" ->
  lexeme_stops l rest = true ->
  parse (ws ++ lexeme_text l ++ rest)
  = Some match lexeme_value l with
         | Some v => mkJSONResult true "" v
         | None =>
             mkJSONResult false ("Invalid number: " ++ lexeme_text l)
               JSONValue_null
         end.
Proof.
  intros Hws Hwf Hfirst Hstop.
  set (content := ws ++ lexeme_text l ++ rest).
  unfold parse. rewrite parse_from_start.
  destruct (parse_fuel_positive content) as [fuel ->].
  destruct (lexeme_text_first l rest Hwf Hfirst) as [c [text' [Ht Hc]]].
  destruct (starts_value_no_space c (number_starts_value c Hc)) as [Hsp _].
  assert (H : drop 0 content = ws ++ String c text').
  { cbn [drop]. unfold content. now rewrite Ht. }
  destruct (parse_value_token fuel content 0 ws c _ H Hws Hsp)
    as [p [Hp [_ [_ Hparse]]]].
  rewrite <- Ht in Hp.
  destruct (parse_number_lexeme content p l rest Hp Hwf Hfirst Hstop)
    as [pos' [_ Hnum]].
  assert (Hdispatch : parse_value (S fuel) content 0
                      = parse_number content p).
  { rewrite Hparse, Hc.
    destruct c as [b0 b1 b2 b3 b4 b5 b6 b7].
    destruct b0, b1, b2, b3, b4, b5, b6, b7; try discriminate Hc;
      reflexivity. }
  rewrite Hdispatch, Hnum.
  destruct (lexeme_value l); [reflexivity |].
  change (c_str ("Invalid number: " ++ lexeme_text l))
    with ("Invalid number: " ++ c_str (lexeme_text l)).
  now rewrite (c_str_without_nul _ (lexeme_text_without_nul l Hwf)).
Qed.

(** C5, the claim fails in its last sentence: a lexeme with a malformed
    exponent, the example of the specification, is no error. The lexemes
    [1e], [1e+] and [1E-] are accepted as the Number 1.0, and so is [1.],
    whose fraction has no digit. *)
Lemma malformed_exponent_accepted :
  exists d,
    double_is_exactly d 1 0 = true
    /\ parse "1e" = Some (mkJSONResult true "" (JSONValue_double d))
    /\ parse "1e+" = Some (mkJSONResult true "" (JSONValue_double d))
    /\ parse "1E-" = Some (mkJSONResult true "" (JSONValue_double d))
    /\ parse "1." = Some (mkJSONResult true "" (JSONValue_double d))
    /\ lexeme_text (mkLexeme false "1" None (Some ("e"%char, NoSign, "")))
       = "1e"
    /\ lexeme_value (mkLexeme false "1" None (Some ("e"%char, NoSign, "")))
       = Some (JSONValue_double d).
Proof.
  eexists. split; [| split; [vm_compute; reflexivity |]].
  - vm_compute. reflexivity.
  - repeat split; vm_compute; reflexivity.
Qed.

(** C5, amended: at a number, the parser reads the longest lexeme made of
    an optional minus sign, digits, an optional point with digits and an
    optional exponent mark with an optional sign and digits. A lexeme
    without point and exponent mark (it contains none of ['.'], ['e'],
    ['E']) yields an Integer, the number that its digits write, and a
    lexeme with one of them a Number, the double nearest to the decimal
    that the mantissa and the exponent write, where an exponent without
    digits counts as no exponent. A lexeme without a digit in its
    mantissa, an Integer outside the range of [int] and a Number outside
    the range of [double] (too large, or too small to be a normal number
    and not exact) are the fatal error "Invalid number: <lexeme>".
    [parse("1")] is Integer 1, [parse("1.0")] is Number 1.0 and
    [parse("1e2")] is Number 100.0. *)
Theorem parse_number_kind :
  (forall content pos l rest,
      drop pos content = lexeme_text l ++ rest ->
      lexeme_well_formed l = true ->
      lex_minus l = true \/ lex_int l <> "" ->
      lexeme_stops l rest = true ->
      exists pos',
        drop pos' content = rest
        /\ parse_number content pos
           = match lexeme_value l with
             | Some v => Ok v pos'
             | None => Throw ("Invalid number: " ++ lexeme_text l)
             end)
  /\ (forall c text,
        isdigit c || (c =? "-")%char = true ->
        exists l rest,
          String c text = lexeme_text l ++ rest
          /\ lexeme_well_formed l = true
          /\ (lex_minus l = true \/ lex_int l <> "")
          /\ lexeme_stops l rest = true)
  /\ (forall ws l rest,
        all_space ws = true ->
        lexeme_well_formed l = true ->
        lex_minus l = true \/ lex_int l <> "" ->
        lexeme_stops l rest = true ->
        parse (ws ++ lexeme_text l ++ rest)
        = Some match lexeme_value l with
               | Some v => mkJSONResult true "" v
               | None =>
                   mkJSONResult false
                     ("Invalid number: " ++ lexeme_text l) JSONValue_null
               end)
  /\ (forall l,
        lexeme_well_formed l = true ->
        let text := lexeme_text l in
        let digits := digits_value 0 (lex_int l) in
        let z := if lex_minus l then (- digits)%Z else digits in
        if contains_char "." text || contains_char "e" text
           || contains_char "E" text
        then
          lexeme_value l
          = match lexeme_mantissa l with
            | EmptyString => None
            | String _ _ =>
                option_map JSONValue_double
                  (strtod_result (lex_minus l)
                     (digits_value 0 (lexeme_mantissa l))
                     (lexeme_exponent l))
            end
        else
          lexeme_value l
          = match lex_int l with
            | EmptyString => None
            | String _ _ =>
                if ((INT_MIN <=? z) && (z <=? INT_MAX))%Z
                then Some (JSONValue_int z) else None
            end)
  /\ parse "1" = Some (mkJSONResult true "" (JSONValue_int 1))
  /\ (exists d,
        parse "1.0" = Some (mkJSONResult true "" (JSONValue_double d))
        /\ d = S754_finite false (2 ^ 52) (-52)
        /\ double_is_exactly d 1 0 = true)
  /\ (exists d,
        parse "1e2" = Some (mkJSONResult true "" (JSONValue_double d))
        /\ d = S754_finite false (100 * 2 ^ 46) (-46)
        /\ double_is_exactly d 100 0 = true)
  /\ parse "-"
     = Some (mkJSONResult false "Invalid number: -" JSONValue_null)
  /\ parse "12345678901"
     = Some (mkJSONResult false "Invalid number: 12345678901"
               JSONValue_null)
  /\ parse "1e400"
     = Some (mkJSONResult false "Invalid number: 1e400" JSONValue_null)
  /\ parse "2.2250738585072012e-308"
     = Some (mkJSONResult false "Invalid number: 2.2250738585072012e-308"
               JSONValue_null)
  /\ parse "2.2250738585072013e-308"
     = Some (mkJSONResult true ""
               (JSONValue_double (S754_finite false (2 ^ 52) (-1074)))).
Proof.
  split; [exact parse_number_lexeme |].
  split; [exact lexeme_exists |].
  split; [exact parse_number_text |].
  split.
  - intros l Hwf. cbv zeta.
    pose proof (lexeme_is_floating l Hwf) as Hfl.
    unfold is_floating_lexeme in Hfl. rewrite Hfl.
    unfold lexeme_value, lexeme_mantissa, in_int_range.
    destruct (lex_frac l) as [fd |]; [reflexivity |].
    destruct (lex_exp l) as [ex |]; [reflexivity |].
    rewrite append_empty_r. reflexivity.
  - repeat split; try (eexists; repeat split); vm_compute; reflexivity.
Qed.

Lemma parse_number_kind_witness :
  parse " -.5e1x"
  = Some (mkJSONResult true ""
            (JSONValue_double (S754_finite true (5 * 2 ^ 50) (-50))))
  /\ parse "-x"
     = Some (mkJSONResult false "Invalid number: -" JSONValue_null).
Proof.
  split.
  - apply (proj1 (proj2 (proj2 parse_number_kind)) " "
             (mkLexeme true "" (Some "5")
                (Some ("e"%char, NoSign, "1"))) "x");
      [reflexivity | reflexivity | left; reflexivity | reflexivity].
  - apply (proj1 (proj2 (proj2 parse_number_kind)) ""
             (mkLexeme true "" None None) "x");
      [reflexivity | reflexivity | left; reflexivity | reflexivity].
Defined.

(** ** Object literals and the objects they denote *)

Lemma object_literal_reads (text : string)
  (members : list (string * JSONValue)) (rest : string) :
  object_literal text members rest ->
  reads_value text (object_of members) rest.
Proof.
  intros H. destruct H.
  - apply (value_empty_object ws ws' rest); assumption.
  - apply (value_object ws ws' text members rest); assumption.
Qed.

Lemma array_of_type (elements : list JSONValue) :
  get_type (array_of elements) <> TObject.
Proof.
  unfold array_of. destruct elements as [| e elements]; [discriminate |].
  cbn [fold_left].
  rewrite (fold_push_back_type elements _ (push_back_type _ _)).
  discriminate.
Qed.

Lemma lexeme_value_type (l : number_lexeme) (v : JSONValue) :
  lexeme_value l = Some v -> get_type v <> TObject.
Proof.
  unfold lexeme_value. destruct (lexeme_mantissa l); [discriminate |].
  destruct (lex_frac l), (lex_exp l);
    try (destruct (strtod_result _ _ _); cbn [option_map];
         intros H; inversion H; discriminate).
  destruct (in_int_range _); intros H; inversion H; discriminate.
Qed.

(** A value of the grammar that is an Object is written as an object
    literal. *)
Lemma reads_value_object (text : string) (v : JSONValue) (rest : string) :
  reads_value text v rest ->
  get_type v = TObject ->
  exists members, object_literal text members rest /\ v = object_of members.
Proof.
  intros H Ht. destruct H; try discriminate Ht.
  - elim (lexeme_value_type l v); assumption.
  - exists []. split; [constructor; assumption | reflexivity].
  - exists members. split; [constructor; assumption | reflexivity].
  - elim (array_of_type elements); assumption.
Qed.

Lemma map_find_app {V : Type} (k : string) (a b : list (string * V)) :
  map_find k (a ++ b)
  = match map_find k a with
    | Some v => Some v
    | None => map_find k b
    end.
Proof.
  induction a as [| [k0 v0] a IH]; [reflexivity |].
  cbn [app map_find]. destruct (k0 =? k)%string; [reflexivity | exact IH].
Qed.

(** After the loop a key holds the value of the member written last under
    it. *)
Lemma get_fold_set_member_last (k : string)
  (members : list (string * JSONValue)) :
  forall obj,
    get_type obj = TObject ->
    get (fold_left set_member members obj) k
    = match last_written k members with
      | Some value => value
      | None => get obj k
      end.
Proof.
  unfold last_written.
  induction members as [| [key value] members IH]; intros obj Ht;
    [reflexivity |].
  cbn [fold_left rev]. rewrite IH by apply set_type.
  rewrite map_find_app. destruct (map_find k (rev members)); [reflexivity |].
  unfold set_member. cbn [fst snd map_find]. rewrite (get_set _ _ _ _ Ht).
  destruct (key =? k)%string; reflexivity.
Qed.

Lemma last_written_none (k : string) (members : list (string * JSONValue)) :
  last_written k members = None <-> ~ In k (map fst members).
Proof.
  unfold last_written. split.
  - intros H Hin. apply in_map_iff in Hin. destruct Hin as [[k' v] [Hk Hin]].
    cbn [fst] in Hk. subst k'. apply in_rev in Hin.
    revert H Hin. generalize (rev members). intros m.
    induction m as [| [k0 v0] m IH]; cbn [map_find In]; [tauto |].
    destruct (k0 =? k)%string eqn:E; [discriminate |].
    intros H [Heq | Hin]; [| exact (IH H Hin)].
    inversion Heq. subst. rewrite String.eqb_refl in E. discriminate.
  - intros H. apply map_find_absent.
    destruct (existsb (String.eqb k) (map fst (rev members))) eqn:E;
      [| reflexivity].
    apply existsb_exists in E. destruct E as [k' [Hin Hk]].
    apply String.eqb_eq in Hk. subst k'. elim H.
    rewrite map_rev in Hin. now apply in_rev in Hin.
Qed.

Lemma object_of_type (members : list (string * JSONValue)) :
  get_type (object_of members) = TObject.
Proof. apply fold_set_member_type. reflexivity. Qed.

Lemma object_of_first (members : list (string * JSONValue)) :
  empty_key_first (object_of members) = true.
Proof. apply fold_set_member_first. reflexivity. Qed.

Lemma get_object_of (members : list (string * JSONValue)) (k : string) :
  get (object_of members) k
  = match last_written k members with
    | Some value => value
    | None => JSONValue_null
    end.
Proof.
  unfold object_of. rewrite get_fold_set_member_last by reflexivity.
  destruct (last_written k members); [reflexivity |].
  unfold get, set. cbn. destruct k; reflexivity.
Qed.

Lemma keys_object_of (members : list (string * JSONValue)) (k : string) :
  In k (get_keys (object_of members)) <-> k = "" \/ In k (map fst members).
Proof.
  unfold get_keys. pose proof (object_of_type members) as Ht.
  unfold get_type in Ht. rewrite Ht. cbn [JSONType_eqb].
  unfold object_of. rewrite fold_set_member_keys.
  cbn [set JSONValue_null type_ object_values_ JSONType_eqb negb map_assign
       map fst In].
  intuition auto.
Qed.

(** C10: every Object that parsing produces, the root as well as an Object
    nested in it, has an entry for the key [""] at the front of its map.
    Such an Object is the value of an object literal of the text, and the
    entry is Null unless one of the members written in the literal has the
    key [""]: then it is the value of the last such member. So [get_keys]
    of a parsed object contains [""], and its serialization starts with a
    member for the empty key. *)
Theorem parsed_objects_have_empty_key :
  (forall content r,
      parse content = Some r -> success r = true ->
      every_object empty_key_first (root r) = true)
  /\ (forall fuel content pos obj pos',
        parse_value fuel content pos = Ok obj pos' ->
        get_type obj = TObject ->
        exists members,
          object_literal (drop pos content) members (drop pos' content)
          /\ obj = object_of members
          /\ has_key obj "" = true
          /\ (~ In "" (map fst members) -> get obj "" = JSONValue_null)
          /\ (forall value,
                last_written "" members = Some value ->
                get obj "" = value))
  /\ (forall text members rest,
        object_literal text members rest ->
        exists obj,
          parse text = Some (mkJSONResult true "" obj)
          /\ get_type obj = TObject
          /\ empty_key_first obj = true
          /\ has_key obj "" = true
          /\ (~ In "" (map fst members) -> get obj "" = JSONValue_null)
          /\ (forall value,
                last_written "" members = Some value ->
                get obj "" = value))
  /\ (forall obj,
        get_type obj = TObject -> empty_key_first obj = true ->
        has_key obj "" = true
        /\ (exists keys, get_keys obj = "" :: keys)
        /\ In "" (get_keys obj)
        /\ forall indent pretty_print,
            exists text,
              value_to_string obj indent pretty_print
              = "{" ++ (if pretty_print
                        then string_of_char newline_char
                             ++ string_repeat (indent * 2) " " ++ "  "
                        else "")
                ++ quoted "" ++ ": " ++ text)
  /\ (exists r,
        parse "{}" = Some r /\ success r = true
        /\ get_keys_at r "" = [""]
        /\ to_string r false = "{" ++ quoted "" ++ ": null}").
Proof.
  assert (Hempty : forall members,
             has_key (object_of members) "" = true
             /\ (~ In "" (map fst members) ->
                 get (object_of members) "" = JSONValue_null)
             /\ (forall value,
                   last_written "" members = Some value ->
                   get (object_of members) "" = value)).
  { intros members. split; [| split].
    - pose proof (object_of_type members) as Ht.
      pose proof (object_of_first members) as Hfirst.
      unfold has_key, empty_key_first, get_type in *. rewrite Ht.
      cbn [JSONType_eqb negb].
      destruct (object_values_ (object_of members)) as [| [k0 v0] m];
        [discriminate |].
      apply String.eqb_eq in Hfirst. subst k0. reflexivity.
    - intros Hin. rewrite get_object_of.
      apply last_written_none in Hin. now rewrite Hin.
    - intros value Hlast. now rewrite get_object_of, Hlast. }
  split; [| split; [| split; [| split]]].
  - intros content r. unfold parse.
    destruct (parse_value (parse_fuel content) content
                (skip_whitespace content 0)) as [v pos' | what |] eqn:E;
      intros H; inversion H; subst; cbn [success root]; [| discriminate].
    intros _. exact (proj1 (parse_every_object _ _ _) _ _ E).
  - intros fuel content pos obj pos' Hparse Ht.
    destruct (reads_value_object _ _ _
                (proj1 (parse_reads fuel content pos) _ _ Hparse) Ht)
      as [members [Hlit Hobj]].
    exists members. subst obj.
    split; [exact Hlit |]. split; [reflexivity |]. apply Hempty.
  - intros text members rest Hlit. exists (object_of members).
    split; [apply (reads_value_parse text _ rest);
            apply object_literal_reads; exact Hlit |].
    split; [apply object_of_type |].
    split; [apply object_of_first |]. apply Hempty.
  - intros obj Ht Hfirst. unfold get_type in Ht.
    unfold empty_key_first in Hfirst.
    destruct (object_values_ obj) as [| [k0 v0] m] eqn:Em; [discriminate |].
    apply String.eqb_eq in Hfirst. subst k0.
    unfold has_key, get_keys. rewrite Ht, Em. cbn.
    repeat split; eauto.
    intros indent pretty_print.
    destruct obj as [t s i d b o a]. cbn in Ht, Em. subst t o.
    cbn [value_to_string]. rewrite members_to_string_first.
    destruct pretty_print; eexists;
      cbn [String.append string_of_char quoted];
      rewrite ?append_assoc; reflexivity.
  - eexists. split; [vm_compute; reflexivity |]. repeat split.
Qed.

Lemma parsed_objects_have_empty_key_witness :
  (exists r,
      parse ("[{" ++ quoted "k" ++ ":{}}]") = Some r
      /\ every_object empty_key_first (root r) = true)
  /\ exists obj,
      parse ("{" ++ quoted "k" ++ ":1}") = Some (mkJSONResult true "" obj)
      /\ get obj "" = JSONValue_null.
Proof.
  assert (Hlit : object_literal ("{" ++ quoted "k" ++ ":1}")
                   [("k", JSONValue_int 1)] "").
  { apply (literal_with_members "" "" _ _ ""); [reflexivity .. |].
    apply (members_last "" "k" "k" "" "1}" (JSONValue_int 1) "" "");
      try reflexivity.
    - apply body_char; [discriminate | discriminate | apply body_end].
    - apply (value_number "" (mkLexeme false "1" None None) "}");
        try reflexivity.
      right. discriminate. }
  destruct (proj1 (proj2 (proj2 parsed_objects_have_empty_key)) _ _ _ Hlit)
    as [obj [Hparse [_ [_ [_ [Hnull _]]]]]].
  split.
  - eexists. split; [vm_compute; reflexivity |].
    refine (proj1 parsed_objects_have_empty_key
              ("[{" ++ quoted "k" ++ ":{}}]") _ _ _).
    + vm_compute. reflexivity.
    + reflexivity.
  - exists obj. split; [exact Hparse |].
    apply Hnull. cbn. intros [H | []]. discriminate.
Defined.

(** ** Keys of a parsed object literal *)

(** A path of one non-empty segment is the lookup of that key in the
    root. *)
Lemma get_value_single_segment (r : JSONResult) (k : string) :
  contains_char "." k = false -> k <> "" ->
  get_value r k
  = if JSONType_eqb (get_type (root r)) TObject
    then if JSONType_eqb (get_type (get (root r) k)) TNull
         then JSONValue_null
         else get (root r) k
    else JSONValue_null.
Proof.
  intros Hdot Hne.
  rewrite <- (get_value_trailing_dot r k Hdot Hne).
  pose proof (get_value_step r k "" Hdot) as Hstep.
  change (k ++ "." ++ "") with (k ++ ".") in Hstep.
  rewrite Hstep. reflexivity.
Qed.

Lemma has_path_key (r : JSONResult) (k : string) :
  get_type (root r) = TObject ->
  contains_char "." k = false -> k <> "" ->
  has_path r k = negb (JSONType_eqb (get_type (get (root r) k)) TNull).
Proof.
  intros Ht Hdot Hne. unfold has_path.
  rewrite (get_value_single_segment r k Hdot Hne), Ht.
  cbn [JSONType_eqb].
  destruct (JSONType_eqb (get_type (get (root r) k)) TNull) eqn:E;
    [reflexivity |].
  now rewrite E.
Qed.

(** C2, the claim fails: after parsing [{"a":1}], whose one written key is
    ["a"], [get_keys("")] returns the two keys [""] and ["a"]; after
    parsing [{"a":null}], [has_path("a")] is false for the written key;
    and after parsing [{"a.b":1}], [has_path("a.b")] is false, the key
    being read as a path of two segments. *)
Lemma get_keys_has_extra_key :
  (exists r,
      object_literal ("{" ++ quoted "a" ++ ":1}") [("a", JSONValue_int 1)] ""
      /\ parse ("{" ++ quoted "a" ++ ":1}") = Some r
      /\ success r = true
      /\ get_keys_at r "" = [""; "a"]
      /\ ~ (forall k, In k (get_keys_at r "") -> In k ["a"]))
  /\ (exists r,
        object_literal ("{" ++ quoted "a" ++ ":null}")
          [("a", JSONValue_null)] ""
        /\ parse ("{" ++ quoted "a" ++ ":null}") = Some r
        /\ success r = true
        /\ has_path r "a" = false)
  /\ (exists r,
        object_literal ("{" ++ quoted "a.b" ++ ":1}")
          [("a.b", JSONValue_int 1)] ""
        /\ parse ("{" ++ quoted "a.b" ++ ":1}") = Some r
        /\ success r = true
        /\ has_path r "a.b" = false).
Proof.
  assert (Hone : forall rest,
             reads_value (String "1" (String "}" rest)) (JSONValue_int 1)
               ("" ++ String "}" rest)).
  { intros rest.
    apply (value_number "" (mkLexeme false "1" None None)
             (String "}" rest)); try reflexivity.
    right. discriminate. }
  assert (Ha : string_body "a" "a").
  { apply body_char; [discriminate | discriminate | apply body_end]. }
  split; [| split]; eexists.
  - split.
    { apply (literal_with_members "" "" _ _ ""); [reflexivity .. |].
      apply (members_last "" "a" "a" "" "1}" (JSONValue_int 1) "" "");
        try reflexivity; [exact Ha | apply Hone]. }
    split; [vm_compute; reflexivity |].
    split; [reflexivity |].
    split; [vm_compute; reflexivity |].
    intros H. specialize (H "" (or_introl eq_refl)).
    destruct H as [H | []]. discriminate.
  - split.
    { apply (literal_with_members "" "" _ _ ""); [reflexivity .. |].
      apply (members_last "" "a" "a" "" "null}" JSONValue_null "" "");
        try reflexivity; [exact Ha |].
      apply (value_null "" (String "}" "")). reflexivity. }
    split; [vm_compute; reflexivity |].
    split; [reflexivity |]. vm_compute. reflexivity.
  - split.
    { apply (literal_with_members "" "" _ _ ""); [reflexivity .. |].
      apply (members_last "" "a.b" "a.b" "" "1}" (JSONValue_int 1) "" "");
        try reflexivity; [| apply Hone].
      repeat (apply body_char; [discriminate | discriminate |]).
      apply body_end. }
    split; [vm_compute; reflexivity |].
    split; [reflexivity |]. vm_compute. reflexivity.
Qed.

(** C2, amended: an object literal (a text that the grammar reads as an
    object with the members [members] written in it, [object_literal]) is
    parsed, and [get_keys("")] of the result returns the keys written in
    the literal and the empty key [""], and no other key. [has_path("")]
    is true; for a key [k] that is not empty and contains no ['.'],
    [has_path(k)] is true exactly when [k] is written in the literal and
    the value written last under it is not Null-typed. Every parsed text
    whose root is an Object is such a literal. *)
Theorem get_keys_of_object_literal (content : string)
  (members : list (string * JSONValue)) (rest : string) :
  object_literal content members rest ->
  exists r,
    parse content = Some r
    /\ success r = true
    /\ root r = object_of members
    /\ (forall k,
          In k (get_keys_at r "") <-> k = "" \/ In k (map fst members))
    /\ has_path r "" = true
    /\ (forall k,
          k <> "" -> contains_char "." k = false ->
          has_path r k
          = match last_written k members with
            | Some value => negb (JSONType_eqb (get_type value) TNull)
            | None => false
            end)
    /\ (forall content' r',
          parse content' = Some r' -> success r' = true ->
          get_type (root r') = TObject ->
          exists members' rest',
            object_literal content' members' rest'
            /\ root r' = object_of members').
Proof.
  intros Hlit.
  exists (mkJSONResult true "" (object_of members)).
  split; [apply (reads_value_parse content _ rest);
          apply object_literal_reads; exact Hlit |].
  split; [reflexivity |]. split; [reflexivity |].
  pose proof (object_of_type members) as Ht.
  split; [| split; [| split]].
  - intros k. unfold get_keys_at, get_value.
    cbn [String.eqb root]. rewrite Ht. cbn [JSONType_eqb].
    apply keys_object_of.
  - unfold has_path, get_value. cbn [String.eqb root]. now rewrite Ht.
  - intros k Hne Hdot.
    rewrite (has_path_key (mkJSONResult true "" (object_of members)) k Ht
               Hdot Hne).
    cbn [root].
    rewrite get_object_of.
    destruct (last_written k members); reflexivity.
  - intros content' r' Hr' Hs' Ht'.
    destruct (parse_reads_value content' r' Hr' Hs') as [rest' Hreads].
    destruct (reads_value_object _ _ _ Hreads Ht') as [members' [Hl He]].
    exists members', rest'. split; assumption.
Qed.

Lemma get_keys_of_object_literal_witness :
  exists r,
    parse ("{" ++ quoted "b" ++ ": true, " ++ quoted "b" ++ ":null }x")
    = Some r
    /\ (forall k, In k (get_keys_at r "") <-> k = "" \/ In k ["b"; "b"])
    /\ has_path r "b" = false.
Proof.
  assert (Hb : string_body "b" "b").
  { apply body_char; [discriminate | discriminate | apply body_end]. }
  destruct (get_keys_of_object_literal
              ("{" ++ quoted "b" ++ ": true, " ++ quoted "b" ++ ":null }x")
              [("b", JSONValue_bool true); ("b", JSONValue_null)] "x")
    as [r [Hr [_ [_ [Hkeys [_ [Hpath _]]]]]]].
  - apply (literal_with_members "" "" _ _ "x"); [reflexivity .. |].
    apply (members_more "" "b" "b" ""
             (" true, " ++ quoted "b" ++ ":null }x") (JSONValue_bool true) ""
             (String " " (quoted "b" ++ ":null }x"))
             [("b", JSONValue_null)] "x");
      try reflexivity; [exact Hb | |].
    + apply (value_true " " (String "," (String " "
                                           (quoted "b" ++ ":null }x")))).
      reflexivity.
    + apply (members_last " " "b" "b" "" "null }x" JSONValue_null " " "x");
        try reflexivity; [exact Hb |].
      apply (value_null "" (String " " (String "}" "x"))). reflexivity.
  - exists r. split; [exact Hr |]. split; [exact Hkeys |].
    rewrite (Hpath "b"); [reflexivity | discriminate | reflexivity].
Defined.

(** ** The reparsed tree *)

Lemma has_key_set (obj : JSONValue) (key k : string) (value : JSONValue) :
  get_type obj = TObject ->
  has_key (set obj key value) k
  = if (key =? k)%string then true else has_key obj k.
Proof.
  intros Ht. unfold has_key.
  pose proof (set_type obj key value) as Hst. unfold get_type in *.
  rewrite Hst, Ht, set_object_values, map_find_map_assign.
  cbn [JSONType_eqb negb]. destruct (key =? k)%string; reflexivity.
Qed.

Lemma has_key_fold_set_member (k : string)
  (members : list (string * JSONValue)) :
  forall obj,
    get_type obj = TObject ->
    has_key (fold_left set_member members obj) k
    = has_key obj k || existsb (String.eqb k) (map fst members).
Proof.
  induction members as [| [key value] members IH]; intros obj Ht.
  - cbn. now rewrite orb_false_r.
  - cbn [fold_left map fst existsb]. rewrite IH by apply set_type.
    unfold set_member. cbn [fst snd]. rewrite (has_key_set _ _ _ _ Ht).
    rewrite (String.eqb_sym k key).
    destruct (key =? k)%string; [now rewrite orb_true_r | reflexivity].
Qed.

Lemma fold_push_back_array (elements : list JSONValue) :
  forall arr,
    get_type arr = TArray ->
    fold_left push_back elements arr
    = mkJSONValue TArray (string_value_ arr) (int_value_ arr)
        (double_value_ arr) (bool_value_ arr) (object_values_ arr)
        (array_values_ arr ++ elements).
Proof.
  induction elements as [| e elements IH]; intros arr Ht.
  - cbn [fold_left]. rewrite app_nil_r. destruct arr. cbn in *. now subst.
  - cbn [fold_left]. rewrite IH by apply push_back_type.
    unfold get_type in Ht. unfold push_back. rewrite Ht.
    cbn [JSONType_eqb negb type_ string_value_ int_value_ double_value_
         bool_value_ object_values_ array_values_].
    now rewrite <- app_assoc.
Qed.

(** Elements appended to a Null value make the Array of these elements. *)
Lemma fold_push_back_null (e : JSONValue) (elements : list JSONValue) :
  fold_left push_back (e :: elements) JSONValue_null
  = mkJSONValue TArray "" 0%Z double_zero false [] (e :: elements).
Proof.
  cbn [fold_left]. rewrite fold_push_back_array by apply push_back_type.
  reflexivity.
Qed.

Lemma same_tree_unfold (v w : JSONValue) :
  same_tree v w
  = (get_type w = type_ v
     /\ match type_ v with
        | TString => string_value_ w = string_value_ v
        | TInteger => int_value_ w = int_value_ v
        | TNumber => double_value_ w = double_value_ v
        | TBoolean => bool_value_ w = bool_value_ v
        | TNull => True
        | TArray =>
            size w = List.length (array_values_ v)
            /\ (fix elements (l : list JSONValue) (index : nat) : Prop :=
                  match l with
                  | [] => True
                  | child :: l' =>
                      same_tree child (at_ w index)
                      /\ elements l' (S index)
                  end) (array_values_ v) 0
        | TObject =>
            (fix members (l : list (string * JSONValue)) : Prop :=
               match l with
               | [] => True
               | (key, child) :: l' =>
                   has_key w key = true
                   /\ same_tree child (get w key)
                   /\ members l'
               end) (object_values_ v)
            /\ (forall key,
                  has_key w key = true ->
                  key = "" \/ In key (map fst (object_values_ v)))
        end).
Proof. destruct v; reflexivity. Qed.

(** The tree read back from the text of [v] is the same tree as [v]. *)
Lemma same_tree_reparsed (v : JSONValue) :
  round_trippable v = true -> same_tree v (reparsed v).
Proof.
  induction v as [t s i d b o a IHo IHa] using JSONValue_nested_ind.
  intros Hrt. pose proof (reparsed_type _ Hrt) as Htype.
  pose proof (fun k => get_reparsed _ k Hrt) as Hget.
  set (v := mkJSONValue t s i d b o a) in *.
  rewrite same_tree_unfold. split; [exact Htype |].
  cbn [type_ string_value_ int_value_ double_value_ bool_value_
       object_values_ array_values_ v].
  destruct t; try reflexivity.
  - (* Object *)
    cbn [round_trippable v] in Hrt.
    apply andb_true_iff in Hrt. destruct Hrt as [Hdistinct Hrt].
    assert (Hkey : forall k,
               has_key (reparsed v) k
               = (k =? "")%string || existsb (String.eqb k) (map fst o)).
    { intros k. cbn [reparsed v].
      rewrite has_key_fold_set_member by reflexivity.
      rewrite map_map. cbn [fst]. f_equal.
      unfold has_key, set. cbn. destruct k; reflexivity. }
    split.
    + assert (Hin : forall member, In member o -> In member o) by tauto.
      revert Hin. generalize o at 1 3 as l.
      intros l. induction l as [| [key child] l IHl]; intros Hin; [exact I |].
      assert (Hm : In (key, child) o) by (apply Hin; left; reflexivity).
      split; [| split].
      * rewrite Hkey. apply orb_true_iff. right.
        apply existsb_exists. exists key.
        split; [| apply String.eqb_refl].
        apply in_map_iff. exists (key, child). split; [reflexivity | exact Hm].
      * rewrite Hget.
        assert (Hchild : get v key = child).
        { unfold get. cbn [type_ object_values_ v JSONType_eqb negb].
          now rewrite (map_find_entry key child o Hdistinct Hm). }
        rewrite Hchild.
        rewrite Forall_forall in IHo. apply (IHo (key, child) Hm).
        rewrite forallb_forall in Hrt. specialize (Hrt (key, child) Hm).
        cbn [fst snd] in Hrt. apply andb_true_iff in Hrt. tauto.
      * apply IHl. intros member Hmember. apply Hin. right. exact Hmember.
    + intros key Hhas. rewrite Hkey in Hhas.
      apply orb_true_iff in Hhas. destruct Hhas as [Hempty | Hwritten].
      * left. now apply String.eqb_eq.
      * right. apply existsb_exists in Hwritten.
        destruct Hwritten as [k' [Hin Hk]]. apply String.eqb_eq in Hk.
        now subst.
  - (* Array *)
    cbn [round_trippable v] in Hrt.
    destruct a as [| e a]; [discriminate |].
    assert (Hshape : reparsed v
                     = mkJSONValue TArray "" 0%Z double_zero false []
                         (map reparsed (e :: a))).
    { cbn [reparsed v]. cbn [map]. apply fold_push_back_null. }
    rewrite Hshape. split.
    + unfold size. cbn [type_ array_values_ JSONType_eqb].
      apply length_map.
    + assert (Hat : forall prefix child l,
                 e :: a = (prefix ++ child :: l)%list ->
                 at_ (mkJSONValue TArray "" 0%Z double_zero false []
                        (map reparsed (e :: a))) (List.length prefix)
                 = reparsed child).
      { intros prefix child l E. unfold at_.
        cbn [type_ array_values_ JSONType_eqb negb orb].
        rewrite E, length_map, length_app. cbn [List.length].
        replace (List.length prefix + S (List.length l)
                 <=? List.length prefix) with false
          by (symmetry; apply Nat.leb_gt; lia).
        rewrite map_app. rewrite app_nth2 by (rewrite length_map; lia).
        rewrite length_map, Nat.sub_diag. reflexivity. }
      set (w := mkJSONValue TArray "" 0%Z double_zero false []
                  (map reparsed (e :: a))) in *.
      assert (Haux : forall l index prefix,
                 e :: a = (prefix ++ l)%list ->
                 List.length prefix = index ->
                 (fix elements (l : list JSONValue) (index : nat) : Prop :=
                    match l with
                    | [] => True
                    | child :: l' =>
                        same_tree child (at_ w index)
                        /\ elements l' (S index)
                    end) l index).
      { intros l. induction l as [| child l IHl];
          intros index prefix E Hlen; [exact I |].
        split.
        - rewrite <- Hlen, (Hat prefix child l E).
          assert (Hin : In child (e :: a)).
          { rewrite E. apply in_or_app. right. left. reflexivity. }
          rewrite Forall_forall in IHa. apply (IHa child Hin).
          rewrite forallb_forall in Hrt. exact (Hrt child Hin).
        - apply (IHl (S index) (prefix ++ [child])%list).
          + now rewrite <- app_assoc.
          + rewrite length_app. cbn [List.length]. lia. }
      apply (Haux (e :: a) 0 []); reflexivity.
Qed.

(** A Number comes back from its text exactly when its six decimals are
    exact. *)
Lemma double_comes_back (d : double) :
  parse (to_string_double d)
  = Some (mkJSONResult true "" (JSONValue_double d))
  <-> six_decimals_exact d = true.
Proof.
  split.
  - intros Hparse. apply six_decimals_exact_stod.
    assert (Hfinite : match d with
                      | S754_zero _ | S754_finite _ _ _ => True
                      | _ => False
                      end).
    { destruct d as [s | s | | s m e]; try exact I;
        try (destruct s); vm_compute in Hparse; discriminate Hparse. }
    split; [exact Hfinite |].
    destruct (to_string_double_shape d Hfinite)
      as [l [fd [Htext [Hwf [Hfirst [Hfrac Hexp]]]]]].
    pose proof (parse_number_text "" l "" eq_refl Hwf Hfirst eq_refl)
      as Hnum.
    cbn [String.append] in Hnum. rewrite append_empty_r, <- Htext in Hnum.
    rewrite Hnum in Hparse.
    rewrite (lexeme_value_floating l Hwf) in Hparse
      by (left; rewrite Hfrac; discriminate).
    rewrite <- Htext in Hparse.
    destruct (stod (to_string_double d)) as [d' |]; cbn [option_map] in Hparse;
      inversion Hparse. reflexivity.
  - intros Hexact.
    destruct (to_string_double_lexeme d Hexact)
      as [l [fd [Htext [Hwf [Hfirst [_ [_ Hvalue]]]]]]].
    pose proof (parse_number_text "" l "" eq_refl Hwf Hfirst eq_refl)
      as Hnum.
    cbn [String.append] in Hnum. rewrite append_empty_r, <- Htext in Hnum.
    now rewrite Hnum, Hvalue.
Qed.

(** C4, the claim fails for the Number kind: [to_string] writes a double
    with six decimals, so a Number whose decimals are not exact does not
    come back with its value (1e-7, read from the text [0.0000001], is
    written [0.000000] and comes back as 0), and an infinite Number is
    written [inf], which does not parse. *)
Lemma number_round_trip_breaks :
  (exists r r',
      parse "0.0000001" = Some r
      /\ success r = true
      /\ get_type (root r) = TNumber
      /\ six_decimals_exact (double_value_ (root r)) = false
      /\ to_string r false = "0.000000"
      /\ parse (to_string r false) = Some r'
      /\ double_value_ (get_value r' "") <> double_value_ (get_value r "")
      /\ ~ same_kind_value (get_value r' "") (get_value r ""))
  /\ (let r := result_of (JSONValue_double (S754_infinity false)) in
      to_string r false = "inf"
      /\ parse (to_string r false)
         = Some (mkJSONResult false "Unexpected character: i"
                   JSONValue_null)).
Proof.
  split.
  - eexists. eexists.
    split; [vm_compute; reflexivity |].
    split; [reflexivity |].
    split; [reflexivity |].
    split; [vm_compute; reflexivity |].
    split; [vm_compute; reflexivity |].
    split; [vm_compute; reflexivity |].
    split; [vm_compute; discriminate |].
    intros [_ H]. vm_compute in H. discriminate.
  - split; vm_compute; reflexivity.
Qed.

(** C4, amended: for a value tree made of Null, Boolean, Integer, String,
    Object and Array values (an Array has at least one element) and of
    Number values whose six decimals are exact, whose strings and keys
    contain neither a double quote nor a backslash, the text written by
    [to_string] without pretty-printing parses, and the result is the same
    tree: it has the kind and the value of the tree at the root and at
    every path, every Array has the same elements at the same indices, and
    every Object has the same members, besides the empty key that parsing
    adds. The condition on a Number is the weakest one: a Number value
    alone comes back exactly when its six decimals are exact. *)
Theorem round_trip (v : JSONValue) :
  round_trippable v = true ->
  (exists r,
      parse (to_string (result_of v) false) = Some r
      /\ success r = true
      /\ same_tree v (root r)
      /\ forall path,
          same_kind_value (get_value r path) (get_value (result_of v) path))
  /\ forall d,
      six_decimals_exact d = true
      <-> parse (to_string (result_of (JSONValue_double d)) false)
          = Some (mkJSONResult true "" (JSONValue_double d)).
Proof.
  intros Hrt.
  split; [| intros d; symmetry; apply double_comes_back].
  unfold to_string. cbn [root result_of].
  destruct (value_parses_back v Hrt 0) as [[c [rest [Htext [Hsp _]]]] Hback].
  set (text := value_to_string v 0 false) in *.
  assert (Hws : skip_whitespace text 0 = 0).
  { apply (skip_whitespace_at_text text 0 c rest); [exact Htext | exact Hsp]. }
  assert (Hfin : parse_value (parse_fuel text) text 0 <> OutOfFuel).
  { pose proof (parse_value_fuel_enough text 0 ltac:(lia)) as H.
    destruct (parse_value (parse_fuel text) text 0);
      [discriminate | discriminate | contradiction]. }
  destruct (Hback (parse_fuel text) text 0 ""
              ltac:(cbn [drop]; now rewrite append_empty_r) eq_refl Hfin)
    as [pos' [Hparse _]].
  exists (mkJSONResult true "" (reparsed v)).
  unfold parse. rewrite Hws, Hparse.
  split; [reflexivity |]. split; [reflexivity |].
  split; [apply same_tree_reparsed; exact Hrt |].
  intros path. unfold get_value. cbn [root result_of].
  destruct (path =? "")%string;
    [apply reparsed_same_kind_value; exact Hrt |].
  destruct (get_value_loop_reparsed (getlines (String.length path) path)
              v Hrt) as [Hrt' ->].
  apply reparsed_same_kind_value. exact Hrt'.
Qed.

Lemma round_trip_witness :
  let v := set (set JSONValue_null "name" (JSONValue_string "x"))
             "list" (push_back
                       (push_back
                          (push_back JSONValue_null (JSONValue_int (-7)))
                          (JSONValue_bool true))
                       (JSONValue_double
                          (S754_finite false (3 * 2 ^ 51) (-52)))) in
  to_string (result_of v) false
  = "{" ++ quoted "list" ++ ": [-7,true,1.500000]," ++ quoted "name" ++ ": "
    ++ quoted "x" ++ "}"
  /\ (exists r,
        parse (to_string (result_of v) false) = Some r
        /\ success r = true
        /\ same_tree v (root r)
        /\ forall path,
            same_kind_value (get_value r path)
              (get_value (result_of v) path))
  /\ (exists d,
        parse "0.1" = Some (mkJSONResult true "" (JSONValue_double d))
        /\ six_decimals_exact d = true)
  /\ (exists d,
        parse "123456.789" = Some (mkJSONResult true "" (JSONValue_double d))
        /\ six_decimals_exact d = true).
Proof.
  intros v. split; [vm_compute; reflexivity |].
  split; [apply (proj1 (round_trip v eq_refl)) |].
  split; eexists; (split; [vm_compute; reflexivity |]);
    vm_compute; reflexivity.
Defined.

(** ** The text outside the strings and keys *)

Lemma content_filled_app (a a' b b' : string) :
  content_filled a a' -> content_filled b b' ->
  content_filled (a ++ b) (a' ++ b').
Proof.
  intros Ha Hb. induction Ha as [| c sk t Hc Ha IH | content sk t Ha IH].
  - exact Hb.
  - cbn [String.append]. constructor; assumption.
  - cbn [String.append]. rewrite append_assoc. cbn [String.append].
    apply filled_quoted. exact IH.
Qed.

Lemma content_filled_plain (s : string) :
  no_escape_needed s = true -> content_filled s s.
Proof.
  induction s as [| c s IH]; intros H; [constructor |].
  cbn [no_escape_needed] in H.
  apply andb_true_iff in H. destruct H as [Hc Hs].
  apply andb_true_iff in Hc. destruct Hc as [Hq _].
  apply negb_true_iff in Hq. constructor; [exact Hq | exact (IH Hs)].
Qed.

Lemma content_filled_quoted (content : string) :
  content_filled (quoted "") (quoted content).
Proof.
  unfold quoted. cbn [String.append string_of_char].
  apply (filled_quoted content "" ""). constructor.
Qed.

Lemma no_escape_needed_app (a b : string) :
  no_escape_needed a = true -> no_escape_needed b = true ->
  no_escape_needed (a ++ b) = true.
Proof.
  induction a as [| c a IH]; intros Ha Hb; [exact Hb |].
  cbn [String.append no_escape_needed] in *.
  apply andb_true_iff in Ha. destruct Ha as [Hc Ha].
  now rewrite Hc, (IH Ha Hb).
Qed.

Lemma isdigit_no_escape (c : ascii) :
  isdigit c = true ->
  negb (c =? dquote)%char && negb (c =? backslash)%char = true.
Proof.
  destruct c as [b0 b1 b2 b3 b4 b5 b6 b7].
  destruct b0, b1, b2, b3, b4, b5, b6, b7; simpl; intros H;
    try discriminate H; reflexivity.
Qed.

Lemma all_digits_no_escape (s : string) :
  all_digits s = true -> no_escape_needed s = true.
Proof.
  induction s as [| c s IH]; intros H; [reflexivity |].
  cbn [all_digits no_escape_needed] in *.
  apply andb_true_iff in H. destruct H as [Hc Hs].
  now rewrite (isdigit_no_escape c Hc), (IH Hs).
Qed.

Lemma to_string_int_no_escape (z : Z) :
  no_escape_needed (to_string_int z) = true.
Proof.
  unfold to_string_int, dec_string.
  destruct (z <? 0)%Z; cbn [no_escape_needed];
    rewrite all_digits_no_escape; try reflexivity;
    apply dec_digits_all_digits; reflexivity.
Qed.

Lemma to_string_double_no_escape (d : double) :
  no_escape_needed (to_string_double d) = true.
Proof.
  destruct d as [s | s | | s m e]; cbn [to_string_double];
    try (destruct s; reflexivity); try reflexivity.
  apply no_escape_needed_app; [destruct s; reflexivity |].
  apply no_escape_needed_app.
  { apply all_digits_no_escape, dec_digits_all_digits. reflexivity. }
  apply no_escape_needed_app; [reflexivity |].
  apply all_digits_no_escape. unfold frac6. cbn [all_digits].
  rewrite !digit_char_mod_isdigit. reflexivity.
Qed.

Lemma members_content_filled (f : JSONValue -> string)
  (l : list (string * JSONValue)) (first : bool) :
  Forall (fun member =>
            content_filled (f (without_content (snd member)))
              (f (snd member))) l ->
  content_filled
    (members_to_string f "," ""
       (map (fun member => ("", without_content (snd member))) l) first)
    (members_to_string f "," "" l first).
Proof.
  intros HP. revert first.
  induction HP as [| [key child] l Hchild HP IH]; intros first;
    [constructor |].
  cbn [map members_to_string snd].
  apply content_filled_app;
    [destruct first; repeat constructor |].
  cbn [String.append].
  apply (filled_quoted key).
  apply (content_filled_app ": " ": "); [repeat constructor |].
  apply content_filled_app; [exact Hchild | apply IH].
Qed.

Lemma elements_content_filled (f : JSONValue -> string)
  (l : list JSONValue) (first : bool) :
  Forall (fun child =>
            content_filled (f (without_content child)) (f child)) l ->
  content_filled
    (elements_to_string f "," "" (map without_content l) first)
    (elements_to_string f "," "" l first).
Proof.
  intros HP. revert first.
  induction HP as [| child l Hchild HP IH]; intros first; [constructor |].
  cbn [map elements_to_string].
  apply content_filled_app;
    [destruct first; repeat constructor |].
  cbn [String.append].
  apply content_filled_app; [exact Hchild | apply IH].
Qed.

Lemma value_to_string_content_filled (v : JSONValue) :
  forall indent,
    content_filled (value_to_string (without_content v) indent false)
      (value_to_string v indent false).
Proof.
  induction v as [t s i d b o a IHo IHa] using JSONValue_nested_ind.
  intros indent. cbn [without_content value_to_string]. destruct t.
  - unfold as_string. cbn [type_ string_value_].
    exact (content_filled_quoted s).
  - apply content_filled_plain. apply to_string_double_no_escape.
  - apply content_filled_plain. apply to_string_int_no_escape.
  - apply content_filled_plain. unfold as_string. cbn [type_ bool_value_].
    destruct b; reflexivity.
  - repeat constructor.
  - cbn [String.append]. apply filled_outside; [reflexivity |].
    apply content_filled_app; [| repeat constructor].
    apply (members_content_filled
             (fun child => value_to_string child (S indent) false)).
    eapply Forall_impl; [| exact IHo]. intros member H. apply H.
  - cbn [String.append]. apply filled_outside; [reflexivity |].
    apply content_filled_app; [| repeat constructor].
    apply (elements_content_filled
             (fun child => value_to_string child (S indent) false)).
    eapply Forall_impl; [| exact IHa]. intros child H. apply H.
Qed.

Lemma without_content_no_space (v : JSONValue) :
  content_no_space (without_content v) = true.
Proof.
  induction v as [t s i d b o a IHo IHa] using JSONValue_nested_ind.
  cbn [without_content content_no_space]. destruct t; try reflexivity.
  - induction IHo as [| member l Hm Hl IH]; [reflexivity |].
    cbn [map forallb fst snd no_space andb]. now rewrite Hm, IH.
  - induction IHa as [| child l Hc Hl IH]; [reflexivity |].
    cbn [map forallb]. now rewrite Hc, IH.
Qed.

(** C9, the claim fails: without pretty-printing the serializer still puts
    a space after the colon of every member, so the text of the object
    [{a: 1}], whose key holds no white space, contains a space. *)
Lemma to_string_space_after_colon :
  let r := result_of (set JSONValue_null "a" (JSONValue_int 1)) in
  content_no_space (root r) = true
  /\ to_string r false = "{" ++ quoted "a" ++ ": 1}"
  /\ contains_char " " (to_string r false) = true
  /\ no_space (to_string r false) = false.
Proof.
  vm_compute. repeat split.
Qed.

(** C9, amended: for every value tree, [to_string] without pretty-printing
    writes, outside the content of the strings and keys, a text without a
    newline whose only white space is a single space directly after a
    colon, the one the serializer puts between a key and its value. The
    text outside the content is the text of the tree with its strings and
    keys emptied; when the strings and keys hold no white space themselves,
    the same is true of the whole text. *)
Theorem to_string_single_line (r : JSONResult) :
  (let skeleton := to_string (result_of (without_content (root r))) false in
   content_filled skeleton (to_string r false)
   /\ single_spaced skeleton = true
   /\ contains_char newline_char skeleton = false)
  /\ (content_no_space (root r) = true ->
      single_spaced (to_string r false) = true
      /\ contains_char newline_char (to_string r false) = false).
Proof.
  unfold to_string. cbn [root result_of]. split.
  - pose proof (value_to_string_single_spaced (without_content (root r)) 0
                  (without_content_no_space (root r))) as Hs.
    split; [apply value_to_string_content_filled |].
    split; [exact Hs | exact (single_spaced_no_newline _ _ Hs)].
  - intros H.
    pose proof (value_to_string_single_spaced (root r) 0 H) as Hs.
    split; [exact Hs | exact (single_spaced_no_newline _ _ Hs)].
Qed.

Lemma to_string_single_line_witness :
  let r := result_of (set JSONValue_null "a"
                        (push_back JSONValue_null (JSONValue_string "b")))
  in
  single_spaced (to_string r false) = true
  /\ contains_char newline_char (to_string r false) = false.
Proof.
  intros r. apply (proj2 (to_string_single_line r)). reflexivity.
Defined.

(* ================================================================= *)
(** * Further properties of the value, the parser and the serializer *)

(** ** Key order of the maps *)

Lemma ascii_compare_lt_trans (a b c : ascii) :
  Ascii.compare a b = Lt -> Ascii.compare b c = Lt -> Ascii.compare a c = Lt.
Proof.
  unfold Ascii.compare. rewrite !N.compare_lt_iff. apply N.lt_trans.
Qed.

Lemma string_compare_lt_trans (a : string) :
  forall b c,
    String.compare a b = Lt -> String.compare b c = Lt ->
    String.compare a c = Lt.
Proof.
  induction a as [| x a IH]; intros [| y b] [| z c]; cbn [String.compare];
    try congruence.
  destruct (Ascii.compare x y) eqn:Exy; try discriminate;
    destruct (Ascii.compare y z) eqn:Eyz; try discriminate; intros Hab Hbc.
  - apply Ascii.compare_eq_iff in Exy, Eyz. subst.
    assert (E : Ascii.compare z z = Eq)
      by (unfold Ascii.compare; apply N.compare_refl).
    rewrite E. eapply IH; eassumption.
  - apply Ascii.compare_eq_iff in Exy. subst. now rewrite Eyz.
  - apply Ascii.compare_eq_iff in Eyz. subst. now rewrite Exy.
  - now rewrite (ascii_compare_lt_trans _ _ _ Exy Eyz).
Qed.

Lemma string_ltb_lt (a b : string) :
  (a <? b)%string = true <-> String.compare a b = Lt.
Proof.
  unfold String.ltb. destruct (String.compare a b); split; congruence.
Qed.

Lemma string_compare_gt_lt (a b : string) :
  String.compare a b = Gt -> String.compare b a = Lt.
Proof.
  intros H. rewrite String.compare_antisym, H. reflexivity.
Qed.

Lemma keys_sorted_cons (key : string) (keys : list string) :
  keys_sorted (key :: keys) = true <->
  (forall k, In k keys -> String.compare key k = Lt)
  /\ keys_sorted keys = true.
Proof.
  revert key. induction keys as [| key' keys IH]; intros key.
  - cbn. intuition.
  - change (keys_sorted (key :: key' :: keys))
      with ((key <? key')%string && keys_sorted (key' :: keys)).
    rewrite andb_true_iff, string_ltb_lt. split.
    + intros [Hlt Hs]. split; [| exact Hs].
      intros k [<- | Hin]; [exact Hlt |].
      apply IH in Hs. destruct Hs as [Hall _].
      eapply string_compare_lt_trans; [exact Hlt | apply Hall; exact Hin].
    + intros [Hall Hs]. split; [apply Hall; left; reflexivity | exact Hs].
Qed.

Lemma keys_sorted_distinct (keys : list string) :
  keys_sorted keys = true -> distinct_keys keys = true.
Proof.
  induction keys as [| key keys IH]; intros H; [reflexivity |].
  apply keys_sorted_cons in H. destruct H as [Hall Hs].
  cbn [distinct_keys]. rewrite (IH Hs), andb_true_r.
  apply negb_true_iff. destruct (existsb (String.eqb key) keys) eqn:E;
    [| reflexivity].
  apply existsb_exists in E. destruct E as [k [Hin Hk]].
  apply String.eqb_eq in Hk. subst k.
  specialize (Hall key Hin). rewrite string_compare_refl in Hall.
  discriminate.
Qed.

Lemma map_find_below {V : Type} (key k0 : string) (m : list (string * V)) :
  String.compare key k0 = Lt ->
  (forall k, In k (map fst m) -> String.compare k0 k = Lt) ->
  map_find key m = None.
Proof.
  intros Hlt Hall. apply map_find_absent.
  destruct (existsb (String.eqb key) (map fst m)) eqn:E; [| reflexivity].
  apply existsb_exists in E. destruct E as [k [Hin Hk]].
  apply String.eqb_eq in Hk. subst k.
  pose proof (string_compare_lt_trans _ _ _ Hlt (Hall key Hin)) as H.
  rewrite string_compare_refl in H. discriminate.
Qed.

Lemma map_assign_sorted {V : Type} (key : string) (value : V)
  (m : list (string * V)) :
  keys_sorted (map fst m) = true ->
  keys_sorted (map fst (map_assign key value m)) = true.
Proof.
  induction m as [| [k0 v0] m IH]; intros Hs; [reflexivity |].
  cbn [map fst] in Hs. cbn [map_assign].
  destruct (String.compare key k0) eqn:E; cbn [map fst].
  - apply String.compare_eq_iff in E. subst k0. exact Hs.
  - apply keys_sorted_cons. split; [| exact Hs].
    apply keys_sorted_cons in Hs. destruct Hs as [Hall _].
    intros k [<- | Hin]; [exact E |].
    eapply string_compare_lt_trans; [exact E | apply Hall; exact Hin].
  - apply keys_sorted_cons in Hs. destruct Hs as [Hall Hs].
    apply keys_sorted_cons. split; [| apply IH; exact Hs].
    intros k Hin. apply in_keys_map_assign in Hin.
    destruct Hin as [-> | Hin];
      [apply string_compare_gt_lt; exact E | apply Hall; exact Hin].
Qed.

Lemma map_assign_length {V : Type} (key : string) (value : V)
  (m : list (string * V)) :
  keys_sorted (map fst m) = true ->
  List.length (map_assign key value m)
  = match map_find key m with
    | Some _ => List.length m
    | None => S (List.length m)
    end.
Proof.
  induction m as [| [k0 v0] m IH]; intros Hs; [reflexivity |].
  cbn [map fst] in Hs. apply keys_sorted_cons in Hs.
  destruct Hs as [Hall Hs]. cbn [map_assign map_find].
  destruct (String.compare key k0) eqn:E.
  - apply String.compare_eq_iff in E. subst k0.
    now rewrite String.eqb_refl.
  - destruct (k0 =? key)%string eqn:E0.
    + apply String.eqb_eq in E0. subst k0.
      rewrite string_compare_refl in E. discriminate.
    + now rewrite (map_find_below key k0 m E Hall).
  - destruct (k0 =? key)%string eqn:E0.
    + apply String.eqb_eq in E0. subst k0.
      rewrite string_compare_refl in E. discriminate.
    + cbn [List.length]. rewrite (IH Hs).
      destruct (map_find key m); reflexivity.
Qed.

(** ** [set], [get] and [has_key] *)

(** X1: [set] then [get]. The value stored under a key is the value that
    [get] and [has_key] find, whatever the receiver was; on an Object the
    other keys keep their values, the keys stay in ascending order, and the
    size grows by one exactly when the key was not there. *)
Theorem set_then_get (v : JSONValue) (key : string) (value : JSONValue) :
  get_type (set v key value) = TObject
  /\ get (set v key value) key = value
  /\ has_key (set v key value) key = true
  /\ (get_type v = TObject ->
      (forall k, k <> key ->
         get (set v key value) k = get v k
         /\ has_key (set v key value) k = has_key v k)
      /\ (keys_sorted (get_keys v) = true ->
          keys_sorted (get_keys (set v key value)) = true
          /\ size (set v key value)
             = if has_key v key then size v else S (size v))).
Proof.
  split; [apply set_type |].
  assert (Hfind : map_find key (object_values_ (set v key value))
                  = Some value).
  { rewrite set_object_values, map_find_map_assign.
    now rewrite String.eqb_refl. }
  pose proof (set_type v key value) as Hst. unfold get_type in Hst.
  split; [unfold get; now rewrite Hst, Hfind |].
  split; [unfold has_key; now rewrite Hst, Hfind |].
  intros Ht. split.
  - intros k Hne. rewrite (get_set _ _ _ _ Ht), (has_key_set _ _ _ _ Ht).
    destruct (key =? k)%string eqn:E; [| split; reflexivity].
    apply String.eqb_eq in E. congruence.
  - unfold get_keys, size, has_key. unfold get_type in Ht.
    rewrite Hst, Ht, set_object_values. cbn [JSONType_eqb negb].
    intros Hs. split; [apply map_assign_sorted; exact Hs |].
    rewrite (map_assign_length _ _ _ Hs).
    destruct (map_find key (object_values_ v)); reflexivity.
Qed.

Lemma set_then_get_witness :
  let v := set JSONValue_null "b" (JSONValue_int 2) in
  get (set v "a" (JSONValue_int 1)) "b" = JSONValue_int 2
  /\ size (set v "a" (JSONValue_int 1)) = 2
  /\ size (set v "b" (JSONValue_int 1)) = 1.
Proof.
  intros v.
  destruct (set_then_get v "a" (JSONValue_int 1)) as [_ [_ [_ Ha]]].
  destruct (Ha eq_refl) as [Hother Hsize].
  destruct (set_then_get v "b" (JSONValue_int 1)) as [_ [_ [_ Hb]]].
  destruct (Hb eq_refl) as [_ Hsize'].
  split; [apply Hother; discriminate |].
  split; [apply Hsize; reflexivity | apply Hsize'; reflexivity].
Defined.

(** ** [push_back], [at] and [size] *)

(** X2: [push_back] appends: the result is an Array; on an Array the size grows
    by one, the new element is the last one and the elements before it stay
    where they were; on a value without elements (a scalar or Null as the
    constructors make it) the result is the Array of that one element. *)
Theorem push_back_then_at (v value : JSONValue) :
  get_type (push_back v value) = TArray
  /\ (get_type v = TArray \/ array_values_ v = [] ->
      size (push_back v value) = S (List.length (array_values_ v))
      /\ at_ (push_back v value) (List.length (array_values_ v)) = value)
  /\ (get_type v = TArray ->
      size (push_back v value) = S (size v)
      /\ forall index,
          index < size v -> at_ (push_back v value) index = at_ v index).
Proof.
  split; [apply push_back_type |].
  pose proof (push_back_type v value) as Hpt. unfold get_type in Hpt.
  assert (Harr : array_values_ (push_back v value)
                 = (array_values_ v ++ [value])%list).
  { unfold push_back. destruct (type_ v); reflexivity. }
  assert (Hsize : size (push_back v value)
                  = S (List.length (array_values_ v))).
  { unfold size. rewrite Hpt, Harr, length_app. cbn. lia. }
  split.
  - intros _. split; [exact Hsize |].
    unfold at_. rewrite Hpt, Harr, length_app. cbn [JSONType_eqb negb orb].
    replace (List.length (array_values_ v) + List.length [value]
             <=? List.length (array_values_ v)) with false
      by (symmetry; apply Nat.leb_gt; cbn; lia).
    rewrite app_nth2 by lia. now rewrite Nat.sub_diag.
  - intros Ht. unfold get_type in Ht.
    assert (Hsv : size v = List.length (array_values_ v))
      by (unfold size; now rewrite Ht).
    split; [now rewrite Hsize, Hsv |].
    intros index Hlt. rewrite Hsv in Hlt.
    unfold at_. rewrite Hpt, Ht, Harr, length_app.
    cbn [JSONType_eqb negb orb].
    replace (List.length (array_values_ v) + List.length [value] <=? index)
      with false by (symmetry; apply Nat.leb_gt; cbn; lia).
    replace (List.length (array_values_ v) <=? index)
      with false by (symmetry; apply Nat.leb_gt; lia).
    now rewrite app_nth1 by lia.
Qed.

Lemma push_back_then_at_witness :
  let arr := push_back (JSONValue_string "x") (JSONValue_int 1) in
  size arr = 1
  /\ at_ arr 0 = JSONValue_int 1
  /\ at_ (push_back arr (JSONValue_int 2)) 0 = JSONValue_int 1.
Proof.
  intros arr.
  destruct (push_back_then_at (JSONValue_string "x") (JSONValue_int 1))
    as [_ [Hnew _]].
  destruct (Hnew (or_intror eq_refl)) as [Hsize Hat].
  destruct (push_back_then_at arr (JSONValue_int 2)) as [_ [_ Hold]].
  destruct (Hold eq_refl) as [_ Hkeep].
  split; [exact Hsize |]. split; [exact Hat |].
  rewrite Hkeep; [exact Hat | unfold arr; rewrite Hsize; lia].
Defined.


(** ** What every parsed value satisfies *)

Lemma every_value_unfold (p : JSONValue -> bool) (v : JSONValue) :
  every_value p v
  = p v
    && forallb (fun member => every_value p (snd member)) (object_values_ v)
    && forallb (every_value p) (array_values_ v).
Proof. destruct v; reflexivity. Qed.

Lemma set_array_values (v : JSONValue) (key : string) (value : JSONValue) :
  array_values_ (set v key value)
  = if JSONType_eqb (type_ v) TObject then array_values_ v else [].
Proof. unfold set. destruct (type_ v); reflexivity. Qed.

Lemma set_object_values_fresh (v : JSONValue) (key : string)
  (value : JSONValue) :
  object_values_ (set v key value)
  = map_assign key value (object_values_ v).
Proof. unfold set. destruct (type_ v); reflexivity. Qed.

Lemma push_back_array_values (v value : JSONValue) :
  array_values_ (push_back v value) = (array_values_ v ++ [value])%list.
Proof. unfold push_back. destruct (type_ v); reflexivity. Qed.

Lemma push_back_object_values (v value : JSONValue) :
  object_values_ (push_back v value)
  = if JSONType_eqb (type_ v) TArray then object_values_ v else [].
Proof. unfold push_back. destruct (type_ v); reflexivity. Qed.

Lemma every_value_set (p : JSONValue -> bool) (v : JSONValue)
  (key : string) (value : JSONValue) :
  p (set v key value) = true ->
  every_value p v = true ->
  every_value p value = true ->
  every_value p (set v key value) = true.
Proof.
  intros Hp Hv Hval. rewrite every_value_unfold in Hv.
  apply andb_true_iff in Hv. destruct Hv as [Hv Harr].
  apply andb_true_iff in Hv. destruct Hv as [_ Hmem].
  rewrite every_value_unfold, Hp, set_object_values_fresh, set_array_values.
  rewrite forallb_map_assign; [| exact Hval | exact Hmem].
  destruct (JSONType_eqb (type_ v) TObject); [now rewrite Harr | reflexivity].
Qed.

Lemma every_value_push_back (p : JSONValue -> bool) (v value : JSONValue) :
  p (push_back v value) = true ->
  every_value p v = true ->
  every_value p value = true ->
  every_value p (push_back v value) = true.
Proof.
  intros Hp Hv Hval. rewrite every_value_unfold in Hv.
  apply andb_true_iff in Hv. destruct Hv as [Hv Harr].
  apply andb_true_iff in Hv. destruct Hv as [_ Hmem].
  rewrite every_value_unfold, Hp, push_back_object_values,
    push_back_array_values, forallb_app, Harr.
  cbn [forallb]. rewrite Hval.
  destruct (JSONType_eqb (type_ v) TArray); [now rewrite Hmem | reflexivity].
Qed.

(** A property of single values that the constructors establish and that
    [set] and [push_back] keep holds of every value in a parsed tree. *)
Section ParseInvariant.
Variable p : JSONValue -> bool.
Hypothesis p_null : p JSONValue_null = true.
Hypothesis p_string : forall s, p (JSONValue_string s) = true.
Hypothesis p_int : forall z, p (JSONValue_int z) = true.
Hypothesis p_double : forall d, p (JSONValue_double d) = true.
Hypothesis p_bool : forall b, p (JSONValue_bool b) = true.
Hypothesis p_set :
  forall v key value, p v = true -> p (set v key value) = true.
Hypothesis p_push_back :
  forall v value, p v = true -> p (push_back v value) = true.

Lemma every_value_head (v : JSONValue) :
  every_value p v = true -> p v = true.
Proof.
  rewrite every_value_unfold. intros H.
  apply andb_true_iff in H. destruct H as [H _].
  apply andb_true_iff in H. tauto.
Qed.

Lemma parse_number_every_value (content : string) (pos : nat)
  (v : JSONValue) (pos' : nat) :
  parse_number content pos = Ok v pos' -> every_value p v = true.
Proof.
  unfold parse_number. destruct (is_floating_lexeme _).
  - destruct (stod _); intros H; inversion H.
    cbn [every_value JSONValue_double forallb]. fold (JSONValue_double d).
    now rewrite p_double.
  - destruct (stoi _); intros H; inversion H.
    cbn [every_value JSONValue_int forallb]. fold (JSONValue_int z).
    now rewrite p_int.
Qed.

Lemma parse_every_value (fuel : nat) :
  forall content pos,
    (forall v pos',
        parse_value fuel content pos = Ok v pos' ->
        every_value p v = true)
    /\ (forall v pos',
          parse_object fuel content pos = Ok v pos' ->
          every_value p v = true)
    /\ (forall obj v pos',
          every_value p obj = true ->
          parse_object_loop fuel content pos obj = Ok v pos' ->
          every_value p v = true)
    /\ (forall v pos',
          parse_array fuel content pos = Ok v pos' ->
          every_value p v = true)
    /\ (forall arr v pos',
          every_value p arr = true ->
          parse_array_loop fuel content pos arr = Ok v pos' ->
          every_value p v = true).
Proof.
  assert (Hnull : every_value p JSONValue_null = true).
  { cbn [every_value JSONValue_null forallb]. fold JSONValue_null.
    now rewrite p_null. }
  assert (Hempty : every_value p (set JSONValue_null "" JSONValue_null)
                   = true).
  { apply every_value_set; [apply p_set; exact p_null | exact Hnull ..]. }
  induction fuel as [| fuel IH]; intros content pos.
  - repeat split; intros; discriminate.
  - split; [| split; [| split; [| split]]].
    + intros v pos'. cbn [parse_value].
      set (q := skip_whitespace content pos).
      destruct (String.length content <=? q); [discriminate |].
      destruct (char_at content q =? "{")%char; [apply IH |].
      destruct (char_at content q =? "[")%char; [apply IH |].
      destruct (char_at content q =? dquote)%char.
      { destruct (parse_string content q); cbn [bind];
          intros H; inversion H.
        cbn [every_value JSONValue_string forallb].
        fold (JSONValue_string a). now rewrite p_string. }
      destruct ((char_at content q =? "t") || (char_at content q =? "f"))%char.
      { destruct (substr content q 4 =? "true")%string;
          [intros H; inversion H;
           cbn [every_value JSONValue_bool forallb];
           fold (JSONValue_bool true); now rewrite p_bool |].
        destruct (substr content q 5 =? "false")%string;
          intros H; inversion H.
        cbn [every_value JSONValue_bool forallb].
        fold (JSONValue_bool false). now rewrite p_bool. }
      destruct (char_at content q =? "n")%char.
      { destruct (substr content q 4 =? "null")%string;
          intros H; inversion H; subst; exact Hnull. }
      destruct (isdigit (char_at content q) || (char_at content q =? "-")%char);
        [apply parse_number_every_value | discriminate].
    + intros v pos'. cbn [parse_object].
      destruct ((skip_whitespace content (S pos) <? String.length content)
                && (char_at content (skip_whitespace content (S pos))
                    =? "}")%char).
      * intros H; inversion H; subst; exact Hempty.
      * apply IH; exact Hempty.
    + intros obj v pos' Hobj. cbn [parse_object_loop].
      destruct (pos <? String.length content);
        [| intros H; inversion H; subst; exact Hobj].
      destruct (negb (char_at content (skip_whitespace content pos)
                      =? dquote)%char); [discriminate |].
      destruct (parse_string content (skip_whitespace content pos))
        as [key p1 | what |]; cbn [bind]; try discriminate.
      destruct ((String.length content <=? skip_whitespace content p1)
                || negb (char_at content (skip_whitespace content p1)
                         =? ":")%char); [discriminate |].
      destruct (parse_value fuel content _) as [value p4 | what |] eqn:Ev;
        cbn [bind]; try discriminate.
      apply (proj1 (IH _ _)) in Ev.
      assert (Hset : every_value p (set obj key value) = true).
      { apply every_value_set; [| exact Hobj | exact Ev].
        apply p_set, every_value_head, Hobj. }
      destruct (String.length content <=? skip_whitespace content p4);
        [discriminate |].
      destruct (char_at content (skip_whitespace content p4) =? "}")%char;
        [intros H; inversion H; subst; exact Hset |].
      destruct (char_at content (skip_whitespace content p4) =? ",")%char;
        [| discriminate].
      apply IH; exact Hset.
    + intros v pos'. cbn [parse_array].
      destruct ((skip_whitespace content (S pos) <? String.length content)
                && (char_at content (skip_whitespace content (S pos))
                    =? "]")%char).
      * intros H; inversion H; subst; exact Hnull.
      * apply IH; exact Hnull.
    + intros arr v pos' Harr. cbn [parse_array_loop].
      destruct (pos <? String.length content);
        [| intros H; inversion H; subst; exact Harr].
      destruct (parse_value fuel content _) as [value p4 | what |] eqn:Ev;
        cbn [bind]; try discriminate.
      apply (proj1 (IH _ _)) in Ev.
      assert (Hpush : every_value p (push_back arr value) = true).
      { apply every_value_push_back; [| exact Harr | exact Ev].
        apply p_push_back, every_value_head, Harr. }
      destruct (String.length content <=? skip_whitespace content p4);
        [discriminate |].
      destruct (char_at content (skip_whitespace content p4) =? "]")%char;
        [intros H; inversion H; subst; exact Hpush |].
      destruct (char_at content (skip_whitespace content p4) =? ",")%char;
        [| discriminate].
      apply IH; exact Hpush.
Qed.

End ParseInvariant.

Lemma well_tagged_set (v : JSONValue) (key : string) (value : JSONValue) :
  well_tagged v = true -> well_tagged (set v key value) = true.
Proof.
  unfold well_tagged, set.
  destruct (type_ v) eqn:E; cbn; rewrite ?E; try reflexivity.
  intros H. exact H.
Qed.

Lemma well_tagged_push_back (v value : JSONValue) :
  well_tagged v = true -> well_tagged (push_back v value) = true.
Proof.
  unfold well_tagged, push_back.
  destruct (type_ v) eqn:E; cbn; rewrite ?E; try reflexivity.
  intros H. exact H.
Qed.

Lemma keys_in_order_set (v : JSONValue) (key : string) (value : JSONValue) :
  keys_in_order v = true -> keys_in_order (set v key value) = true.
Proof.
  unfold keys_in_order. rewrite set_object_values_fresh.
  apply map_assign_sorted.
Qed.

Lemma keys_in_order_push_back (v value : JSONValue) :
  keys_in_order v = true -> keys_in_order (push_back v value) = true.
Proof.
  unfold keys_in_order. rewrite push_back_object_values.
  destruct (JSONType_eqb (type_ v) TArray); [tauto | reflexivity].
Qed.


Lemma every_value_get (p : JSONValue -> bool) (v : JSONValue) (k : string) :
  p JSONValue_null = true ->
  every_value p v = true ->
  every_value p (get v k) = true.
Proof.
  intros Hnull Hv.
  assert (Hn : every_value p JSONValue_null = true).
  { cbn [every_value JSONValue_null forallb]. fold JSONValue_null.
    now rewrite Hnull. }
  unfold get. destruct (negb (JSONType_eqb (type_ v) TObject)); [exact Hn |].
  destruct (map_find k (object_values_ v)) as [it |] eqn:E; [| exact Hn].
  rewrite every_value_unfold in Hv.
  apply andb_true_iff in Hv. destruct Hv as [Hv _].
  apply andb_true_iff in Hv. destruct Hv as [_ Hmem].
  destruct (map_find_forallb _ _ _ _ Hmem E) as [k' Hk']. exact Hk'.
Qed.

Lemma every_value_get_value_loop (p : JSONValue -> bool)
  (components : list string) :
  p JSONValue_null = true ->
  forall current,
    every_value p current = true ->
    every_value p (get_value_loop components current) = true.
Proof.
  intros Hnull.
  assert (Hn : every_value p JSONValue_null = true).
  { cbn [every_value JSONValue_null forallb]. fold JSONValue_null.
    now rewrite Hnull. }
  induction components as [| c components IH]; intros current Hc;
    [exact Hc |].
  cbn [get_value_loop].
  destruct (negb (JSONType_eqb (get_type current) TObject)); [exact Hn |].
  destruct (JSONType_eqb (get_type (get current c)) TNull); [exact Hn |].
  apply IH, every_value_get; assumption.
Qed.

Lemma every_value_get_value (p : JSONValue -> bool) (r : JSONResult)
  (path : string) :
  p JSONValue_null = true ->
  every_value p (root r) = true ->
  every_value p (get_value r path) = true.
Proof.
  intros Hnull Hr. unfold get_value.
  destruct (path =? "")%string; [exact Hr |].
  apply every_value_get_value_loop; assumption.
Qed.

Lemma parse_root_every_value (p : JSONValue -> bool) (content : string)
  (r : JSONResult) :
  p JSONValue_null = true ->
  (forall fuel pos v pos',
      parse_value fuel content pos = Ok v pos' -> every_value p v = true) ->
  parse content = Some r ->
  every_value p (root r) = true.
Proof.
  intros Hnull Hall. unfold parse.
  destruct (parse_value (parse_fuel content) content
              (skip_whitespace content 0)) as [v pos' | what |] eqn:E;
    intros H; inversion H; cbn [root].
  - exact (Hall _ _ _ _ E).
  - cbn [every_value JSONValue_null forallb]. fold JSONValue_null.
    now rewrite Hnull.
Qed.

(** X3: the keys that [get_keys] lists for any path of a parse result are
    in strictly ascending order, hence without repetition, whatever the
    order and the repetitions of the keys in the text; this holds of the
    map of every value in a parsed tree. *)
Theorem parsed_keys_ascending (content : string) (r : JSONResult) :
  parse content = Some r ->
  every_value keys_in_order (root r) = true
  /\ forall path,
      keys_sorted (get_keys_at r path) = true
      /\ distinct_keys (get_keys_at r path) = true.
Proof.
  intros Hparse.
  assert (Hroot : every_value keys_in_order (root r) = true).
  { apply (parse_root_every_value keys_in_order content r);
      [reflexivity | | exact Hparse].
    intros fuel pos v pos'.
    apply (parse_every_value keys_in_order); try reflexivity.
    - exact keys_in_order_set.
    - exact keys_in_order_push_back. }
  split; [exact Hroot |].
  intros path.
  assert (Hs : keys_sorted (get_keys_at r path) = true).
  { unfold get_keys_at, get_keys, get_type.
    destruct (JSONType_eqb (type_ (get_value r path)) TObject);
      [| reflexivity].
    apply (every_value_head keys_in_order).
    apply every_value_get_value; [reflexivity | exact Hroot]. }
  split; [exact Hs | apply keys_sorted_distinct; exact Hs].
Qed.

Lemma parsed_keys_ascending_witness :
  exists r,
    parse ("{" ++ quoted "b" ++ ":1," ++ quoted "a" ++ ":2,"
           ++ quoted "b" ++ ":3}") = Some r
    /\ get_keys_at r "" = [""; "a"; "b"]
    /\ keys_sorted (get_keys_at r "") = true.
Proof.
  eexists. split; [vm_compute; reflexivity |].
  split; [vm_compute; reflexivity |].
  refine (proj1 (proj2 (parsed_keys_ascending
            ("{" ++ quoted "b" ++ ":1," ++ quoted "a" ++ ":2,"
             ++ quoted "b" ++ ":3}") _ _) "")).
  vm_compute. reflexivity.
Defined.

(** X4: a value carries only the payload of its kind. The constructors
    make such values, [set] and [push_back] keep them so (a change of kind
    clears the other payloads), and so is every value in a parsed tree.
    Hence [set] on such a value that is no Object leaves exactly the one
    member, and [push_back] on one that is no Array exactly the one
    element. *)
Theorem payload_follows_kind :
  (forall v key value,
      well_tagged v = true ->
      well_tagged (set v key value) = true
      /\ well_tagged (push_back v value) = true
      /\ (get_type v <> TObject ->
          get_keys (set v key value) = [key]
          /\ size (set v key value) = 1)
      /\ (get_type v <> TArray ->
          size (push_back v value) = 1
          /\ get_keys (push_back v value) = []))
  /\ (forall fuel content pos v pos',
        parse_value fuel content pos = Ok v pos' ->
        every_value well_tagged v = true).
Proof.
  split.
  - intros v key value Hw.
    split; [apply well_tagged_set; exact Hw |].
    split; [apply well_tagged_push_back; exact Hw |].
    unfold well_tagged in Hw. unfold get_type, get_keys, size, set, push_back.
    split; intros Ht; destruct (type_ v) eqn:E; try contradiction;
      cbn [JSONType_eqb negb type_ object_values_ array_values_];
      repeat (apply andb_true_iff in Hw; destruct Hw as [Hw ?]);
      repeat match goal with
             | H : match ?l with [] => true | _ :: _ => false end = true |- _ =>
                 destruct l; [clear H | discriminate H]
             end;
      split; reflexivity.
  - intros fuel content pos v pos'.
    apply (parse_every_value well_tagged); try reflexivity.
    + exact well_tagged_set.
    + exact well_tagged_push_back.
Qed.

Lemma payload_follows_kind_witness :
  let arr := push_back (JSONValue_int 7) (JSONValue_int 1) in
  well_tagged (set arr "k" JSONValue_null) = true
  /\ size (set arr "k" JSONValue_null) = 1
  /\ exists v pos',
      parse_value 9 "[1,{}]" 0 = Ok v pos'
      /\ every_value well_tagged v = true.
Proof.
  intros arr.
  destruct (proj1 payload_follows_kind (JSONValue_int 7) "k"
              (JSONValue_int 1) eq_refl) as [_ [Harr _]].
  destruct (proj1 payload_follows_kind arr "k" JSONValue_null Harr)
    as [Hset [_ [Hone _]]].
  split; [exact Hset |].
  split; [apply Hone; discriminate |].
  eexists. eexists. split; [vm_compute; reflexivity |].
  apply (proj2 payload_follows_kind 9 "[1,{}]" 0 _ 6).
  vm_compute. reflexivity.
Defined.

(** ** The parser and the grammar at any cursor *)

Lemma parse_value_inside (fuel : nat) (content : string) (pos : nat)
  (v : JSONValue) (pos' : nat) :
  parse_value fuel content pos = Ok v pos' ->
  pos < String.length content.
Proof.
  destruct fuel as [| fuel]; [discriminate |]. cbn [parse_value].
  pose proof (skip_whitespace_spec content pos) as [Hle _].
  destruct (String.length content <=? skip_whitespace content pos) eqn:E;
    [discriminate |].
  apply Nat.leb_gt in E. intros _. lia.
Qed.

Lemma reads_shorter :
  (forall text v rest,
      reads_value text v rest -> String.length rest < String.length text)
  /\ (forall text members rest,
        reads_members text members rest ->
        String.length rest <= String.length text)
  /\ (forall text elements rest,
        reads_elements text elements rest ->
        String.length rest <= String.length text).
Proof.
  apply reads_mutual_ind; intros;
    repeat (rewrite append_length || cbn [String.length]);
    repeat match goal with
           | H : context [String.length (_ ++ _)] |- _ =>
               rewrite append_length in H
           end;
    cbn [String.length] in *; try lia.
  match goal with
  | Hwf : lexeme_well_formed ?l = true, Hf : _ \/ _ |- _ =>
      destruct (lexeme_text_first l "" Hwf Hf) as [c [text' [Ht _]]];
      rewrite append_empty_r in Ht; rewrite Ht
  end.
  cbn [String.length]. lia.
Qed.

(** X5: whatever [parse_value] returns, at any cursor and with any fuel, is
    the reading of the grammar: the unread text at the old cursor starts
    with a value that denotes the returned one, and the unread text at the
    new cursor is what the grammar leaves behind it. The cursor only moves
    forward and stays within the text, and the outcome does not depend on
    the fuel once the fuel suffices. *)
Theorem parse_value_follows_grammar (fuel : nat) (content : string)
  (pos : nat) (v : JSONValue) (pos' : nat) :
  parse_value fuel content pos = Ok v pos' ->
  reads_value (drop pos content) v (drop pos' content)
  /\ pos < pos' /\ pos' <= String.length content
  /\ (forall fuel',
        parse_value fuel' content pos <> OutOfFuel ->
        parse_value fuel' content pos = Ok v pos')
  /\ parse_value (parse_fuel content) content pos = Ok v pos'.
Proof.
  intros Hparse.
  pose proof (parse_value_inside _ _ _ _ _ Hparse) as Hin.
  assert (Hpos : pos <= String.length content) by lia.
  assert (Hfull : parse_value (parse_fuel content) content pos = Ok v pos').
  { rewrite (parse_value_any_fuel fuel content pos Hpos), Hparse;
      [reflexivity | rewrite Hparse; discriminate]. }
  pose proof (proj1 (parse_reads fuel content pos) _ _ Hparse) as Hreads.
  split; [exact Hreads |].
  pose proof (parse_value_fuel_enough content pos Hpos) as Hret.
  rewrite Hfull in Hret. cbn [returns_from] in Hret.
  pose proof (proj1 reads_shorter _ _ _ Hreads) as Hshort.
  rewrite !drop_length in Hshort.
  split; [lia |]. split; [lia |]. split; [| exact Hfull].
  intros fuel' Hfin.
  rewrite <- (parse_value_any_fuel fuel' content pos Hpos Hfin).
  exact Hfull.
Qed.

Lemma parse_value_follows_grammar_witness :
  reads_value " [true] y" (push_back JSONValue_null (JSONValue_bool true))
    " y"
  /\ parse_value 40 "x [true] y" 1
     = Ok (push_back JSONValue_null (JSONValue_bool true)) 8.
Proof.
  assert (H : parse_value 5 "x [true] y" 1
              = Ok (push_back JSONValue_null (JSONValue_bool true)) 8)
    by (vm_compute; reflexivity).
  destruct (parse_value_follows_grammar 5 "x [true] y" 1 _ 8 H)
    as [Hreads [_ [_ [Hfuel _]]]].
  split; [exact Hreads |].
  apply Hfuel. vm_compute. discriminate.
Defined.

(** ** Array literals *)

Lemma nth_at_array (elements : list JSONValue) (index : nat) :
  at_ (mkJSONValue TArray "" 0%Z double_zero false [] elements) index
  = nth index elements JSONValue_null.
Proof.
  unfold at_. cbn [type_ array_values_ JSONType_eqb negb orb].
  destruct (List.length elements <=? index) eqn:E; [| reflexivity].
  apply Nat.leb_le in E. symmetry. apply nth_overflow. exact E.
Qed.

(** X6: an array literal (an opening bracket and the elements that the
    grammar reads up to the closing bracket) is parsed to the value that
    holds the denoted elements in the order written: [size] is their number
    and [at(i)] is the i-th of them, Null beyond the last. With an element
    the value is an Array; the literal without elements, [[]], is parsed to
    a Null value and is written back as [null]. *)
Theorem parsed_array_elements (ws ws' text : string)
  (elements : list JSONValue) (rest : string) :
  all_space ws = true -> all_space ws' = true ->
  reads_elements text elements rest ->
  exists r,
    parse (ws ++ String "[" (ws' ++ text)) = Some r
    /\ success r = true
    /\ root r = array_of elements
    /\ size (root r) = List.length elements
    /\ (forall index,
          at_ (root r) index = nth index elements JSONValue_null)
    /\ get_type (root r)
       = match elements with
         | [] => TNull
         | _ :: _ => TArray
         end
    /\ parse "[]" = Some (mkJSONResult true "" JSONValue_null)
    /\ parse "[ ]x" = Some (mkJSONResult true "" JSONValue_null)
    /\ to_string (mkJSONResult true "" (array_of [])) false = "null".
Proof.
  intros Hws Hws' Hreads.
  exists (mkJSONResult true "" (array_of elements)).
  split; [apply (reads_value_parse _ _ rest);
          apply value_array; assumption |].
  split; [reflexivity |]. split; [reflexivity |]. cbn [root].
  unfold array_of.
  destruct elements as [| e elements].
  - repeat split. intros index. destruct index; reflexivity.
  - rewrite fold_push_back_null.
    split; [reflexivity |].
    split; [intros index; apply nth_at_array |].
    repeat split.
Qed.

Lemma parsed_array_elements_witness :
  exists r,
    parse ("[1, " ++ quoted "a" ++ "]") = Some r
    /\ size (root r) = 2
    /\ at_ (root r) 1 = JSONValue_string "a"
    /\ at_ (root r) 2 = JSONValue_null.
Proof.
  destruct (parsed_array_elements "" "" ("1, " ++ quoted "a" ++ "]")
              [JSONValue_int 1; JSONValue_string "a"] "")
    as [r [Hr [_ [_ [Hsize [Hat _]]]]]]; try reflexivity.
  - apply (elements_more _ (JSONValue_int 1) ""
             (String " " (quoted "a" ++ "]")) [JSONValue_string "a"] "");
      [| reflexivity |].
    + apply (value_number "" (mkLexeme false "1" None None)
               (String "," (String " " (quoted "a" ++ "]"))));
        try reflexivity.
      right. discriminate.
    + apply (elements_last _ (JSONValue_string "a") "" ""); [| reflexivity].
      apply (value_string " " "a" "a" (String "]" "")); [reflexivity |].
      apply body_char; [discriminate | discriminate | apply body_end].
  - exists r. split; [exact Hr |]. split; [exact Hsize |].
    split; [apply (Hat 1) | apply (Hat 2)].
Defined.

(** ** String literals and their escapes *)

(** X7: [parse_string] at an opening quote returns the string that the
    characters up to the closing quote denote, each of the eight escapes
    (a backslash and then a quote, a backslash, a slash or one of the
    letters b, f, n, r, t) standing for its character and every other
    character for itself, and leaves the cursor behind the closing quote;
    and whatever it returns is read in this way. A literal that the input
    ends, an escape that the input cuts and any other escape, the escape
    with the letter u among them, are errors. *)
Theorem parse_string_unescapes :
  (forall content pos raw s rest,
      drop pos content = String dquote (raw ++ String dquote rest) ->
      string_body raw s ->
      exists pos',
        parse_string content pos = Ok s pos' /\ drop pos' content = rest)
  /\ (forall content pos s pos',
        pos < String.length content ->
        parse_string content pos = Ok s pos' ->
        exists raw,
          string_body raw s
          /\ drop pos content
             = String dquote (raw ++ String dquote (drop pos' content)))
  /\ (forall raw s,
        string_body raw s -> String.length s <= String.length raw)
  /\ parse_string (String dquote "ab") 0 = Throw "Unterminated string"
  /\ parse_string (String dquote (String backslash "")) 0
     = Throw "Unexpected end of input in string"
  /\ parse_string (String dquote (String backslash ("u0041" ++ quoted ""))) 0
     = Throw (String.append "Invalid escape sequence: "
                (String backslash "u"))
  /\ parse_string "ab" 0
     = Throw ("Expected '" ++ String dquote "' at start of string").
Proof.
  split.
  { intros content pos raw s rest Hdrop Hbody.
    exact (string_body_parse raw s content pos rest Hbody Hdrop). }
  split; [exact parse_string_reads |].
  split.
  { intros raw s Hbody. induction Hbody; cbn [String.length]; lia. }
  repeat split.
Qed.

Lemma parse_string_unescapes_witness :
  parse_string ("x" ++ String dquote
                  ("a" ++ String backslash ("n" ++ String backslash
                     (String dquote (String dquote "y"))))) 1
  = Ok ("a" ++ String newline_char (String dquote "")) 8.
Proof.
  destruct (proj1 parse_string_unescapes
              ("x" ++ String dquote
                 ("a" ++ String backslash ("n" ++ String backslash
                    (String dquote (String dquote "y"))))) 1
              ("a" ++ String backslash ("n" ++ String backslash
                 (String dquote "")))
              ("a" ++ String newline_char (String dquote "")) "y")
    as [pos' [Hparse Hrest]].
  - reflexivity.
  - apply body_char; [discriminate | discriminate |].
    apply (body_escape "n" newline_char); [reflexivity |].
    apply (body_escape dquote dquote); [reflexivity |].
    apply body_end.
  - rewrite Hparse. f_equal.
    assert (H : parse_string
                  ("x" ++ String dquote
                     ("a" ++ String backslash ("n" ++ String backslash
                        (String dquote (String dquote "y"))))) 1
                = Ok ("a" ++ String newline_char (String dquote "")) 8)
      by (vm_compute; reflexivity).
    rewrite H in Hparse. inversion Hparse. reflexivity.
Defined.

(** ** White space in front of a token *)

Lemma skip_whitespace_no_space_ahead (content : string) (pos : nat) :
  no_space_ahead (drop (skip_whitespace content pos) content).
Proof.
  pose proof (skip_whitespace_spec content pos) as [_ [_ H]].
  rewrite (peek_drop isspace) in H. unfold no_space_ahead.
  destruct (drop (skip_whitespace content pos) content); [exact I | exact H].
Qed.

(** X8: [skip_whitespace] moves the cursor over the longest run of white
    space in front of it and over nothing else: the text between the old
    and the new cursor is white space, the text at the new cursor does not
    start with white space, and the cursor has moved by the length of the
    run. Wherever the unread text is a run of white space followed by a
    text that does not start with white space, the new cursor is at that
    text. A second call does not move the cursor. *)
Theorem skip_whitespace_stops_at_token (content : string) (pos : nat) :
  (exists ws,
      all_space ws = true
      /\ drop pos content = ws ++ drop (skip_whitespace content pos) content
      /\ no_space_ahead (drop (skip_whitespace content pos) content)
      /\ skip_whitespace content pos = pos + String.length ws)
  /\ (forall ws text,
        drop pos content = ws ++ text ->
        all_space ws = true -> no_space_ahead text ->
        skip_whitespace content pos = pos + String.length ws
        /\ drop (skip_whitespace content pos) content = text)
  /\ pos <= skip_whitespace content pos
  /\ (pos <= String.length content ->
      skip_whitespace content pos <= String.length content)
  /\ skip_whitespace content (skip_whitespace content pos)
     = skip_whitespace content pos.
Proof.
  split; [| split; [| split; [| split]]].
  - destruct (skip_whitespace_drop content pos) as [ws [Hws Hdrop]].
    exists ws. split; [exact Hws |]. split; [exact Hdrop |].
    split; [apply skip_whitespace_no_space_ahead |].
    exact (proj1 (skip_whitespace_over content pos ws _ Hdrop Hws
                    (skip_whitespace_no_space_ahead content pos))).
  - intros ws text Hdrop Hws Htext.
    destruct (skip_whitespace_over content pos ws text Hdrop Hws Htext)
      as [Hp Hd].
    split; [exact Hp | now rewrite Hp].
  - apply skip_whitespace_spec.
  - apply skip_whitespace_spec.
  - apply skip_whitespace_idem.
Qed.

Lemma skip_whitespace_stops_at_token_witness :
  skip_whitespace ("ab " ++ String newline_char " 1 2") 2 = 5.
Proof.
  apply (proj1 (proj2 (skip_whitespace_stops_at_token
                         ("ab " ++ String newline_char " 1 2") 2))
           (" " ++ String newline_char " ") "1 2");
    [reflexivity | reflexivity | reflexivity].
Defined.

(** ** Paths of several segments *)

Lemma path_segments_dot (p q : string) :
  path_segments (p ++ String "." q)
  = (path_segments p ++ path_segments q)%list.
Proof.
  induction p as [| c p IH]; [reflexivity |].
  cbn [String.append path_segments]. rewrite IH.
  destruct (c =? ".")%char; [reflexivity |].
  pose proof (path_segments_not_nil p) as Hne.
  destruct (path_segments p); [congruence | reflexivity].
Qed.

Lemma without_last_empty_app (a b : list string) :
  b <> [] -> without_last_empty (a ++ b) = (a ++ without_last_empty b)%list.
Proof.
  intros Hb. induction a as [| s a IH]; [reflexivity |].
  cbn [app]. rewrite without_last_empty_cons, IH; [reflexivity |].
  destruct a; [exact Hb | discriminate].
Qed.

Lemma without_last_empty_keeps (segments : list string) :
  last segments "" <> "" -> without_last_empty segments = segments.
Proof.
  induction segments as [| s segments IH]; [reflexivity |].
  destruct segments as [| s' segments].
  - cbn [last without_last_empty]. intros H.
    destruct (s =? "")%string eqn:E; [| reflexivity].
    apply String.eqb_eq in E. contradiction.
  - intros H. rewrite without_last_empty_cons by discriminate.
    f_equal. apply IH. exact H.
Qed.

Lemma get_value_loop_null (components : list string) :
  get_value_loop components JSONValue_null = JSONValue_null.
Proof. destruct components; reflexivity. Qed.

Lemma get_value_loop_null_type (components : list string)
  (current : JSONValue) :
  get_type current = TNull ->
  get_type (get_value_loop components current) = TNull.
Proof.
  intros Ht. destruct components as [| s components]; [exact Ht |].
  cbn [get_value_loop]. now rewrite Ht.
Qed.

Lemma get_value_loop_app (a b : list string) :
  forall current,
    get_value_loop (a ++ b) current
    = get_value_loop b (get_value_loop a current).
Proof.
  induction a as [| s a IH]; intros current; [reflexivity |].
  cbn [app get_value_loop].
  destruct (negb (JSONType_eqb (get_type current) TObject));
    [now rewrite get_value_loop_null |].
  destruct (JSONType_eqb (get_type (get current s)) TNull);
    [now rewrite get_value_loop_null |].
  apply IH.
Qed.

(** X9: a path is resolved segment by segment, so a path made of two
    paths with a dot between them resolves as the second path does from the
    value that the first one resolves to, whenever the last segment of the
    first path is not empty (the first path is not empty and does not end
    with a dot). Hence a path that is found has its front part found too,
    and the typed getters on the whole path are the getters with the second
    path on the value of the first. *)
Theorem get_value_composes (r : JSONResult) (p q : string) :
  last (path_segments p) "" <> "" ->
  get_value r (p ++ "." ++ q) = get_value (result_of (get_value r p)) q
  /\ (has_path r (p ++ "." ++ q) = true -> has_path r p = true)
  /\ (forall default_value,
        get_int r (p ++ "." ++ q) default_value
        = get_int (result_of (get_value r p)) q default_value)
  /\ (forall default_value,
        get_string r (p ++ "." ++ q) default_value
        = get_string (result_of (get_value r p)) q default_value)
  /\ (forall default_value,
        get_bool r (p ++ "." ++ q) default_value
        = get_bool (result_of (get_value r p)) q default_value)
  /\ get_keys_at r (p ++ "." ++ q)
     = get_keys_at (result_of (get_value r p)) q.
Proof.
  intros Hlast.
  assert (H : get_value r (p ++ "." ++ q)
              = get_value (result_of (get_value r p)) q).
  { rewrite !get_value_looked_up. unfold looked_up_segments.
    change (p ++ "." ++ q) with (p ++ String "." q).
    rewrite path_segments_dot,
      (without_last_empty_app _ _ (path_segments_not_nil q)),
      get_value_loop_app, (without_last_empty_keeps _ Hlast).
    reflexivity. }
  split; [exact H |].
  split.
  { unfold has_path. rewrite H. intros Hq.
    destruct (JSONType_eqb (get_type (get_value r p)) TNull) eqn:E;
      [| reflexivity].
    exfalso.
    assert (Ht : get_type (get_value r p) = TNull)
      by (destruct (get_type (get_value r p)); try discriminate E;
          reflexivity).
    rewrite (get_value_looked_up (result_of (get_value r p)) q) in Hq.
    cbn [result_of root] in Hq.
    rewrite (get_value_loop_null_type _ _ Ht) in Hq. discriminate. }
  unfold get_int, get_string, get_bool, get_keys_at. rewrite H.
  repeat split.
Qed.

Lemma get_value_composes_witness :
  let r :=
    result_of (object_of [("a", object_of [("b", JSONValue_int 5)])]) in
  get_value r "a.b" = get_value (result_of (get_value r "a")) "b"
  /\ get_int r "a.b" 0 = 5%Z.
Proof.
  intros r.
  destruct (get_value_composes r "a" "b") as [H [_ [Hint _]]];
    [cbn; discriminate |].
  split; [exact H |].
  change "a.b" with ("a" ++ "." ++ "b"). rewrite (Hint 0%Z).
  vm_compute. reflexivity.
Defined.

(** ** Conversions between the scalar kinds *)



(** ** The messages of the parse errors *)

(** X11: the message of a failed parse names the first error, and nothing
    after it is read. An input that is empty or only white space fails with
    [Unexpected end of input]; an input whose first token starts with a
    character that starts no value fails with [Unexpected character: ]
    followed by that character (the message ends at a NUL character). The
    other messages are shown on one input each; an array or an object that
    ends after a comma is accepted, but not when white space follows the
    comma. *)
Theorem parse_error_messages :
  (forall content,
      all_space content = true ->
      parse content
      = Some (mkJSONResult false "Unexpected end of input" JSONValue_null))
  /\ (forall ws c rest,
        all_space ws = true -> isspace c = false ->
        starts_value c = false ->
        parse (ws ++ String c rest)
        = Some (mkJSONResult false
                  (c_str ("Unexpected character: " ++ string_of_char c))
                  JSONValue_null))
  /\ parse "tru"
     = Some (mkJSONResult false "Invalid boolean value" JSONValue_null)
  /\ parse "nul"
     = Some (mkJSONResult false "Invalid null value" JSONValue_null)
  /\ parse "{a:1}"
     = Some (mkJSONResult false "Expected string key in object"
               JSONValue_null)
  /\ parse ("{" ++ quoted "a" ++ " 1}")
     = Some (mkJSONResult false "Expected ':' after key" JSONValue_null)
  /\ parse ("{" ++ quoted "a" ++ ":1")
     = Some (mkJSONResult false "Unexpected end of input in object"
               JSONValue_null)
  /\ parse ("{" ++ quoted "a" ++ ":1 " ++ quoted "b" ++ ":2}")
     = Some (mkJSONResult false "Expected ',' or '}' in object"
               JSONValue_null)
  /\ parse "[1"
     = Some (mkJSONResult false "Unexpected end of input in array"
               JSONValue_null)
  /\ parse "[1 2]"
     = Some (mkJSONResult false "Expected ',' or ']' in array"
               JSONValue_null)
  /\ parse (String dquote "ab")
     = Some (mkJSONResult false "Unterminated string" JSONValue_null)
  /\ parse ("[[1, {" ++ quoted "a" ++ ":x}], oops")
     = Some (mkJSONResult false "Unexpected character: x" JSONValue_null)
  /\ parse ("{" ++ quoted "a" ++ ":1,")
     = Some (mkJSONResult true ""
               (set (set JSONValue_null "" JSONValue_null) "a"
                  (JSONValue_int 1)))
  /\ parse ("{" ++ quoted "a" ++ ":1, ")
     = Some (mkJSONResult false "Expected string key in object"
               JSONValue_null)
  /\ parse "[1, "
     = Some (mkJSONResult false "Unexpected end of input" JSONValue_null).
Proof.
  split.
  { intros content Hws. unfold parse. rewrite parse_from_start.
    destruct (parse_fuel_positive content) as [fuel ->].
    destruct (skip_to_end content 0 content eq_refl Hws)
      as [p [Hskip [Hlt _]]].
    cbn [parse_value]. rewrite Hskip.
    apply Nat.ltb_ge in Hlt. apply Nat.leb_le in Hlt. rewrite Hlt.
    reflexivity. }
  split.
  { intros ws c rest Hws Hc Hstart. unfold parse. rewrite parse_from_start.
    destruct (parse_fuel_positive (ws ++ String c rest)) as [fuel ->].
    destruct (parse_value_token fuel (ws ++ String c rest) 0 ws c rest
                eq_refl Hws Hc) as [p [_ [_ [_ Hparse]]]].
    rewrite Hparse. unfold starts_value in Hstart.
    repeat (apply orb_false_iff in Hstart;
            destruct Hstart as [Hstart ?]).
    repeat match goal with
           | H : (_ =? _)%char = false |- _ => rewrite H; clear H
           | H : isdigit _ = false |- _ => rewrite H; clear H
           end.
    reflexivity. }
  repeat split; vm_compute; reflexivity.
Qed.

Lemma parse_error_messages_witness :
  parse (" " ++ String newline_char "")
  = Some (mkJSONResult false "Unexpected end of input" JSONValue_null)
  /\ parse " @1"
     = Some (mkJSONResult false "Unexpected character: @" JSONValue_null).
Proof.
  split.
  - apply (proj1 parse_error_messages). reflexivity.
  - apply (proj1 (proj2 parse_error_messages) " " "@"%char "1");
      reflexivity.
Defined.

(** ** The serialized text as a text of the grammar *)

Lemma reads_value_after_space (ws text : string) (v : JSONValue)
  (rest : string) :
  all_space ws = true ->
  reads_value text v rest -> reads_value (ws ++ text) v rest.
Proof.
  intros Hws H.
  assert (Hboth : forall ws0, all_space ws0 = true ->
                              all_space (ws ++ ws0) = true).
  { intros ws0 H0. now rewrite all_space_app, Hws, H0. }
  destruct H; rewrite <- append_assoc.
  - apply value_null; auto.
  - apply value_true; auto.
  - apply value_false; auto.
  - apply value_string; auto.
  - apply value_number; auto.
  - apply value_empty_object; auto.
  - apply value_object; auto.
  - apply value_empty_array; auto.
  - apply value_array; auto.
Qed.

Lemma string_body_plain (s : string) :
  no_escape_needed s = true -> string_body s s.
Proof.
  induction s as [| c s IH]; intros H; [apply body_end |].
  cbn [no_escape_needed] in H.
  apply andb_true_iff in H. destruct H as [H Hs].
  apply andb_true_iff in H. destruct H as [Hq Hb].
  apply negb_true_iff in Hq, Hb.
  apply body_char; [| | apply IH; exact Hs].
  - intros ->. now rewrite Ascii.eqb_refl in Hq.
  - intros ->. now rewrite Ascii.eqb_refl in Hb.
Qed.

Lemma all_space_repeat (n : nat) : all_space (string_repeat n " ") = true.
Proof. induction n as [| n IH]; [reflexivity | exact IH]. Qed.

Lemma to_string_int_reads (z : Z) (rest : string) :
  in_int_range z = true -> ends_number rest = true ->
  reads_value (to_string_int z ++ rest) (JSONValue_int z) rest.
Proof.
  intros Hr He.
  set (l := mkLexeme (z <? 0)%Z (dec_string (Z.abs z)) None None).
  destruct (dec_string_spec (Z.abs z) (Z.abs_nonneg z))
    as [Hdigits [[c [tail [Hhead _]]] _]].
  assert (Htext : lexeme_text l = to_string_int z).
  { unfold lexeme_text, l, to_string_int.
    cbn [lex_minus lex_int lex_frac lex_exp frac_text exp_text].
    rewrite !append_empty_r.
    destruct (z <? 0)%Z eqn:E.
    - apply Z.ltb_lt in E. now rewrite Z.abs_neq by lia.
    - apply Z.ltb_ge in E. now rewrite Z.abs_eq by lia. }
  assert (Hwf : lexeme_well_formed l = true).
  { unfold lexeme_well_formed, l. cbn [lex_int lex_frac lex_exp].
    now rewrite Hdigits. }
  rewrite <- Htext.
  apply (value_number "" l rest (JSONValue_int z)).
  - reflexivity.
  - exact Hwf.
  - right. unfold l. cbn [lex_int]. rewrite Hhead. discriminate.
  - unfold lexeme_stops, l. cbn [lex_frac lex_exp].
    unfold ends_number in He. destruct rest as [| c0 rest]; [reflexivity |].
    apply andb_true_iff in He. destruct He as [He HE].
    apply andb_true_iff in He. destruct He as [He He'].
    apply andb_true_iff in He. destruct He as [Hdig Hdot].
    now rewrite Hdig, Hdot, He', HE.
  - rewrite <- (stoi_lexeme l Hwf eq_refl eq_refl), Htext,
      (stoi_to_string_int z Hr).
    reflexivity.
Qed.

Lemma to_string_double_reads (d : double) (rest : string) :
  six_decimals_exact d = true -> ends_number rest = true ->
  reads_value (to_string_double d ++ rest) (JSONValue_double d) rest.
Proof.
  intros Hd He.
  destruct (to_string_double_lexeme d Hd)
    as [l [fd [Htext [Hwf [Hfirst [Hfrac [Hexp Hvalue]]]]]]].
  rewrite Htext.
  apply (value_number "" l rest (JSONValue_double d)); try assumption;
    [reflexivity |].
  unfold lexeme_stops. rewrite Hfrac, Hexp.
  unfold ends_number in He. destruct rest as [| c0 rest]; [reflexivity |].
  apply andb_true_iff in He. destruct He as [He HE].
  apply andb_true_iff in He. destruct He as [He He'].
  apply andb_true_iff in He. destruct He as [Hdig _].
  now rewrite Hdig, He', HE.
Qed.

(** The members and the elements between the brackets, in either mode of
    [value_to_string]: [nl] is the line break, [prefix] the indentation of
    a child and [closing] the indentation of the closing bracket. *)
Section SerializedChildren.
Variables nl prefix closing : string.
Variable f : JSONValue -> string.
Variable g : JSONValue -> JSONValue.
Hypothesis nl_space : all_space nl = true.
Hypothesis prefix_space : all_space prefix = true.
Hypothesis closing_space : all_space closing = true.
Hypothesis closing_ends :
  forall c rest,
    ends_number (String c rest) = true ->
    ends_number (nl ++ closing ++ String c rest) = true.

Lemma members_text_more (l : list (string * JSONValue)) :
  members_to_string f ("," ++ nl) prefix l false
  = match l with
    | [] => ""
    | _ :: _ => "," ++ nl ++ members_to_string f ("," ++ nl) prefix l true
    end.
Proof.
  destruct l as [| [key child] l]; reflexivity.
Qed.

Lemma elements_text_more (l : list JSONValue) :
  elements_to_string f ("," ++ nl) prefix l false
  = match l with
    | [] => ""
    | _ :: _ => "," ++ nl ++ elements_to_string f ("," ++ nl) prefix l true
    end.
Proof.
  destruct l as [| child l]; reflexivity.
Qed.

Ltac same_rest tail H :=
  match goal with
  | |- reads_value _ _ ?r =>
      replace r with tail;
      [exact H
      | unfold tail; rewrite ?members_text_more, ?elements_text_more;
        repeat first [rewrite !append_assoc | progress cbn [String.append]];
        reflexivity]
  end.

Lemma members_text_reads (l : list (string * JSONValue)) (rest : string) :
  Forall (fun member =>
            no_escape_needed (fst member) = true
            /\ forall rest',
                ends_number rest' = true ->
                reads_value (f (snd member) ++ rest') (g (snd member)) rest')
    l ->
  l <> [] ->
  reads_members
    (nl ++ members_to_string f ("," ++ nl) prefix l true
     ++ nl ++ closing ++ String "}" rest)
    (map (fun member => (fst member, g (snd member))) l) rest.
Proof.
  intros HP. induction HP as [| [key child] l [Hkey Hchild] HP IH];
    intros Hne; [elim Hne; reflexivity | clear Hne].
  cbn [fst snd] in *. cbn [map fst snd].
  set (tail := members_to_string f ("," ++ nl) prefix l false
               ++ nl ++ closing ++ String "}" rest).
  assert (Htext : nl ++ members_to_string f ("," ++ nl) prefix
                          ((key, child) :: l) true
                  ++ nl ++ closing ++ String "}" rest
                  = (nl ++ prefix)
                    ++ String dquote
                         (key ++ String dquote
                            ("" ++ String ":" (" " ++ f child ++ tail)))).
  { cbn [members_to_string String.append]. unfold tail.
    repeat first [rewrite !append_assoc | progress cbn [String.append]].
    reflexivity. }
  rewrite Htext.
  assert (Hws : all_space (nl ++ prefix) = true)
    by now rewrite all_space_app, nl_space, prefix_space.
  pose proof (string_body_plain key Hkey) as Hbody.
  assert (Hend : ends_number tail = true).
  { unfold tail. rewrite members_text_more.
    destruct l; [apply closing_ends |]; reflexivity. }
  pose proof (reads_value_after_space " " _ _ _ eq_refl
                (Hchild tail Hend)) as Hvalue.
  destruct l as [| member l].
  - apply (members_last _ key key "" _ (g child) (nl ++ closing) rest);
      try assumption; try reflexivity.
    + same_rest tail Hvalue.
    + now rewrite all_space_app, nl_space, closing_space.
  - apply (members_more _ key key "" _ (g child) ""
             (nl ++ members_to_string f ("," ++ nl) prefix (member :: l) true
              ++ nl ++ closing ++ String "}" rest));
      try assumption; try reflexivity.
    + same_rest tail Hvalue.
    + apply IH. discriminate.
Qed.

Lemma elements_text_reads (l : list JSONValue) (rest : string) :
  Forall (fun child =>
            forall rest',
              ends_number rest' = true ->
              reads_value (f child ++ rest') (g child) rest') l ->
  l <> [] ->
  reads_elements
    (nl ++ elements_to_string f ("," ++ nl) prefix l true
     ++ nl ++ closing ++ String "]" rest)
    (map g l) rest.
Proof.
  intros HP. induction HP as [| child l Hchild HP IH];
    intros Hne; [elim Hne; reflexivity | clear Hne].
  cbn [map].
  set (tail := elements_to_string f ("," ++ nl) prefix l false
               ++ nl ++ closing ++ String "]" rest).
  assert (Htext : nl ++ elements_to_string f ("," ++ nl) prefix
                          (child :: l) true
                  ++ nl ++ closing ++ String "]" rest
                  = (nl ++ prefix) ++ f child ++ tail).
  { cbn [elements_to_string String.append]. unfold tail.
    repeat first [rewrite !append_assoc | progress cbn [String.append]].
    reflexivity. }
  rewrite Htext.
  assert (Hws : all_space (nl ++ prefix) = true)
    by now rewrite all_space_app, nl_space, prefix_space.
  assert (Hend : ends_number tail = true).
  { unfold tail. rewrite elements_text_more.
    destruct l; [apply closing_ends |]; reflexivity. }
  pose proof (reads_value_after_space _ _ _ _ Hws (Hchild tail Hend))
    as Hvalue.
  destruct l as [| child' l].
  - apply (elements_last _ (g child) (nl ++ closing) rest).
    + same_rest tail Hvalue.
    + now rewrite all_space_app, nl_space, closing_space.
  - apply (elements_more _ (g child) ""
             (nl ++ elements_to_string f ("," ++ nl) prefix (child' :: l) true
              ++ nl ++ closing ++ String "]" rest)).
    + same_rest tail Hvalue.
    + reflexivity.
    + apply IH. discriminate.
Qed.

End SerializedChildren.

Lemma serialized_reads (v : JSONValue) :
  round_trippable v = true ->
  forall indent pretty_print rest,
    ends_number rest = true ->
    reads_value (value_to_string v indent pretty_print ++ rest)
      (reparsed v) rest.
Proof.
  induction v as [t s i d b o a IHo IHa] using JSONValue_nested_ind.
  intros Hrt indent pretty_print rest He.
  cbn [round_trippable] in Hrt.
  set (nl := if pretty_print then string_of_char newline_char else "").
  set (closing := if pretty_print then string_repeat (indent * 2) " "
                  else "").
  set (prefix := closing ++ (if pretty_print then "  " else "")).
  assert (Hnl : all_space nl = true) by (destruct pretty_print; reflexivity).
  assert (Hclosing : all_space closing = true)
    by (destruct pretty_print; [apply all_space_repeat | reflexivity]).
  assert (Hprefix : all_space prefix = true).
  { unfold prefix. rewrite all_space_app, Hclosing.
    destruct pretty_print; reflexivity. }
  assert (Hends : forall c rest',
             ends_number (String c rest') = true ->
             ends_number (nl ++ closing ++ String c rest') = true).
  { intros c rest' H. unfold nl, closing.
    destruct pretty_print; [reflexivity | exact H]. }
  destruct t; try discriminate Hrt; cbn [value_to_string reparsed].
  - (* String *)
    unfold as_string. cbn [type_ string_value_].
    replace ((String dquote s ++ string_of_char dquote) ++ rest)
      with ("" ++ String dquote (s ++ String dquote rest))
      by (cbn [String.append string_of_char]; now rewrite append_assoc).
    apply value_string; [reflexivity | apply string_body_plain; exact Hrt].
  - (* Number *)
    unfold as_string. cbn [type_ double_value_].
    apply to_string_double_reads; assumption.
  - (* Integer *)
    unfold as_string. cbn [type_ int_value_].
    apply to_string_int_reads; assumption.
  - (* Boolean *)
    unfold as_string. cbn [type_ bool_value_].
    destruct b; [apply (value_true "") | apply (value_false "")];
      reflexivity.
  - (* Null *)
    apply (value_null ""). reflexivity.
  - (* Object *)
    fold nl closing prefix.
    apply andb_true_iff in Hrt. destruct Hrt as [_ Hrt].
    change (fold_left set_member
              (map (fun member => (fst member, reparsed (snd member))) o)
              (set JSONValue_null "" JSONValue_null))
      with (object_of
              (map (fun member => (fst member, reparsed (snd member))) o)).
    destruct o as [| member o].
    + replace (("{" ++ nl ++ members_to_string
                  (fun child => value_to_string child (S indent)
                                  pretty_print)
                  ("," ++ nl) prefix [] true ++ nl ++ closing ++ "}")
               ++ rest)
        with ("" ++ String "{" ((nl ++ nl ++ closing) ++ String "}" rest))
        by (cbn [members_to_string String.append];
            repeat first [rewrite !append_assoc
                         | progress cbn [String.append]];
            reflexivity).
      apply value_empty_object; [reflexivity |].
      now rewrite !all_space_app, Hnl, Hclosing.
    + replace (("{" ++ nl ++ members_to_string
                  (fun child => value_to_string child (S indent)
                                  pretty_print)
                  ("," ++ nl) prefix (member :: o) true
                ++ nl ++ closing ++ "}") ++ rest)
        with ("" ++ String "{"
                ("" ++ nl ++ members_to_string
                   (fun child => value_to_string child (S indent)
                                   pretty_print)
                   ("," ++ nl) prefix (member :: o) true
                 ++ nl ++ closing ++ String "}" rest))
        by (repeat first [rewrite !append_assoc
                         | progress cbn [String.append]];
            reflexivity).
      apply value_object; [reflexivity | reflexivity |].
      apply (members_text_reads nl prefix closing _ reparsed Hnl Hprefix
               Hclosing Hends); [| discriminate].
      apply Forall_forall. intros m Hin.
      rewrite forallb_forall in Hrt. specialize (Hrt m Hin).
      apply andb_true_iff in Hrt. destruct Hrt as [Hkey Hchild].
      split; [exact Hkey |]. intros rest' He'.
      rewrite Forall_forall in IHo. exact (IHo m Hin Hchild _ _ _ He').
  - (* Array *)
    fold nl closing prefix.
    change (fold_left push_back (map reparsed a) JSONValue_null)
      with (array_of (map reparsed a)).
    destruct a as [| child a]; [discriminate Hrt |].
    replace (("[" ++ nl ++ elements_to_string
                (fun child => value_to_string child (S indent) pretty_print)
                ("," ++ nl) prefix (child :: a) true
              ++ nl ++ closing ++ "]") ++ rest)
      with ("" ++ String "["
              ("" ++ nl ++ elements_to_string
                 (fun child => value_to_string child (S indent)
                                 pretty_print)
                 ("," ++ nl) prefix (child :: a) true
               ++ nl ++ closing ++ String "]" rest))
      by (repeat first [rewrite !append_assoc
                       | progress cbn [String.append]];
          reflexivity).
    apply value_array; [reflexivity | reflexivity |].
    apply (elements_text_reads nl prefix closing _ reparsed Hnl Hprefix
             Hclosing Hends); [| discriminate].
    apply Forall_forall. intros c Hin rest' He'.
    rewrite forallb_forall in Hrt.
    rewrite Forall_forall in IHa. exact (IHa c Hin (Hrt c Hin) _ _ _ He').
Qed.

(** X12: the text that [to_string] writes for a tree, pretty-printed or
    not, is a text of the grammar that denotes the tree as the parser
    rebuilds it; so the pretty-printed text is parsed, to the same result
    as the text on a single line, and that result holds the same tree:
    line breaks and indentation do not change what is read. This holds for
    the trees of the round trip: strings and keys without quotes and
    backslashes, Numbers that six decimals write exactly. *)
Theorem pretty_text_parses_back (v : JSONValue) :
  round_trippable v = true ->
  (forall indent pretty_print rest,
      ends_number rest = true ->
      reads_value (value_to_string v indent pretty_print ++ rest)
        (reparsed v) rest)
  /\ exists r,
      parse (to_string (result_of v) true) = Some r
      /\ parse (to_string (result_of v) false) = Some r
      /\ success r = true
      /\ root r = reparsed v
      /\ same_tree v (root r).
Proof.
  intros Hrt. split; [exact (serialized_reads v Hrt) |].
  exists (mkJSONResult true "" (reparsed v)).
  assert (H : forall pretty_print,
             parse (to_string (result_of v) pretty_print)
             = Some (mkJSONResult true "" (reparsed v))).
  { intros pretty_print. apply (reads_value_parse _ _ "").
    unfold to_string, result_of. cbn [root].
    rewrite <- (append_empty_r (value_to_string v 0 pretty_print)) at 1.
    apply serialized_reads; [exact Hrt | reflexivity]. }
  split; [apply H |]. split; [apply H |].
  split; [reflexivity |]. split; [reflexivity |].
  apply same_tree_reparsed. exact Hrt.
Qed.

Lemma pretty_text_parses_back_witness :
  let v :=
    set (set JSONValue_null "k"
           (push_back (push_back JSONValue_null (JSONValue_int 1))
              (JSONValue_string "a b")))
      "e" (set JSONValue_null "n" JSONValue_null) in
  exists r,
    parse (to_string (result_of v) true) = Some r
    /\ parse (to_string (result_of v) false) = Some r
    /\ to_string r false
       = "{" ++ quoted "" ++ ": null," ++ quoted "e" ++ ": {" ++ quoted ""
         ++ ": null," ++ quoted "n" ++ ": null}," ++ quoted "k" ++ ": [1,"
         ++ quoted "a b" ++ "]}".
Proof.
  intros v.
  destruct (pretty_text_parses_back v eq_refl)
    as [_ [r [Hpretty [Hplain [_ [Hroot _]]]]]].
  exists r. split; [exact Hpretty |]. split; [exact Hplain |].
  unfold to_string. rewrite Hroot. vm_compute. reflexivity.
Defined.

(** ** Parsing the text of a parsed tree *)

Lemma keys_sorted_app_l (a b : list string) :
  keys_sorted (a ++ b) = true -> keys_sorted a = true.
Proof.
  induction a as [| k a IH]; [reflexivity |]. cbn [app]. intros H.
  apply keys_sorted_cons in H. destruct H as [Hall Hs].
  apply keys_sorted_cons. split; [| apply IH; exact Hs].
  intros k' Hin. apply Hall. apply in_or_app. left. exact Hin.
Qed.

Lemma map_assign_last {V : Type} (key : string) (value : V)
  (m : list (string * V)) :
  keys_sorted (map fst (m ++ [(key, value)])) = true ->
  map_assign key value m = (m ++ [(key, value)])%list.
Proof.
  induction m as [| [k0 v0] m IH]; intros Hs; [reflexivity |].
  cbn [app map fst] in Hs. apply keys_sorted_cons in Hs.
  destruct Hs as [Hall Hs]. cbn [map_assign app].
  assert (Hlt : String.compare k0 key = Lt).
  { apply Hall. rewrite map_app. apply in_or_app. right. left. reflexivity. }
  rewrite String.compare_antisym, Hlt. cbn [CompOpp].
  now rewrite (IH Hs).
Qed.

Lemma fold_map_assign_sorted {V : Type} (l : list (string * V)) :
  forall m,
    keys_sorted (map fst (m ++ l)) = true ->
    fold_left (fun m' member => map_assign (fst member) (snd member) m') l m
    = (m ++ l)%list.
Proof.
  induction l as [| [k v] l IH]; intros m Hs; cbn [fold_left fst snd].
  - now rewrite app_nil_r.
  - assert (Hm : (m ++ (k, v) :: l = (m ++ [(k, v)]) ++ l)%list)
      by now rewrite <- app_assoc.
    rewrite Hm in Hs. rewrite map_assign_last.
    + rewrite (IH _ Hs). now rewrite <- app_assoc.
    + rewrite map_app in Hs. apply keys_sorted_app_l in Hs. exact Hs.
Qed.

Lemma fold_set_member_object (l : list (string * JSONValue)) :
  forall obj,
    get_type obj = TObject ->
    fold_left set_member l obj
    = mkJSONValue TObject (string_value_ obj) (int_value_ obj)
        (double_value_ obj) (bool_value_ obj)
        (fold_left
           (fun m member => map_assign (fst member) (snd member) m) l
           (object_values_ obj))
        (array_values_ obj).
Proof.
  induction l as [| [k v] l IH]; intros obj Ht.
  - cbn [fold_left]. destruct obj. cbn in *. now subst.
  - cbn [fold_left]. rewrite IH by apply set_type.
    unfold get_type in Ht. unfold set_member, set. rewrite Ht.
    reflexivity.
Qed.

(** The objects that [parse_object] builds: stored again member by member
    in key order, they are themselves. *)
Lemma object_of_sorted (value : JSONValue)
  (members : list (string * JSONValue)) :
  keys_sorted (map fst (("", value) :: members)) = true ->
  object_of (("", value) :: members)
  = mkJSONValue TObject "" 0%Z double_zero false (("", value) :: members) [].
Proof.
  intros Hs. unfold object_of. cbn [fold_left].
  rewrite fold_set_member_object by apply set_type.
  cbn [set_member set JSONValue_null type_ JSONType_eqb negb fst snd
       string_value_ int_value_ double_value_ bool_value_ object_values_
       array_values_ map_assign String.compare].
  now rewrite (fold_map_assign_sorted members [("", value)] Hs).
Qed.

Lemma well_tagged_fields (t : JSONType) (s : string) (i : Z) (d : double)
  (b : bool) (o : list (string * JSONValue)) (a : list JSONValue) :
  well_tagged (mkJSONValue t s i d b o a) = true ->
  match t with
  | TString => i = 0%Z /\ d = double_zero /\ b = false /\ o = [] /\ a = []
  | TNumber => s = "" /\ i = 0%Z /\ b = false /\ o = [] /\ a = []
  | TInteger => s = "" /\ d = double_zero /\ b = false /\ o = [] /\ a = []
  | TBoolean => s = "" /\ i = 0%Z /\ d = double_zero /\ o = [] /\ a = []
  | TNull =>
      s = "" /\ i = 0%Z /\ d = double_zero /\ b = false /\ o = [] /\ a = []
  | TObject => s = "" /\ i = 0%Z /\ d = double_zero /\ b = false /\ a = []
  | TArray => s = "" /\ i = 0%Z /\ d = double_zero /\ b = false /\ o = []
  end.
Proof.
  unfold well_tagged.
  cbn [type_ string_value_ int_value_ double_value_ bool_value_
       object_values_ array_values_].
  assert (Hs : (s =? "")%string = true -> s = "")
    by apply String.eqb_eq.
  assert (Hi : (i =? 0)%Z = true -> i = 0%Z) by apply Z.eqb_eq.
  assert (Hd : match d with S754_zero false => true | _ => false end = true
               -> d = double_zero)
    by (destruct d as [[|] | | |]; try discriminate; reflexivity).
  assert (Hb : negb b = true -> b = false)
    by (destruct b; [discriminate | reflexivity]).
  assert (Ho : match o with [] => true | _ :: _ => false end = true
               -> o = [])
    by (destruct o; [reflexivity | discriminate]).
  assert (Ha : match a with [] => true | _ :: _ => false end = true
               -> a = [])
    by (destruct a; [reflexivity | discriminate]).
  destruct t; intros H;
    repeat (apply andb_true_iff in H; destruct H as [H ?]);
    repeat split; auto.
Qed.

Lemma map_fixed {A : Type} (h : A -> A) (l : list A) :
  Forall (fun x => h x = x) l -> map h l = l.
Proof.
  induction 1 as [| x l Hx _ IH]; [reflexivity |].
  cbn [map]. now rewrite Hx, IH.
Qed.

Lemma reparsed_fixed (v : JSONValue) :
  every_value well_tagged v = true ->
  every_value keys_in_order v = true ->
  every_object empty_key_first v = true ->
  round_trippable v = true ->
  reparsed v = v.
Proof.
  induction v as [t s i d b o a IHo IHa] using JSONValue_nested_ind.
  intros Hw Hk He Hrt.
  rewrite every_value_unfold in Hw, Hk. rewrite every_object_unfold in He.
  cbn [type_ object_values_ array_values_] in Hw, Hk, He.
  apply andb_true_iff in Hw. destruct Hw as [Hw Hwa].
  apply andb_true_iff in Hw. destruct Hw as [Hw Hwo].
  apply andb_true_iff in Hk. destruct Hk as [Hk Hka].
  apply andb_true_iff in Hk. destruct Hk as [Hk Hko].
  apply andb_true_iff in He. destruct He as [He Hea].
  apply andb_true_iff in He. destruct He as [He Heo].
  pose proof (well_tagged_fields _ _ _ _ _ _ _ Hw) as Hf.
  cbn [round_trippable] in Hrt.
  destruct t; cbn [reparsed].
  - destruct Hf as [-> [-> [-> [-> ->]]]]. reflexivity.
  - destruct Hf as [-> [-> [-> [-> ->]]]]. reflexivity.
  - destruct Hf as [-> [-> [-> [-> ->]]]]. reflexivity.
  - destruct Hf as [-> [-> [-> [-> ->]]]]. reflexivity.
  - destruct Hf as [-> [-> [-> [-> [-> ->]]]]]. reflexivity.
  - (* Object *)
    destruct Hf as [-> [-> [-> [-> ->]]]].
    apply andb_true_iff in Hrt. destruct Hrt as [_ Hrt].
    assert (Hmap : map (fun member => (fst member, reparsed (snd member))) o
                   = o).
    { apply map_fixed. apply Forall_forall. intros [k child] Hin.
      rewrite Forall_forall in IHo.
      rewrite forallb_forall in Hwo, Hko, Heo, Hrt.
      specialize (Hrt _ Hin). apply andb_true_iff in Hrt.
      pose proof (IHo _ Hin (Hwo _ Hin) (Hko _ Hin) (Heo _ Hin)
                    (proj2 Hrt)) as E.
      cbn [fst snd] in *. now rewrite E. }
    rewrite Hmap.
    cbn [JSONType_eqb] in He. unfold empty_key_first in He.
    cbn [object_values_] in He.
    destruct o as [| [k0 v0] o]; [discriminate He |].
    apply String.eqb_eq in He. subst k0.
    unfold keys_in_order in Hk. cbn [object_values_] in Hk.
    exact (object_of_sorted v0 o Hk).
  - (* Array *)
    destruct Hf as [-> [-> [-> [-> ->]]]].
    destruct a as [| child a]; [discriminate Hrt |].
    assert (Hmap : map reparsed (child :: a) = child :: a).
    { apply map_fixed. apply Forall_forall. intros c Hin.
      rewrite Forall_forall in IHa.
      rewrite forallb_forall in Hwa, Hka, Hea, Hrt.
      exact (IHa _ Hin (Hwa _ Hin) (Hka _ Hin) (Hea _ Hin) (Hrt _ Hin)). }
    rewrite Hmap. apply fold_push_back_null.
Qed.

(** X13: [to_string] followed by [parse] is the identity on the results of
    [parse]: when a text is parsed to a tree whose strings and keys hold no
    quote and no backslash and whose Numbers six decimals write exactly,
    the text that [to_string] writes for the result, pretty-printed or not,
    is parsed to that very result. The tree needs no further condition: its
    keys are in ascending order behind the empty key, no array of it is
    empty, and each value holds only the payload of its kind. *)
Theorem to_string_parse_fixed_point (content : string) (r : JSONResult) :
  parse content = Some r ->
  success r = true ->
  round_trippable (root r) = true ->
  forall pretty_print, parse (to_string r pretty_print) = Some r.
Proof.
  intros Hparse Hs Hrt pretty_print.
  assert (Hr : r = mkJSONResult true "" (root r)
               /\ exists fuel pos pos',
                   parse_value fuel content pos = Ok (root r) pos').
  { unfold parse in Hparse.
    destruct (parse_value (parse_fuel content) content
                (skip_whitespace content 0)) as [v pos' | what |] eqn:E;
      inversion Hparse; subst r; [| discriminate Hs].
    split; [reflexivity |]. cbn [root]. eauto. }
  destruct Hr as [Hr [fuel [pos [pos' Hvalue]]]].
  assert (Hfixed : reparsed (root r) = root r).
  { apply reparsed_fixed; [| | | exact Hrt].
    - apply (parse_every_value well_tagged) with (1 := eq_refl)
        (8 := Hvalue); try reflexivity.
      + exact well_tagged_set.
      + exact well_tagged_push_back.
    - apply (parse_every_value keys_in_order) with (1 := eq_refl)
        (8 := Hvalue); try reflexivity.
      + exact keys_in_order_set.
      + exact keys_in_order_push_back.
    - exact (proj1 (parse_every_object _ _ _) _ _ Hvalue). }
  destruct r as [success0 message0 root0]. cbn [root] in *.
  injection Hr as -> ->.
  replace (Some (mkJSONResult true "" root0))
    with (Some (mkJSONResult true "" (reparsed root0)))
    by now rewrite Hfixed.
  apply (reads_value_parse _ _ "").
  unfold to_string. cbn [root].
  rewrite <- (append_empty_r (value_to_string root0 0 pretty_print)).
  apply serialized_reads; [exact Hrt | reflexivity].
Qed.

Lemma to_string_parse_fixed_point_witness :
  exists r,
    parse ("{" ++ quoted "b" ++ ":[1,2.5]," ++ quoted "a" ++ ":{}}") = Some r
    /\ to_string r false
       = "{" ++ quoted "" ++ ": null," ++ quoted "a" ++ ": {" ++ quoted ""
         ++ ": null}," ++ quoted "b" ++ ": [1,2.500000]}"
    /\ parse (to_string r false) = Some r
    /\ parse (to_string r true) = Some r.
Proof.
  eexists. split; [vm_compute; reflexivity |].
  split; [vm_compute; reflexivity |].
  split;
    apply (to_string_parse_fixed_point
             ("{" ++ quoted "b" ++ ":[1,2.5]," ++ quoted "a" ++ ":{}}"));
    vm_compute; reflexivity.
Defined.

(** ** Paths and arrays *)

Lemma looked_up_not_nil (path : string) :
  path <> "" -> looked_up_segments path <> [].
Proof.
  unfold looked_up_segments. destruct path as [| c path]; [congruence |].
  intros _. cbn [path_segments].
  pose proof (path_segments_not_nil path) as Hne.
  destruct (c =? ".")%char.
  - rewrite without_last_empty_cons by exact Hne. discriminate.
  - destruct (path_segments path) as [| segment segments]; [congruence |].
    destruct segments as [| segment' segments].
    + cbn [without_last_empty String.eqb]. discriminate.
    + rewrite without_last_empty_cons by discriminate. discriminate.
Qed.

(** X14: a path descends through Objects only. When the root is no Object,
    an Array for instance, every path but the empty one resolves to Null:
    [has_path] is false, the typed getters return their default and
    [get_keys] is empty, whatever the segments are; there is no segment
    that selects an element of an Array. The elements are reached with
    [at] on the value that the empty path returns. *)
Theorem paths_need_objects (r : JSONResult) (path : string) :
  get_type (root r) <> TObject ->
  path <> "" ->
  get_value r path = JSONValue_null
  /\ has_path r path = false
  /\ get_keys_at r path = []
  /\ (forall default_value, get_int r path default_value = default_value)
  /\ (forall default_value,
        get_string r path default_value = default_value)
  /\ (forall default_value, get_bool r path default_value = default_value)
  /\ get_value r "" = root r.
Proof.
  intros Ht Hpath.
  assert (H : get_value r path = JSONValue_null).
  { rewrite get_value_looked_up.
    pose proof (looked_up_not_nil path Hpath) as Hne.
    destruct (looked_up_segments path) as [| segment segments];
      [congruence |].
    cbn [get_value_loop].
    destruct (get_type (root r)); try reflexivity. congruence. }
  unfold has_path, get_keys_at, get_int, get_string, get_bool.
  rewrite H. repeat split.
Qed.

Lemma paths_need_objects_witness :
  exists r,
    parse ("[{" ++ quoted "a" ++ ":1}]") = Some r
    /\ get_int r "0.a" 7 = 7%Z
    /\ has_path r "0" = false
    /\ get (at_ (get_value r "") 0) "a" = JSONValue_int 1.
Proof.
  eexists. split; [vm_compute; reflexivity |].
  split.
  - apply paths_need_objects; discriminate.
  - split; [| vm_compute; reflexivity].
    refine (proj1 (proj2 (paths_need_objects _ "0" _ _))); discriminate.
Defined.
